(** * pack-crx: the CRX container codec and the [pack] resolution engine

    A shallow embedding of [src/index.ts] and [src/crx3.pb.js].

    - A [Uint8Array] is the list of its bytes wherever the source reads and
      writes elements only.  [unpack] also reads [crx.buffer], the
      [ArrayBuffer] that its argument is a view of: its argument is an
      [ArrayBufferView], a buffer with the offset and the length of the view
      in it.  [whole a] is an array that spans its buffer from the first
      byte, which is what [new Uint8Array(n)], [slice] and [Uint8Array.from]
      create.
    - JavaScript numbers are integers of [Z] here: lengths, offsets, tags and
      version numbers are all integers below 2^53 in the source.
    - A function that can throw returns a [Completion].
    - The libraries the source imports are not part of the repository:
      [node:crypto] and [node-rsa] are section variables, [pbf] is modelled
      by the protobuf wire format that it implements. *)

From Stdlib Require Import ZArith List Lia String Ascii Bool.
From coqutil Require Import Byte Word.LittleEndianList.
Import ListNotations.
Local Open Scope Z_scope.

(** ** Completions: a returned value or a thrown error *)

Inductive JsError : Type :=
| RangeError (message : string)
| TypeError (message : string)
| Error (message : string).

Inductive Completion (A : Type) : Type :=
| Return (a : A)
| Throw (e : JsError).
Arguments Return {A} a.
Arguments Throw {A} e.

Definition bind {A B : Type} (c : Completion A) (k : A -> Completion B) : Completion B :=
  match c with
  | Return a => k a
  | Throw e => Throw e
  end.

Declare Scope js_scope.
Delimit Scope js_scope with js.
Notation "x <- c ;; k" := (bind c (fun x => k))
  (at level 61, c at next level, right associativity) : js_scope.
Notation "' pat <- c ;; k" := (bind c (fun x => match x with pat => k end))
  (at level 61, pat pattern, c at next level, right associativity) : js_scope.
Local Open Scope js_scope.

(** [String(e)], as a template literal renders a caught error. *)
Definition JsError_toString (e : JsError) : string :=
  match e with
  | RangeError m => "RangeError: " ++ m
  | TypeError m => "TypeError: " ++ m
  | Error m => "Error: " ++ m
  end.

(** ** Typed arrays and data views *)

Definition Uint8Array : Type := list byte.

Definition len (a : Uint8Array) : Z := Z.of_nat (List.length a).

(** [new Uint8Array(n)]: [n] zero bytes. *)
Definition new_Uint8Array (n : Z) : Uint8Array := repeat Byte.x00 (Z.to_nat n).

(** [Uint8Array.from(s, ch => ch.charCodeAt(0))] on an ASCII string. *)
Definition Uint8Array_from_string (s : string) : Uint8Array := list_byte_of_string s.

(** [target.set(source, offset)]: throws a RangeError when the source does not
    fit, otherwise overwrites [source.length] elements from [offset] on. *)
Definition set (target source : Uint8Array) (offset : Z) : Completion Uint8Array :=
  if (offset <? 0) || (len source + offset >? len target)
  then Throw (RangeError "offset is out of bounds")
  else Return (firstn (Z.to_nat offset) target ++ source
               ++ skipn (Z.to_nat (offset + len source)) target).

(** The clamping of a relative index that [slice] and [subarray] share. *)
Definition relative_index (n i : Z) : Z :=
  if i <? 0 then Z.max (n + i) 0 else Z.min i n.

(** [a.slice(start, end)]; [None] is an omitted [end]. *)
Definition slice (a : Uint8Array) (start : Z) (end_ : option Z) : Uint8Array :=
  let n := len a in
  let k := relative_index n start in
  let final := match end_ with
               | None => n
               | Some e => relative_index n e
               end in
  firstn (Z.to_nat (final - k)) (skipn (Z.to_nat k) a).

Definition DataView_RangeError : JsError :=
  RangeError "Offset is outside the bounds of the DataView".

(** [dv.getUint8(byteOffset)]. *)
Definition getUint8 (dv : Uint8Array) (byteOffset : Z) : Completion Z :=
  if (byteOffset <? 0) || (byteOffset + 1 >? len dv)
  then Throw DataView_RangeError
  else Return (le_combine (firstn 1 (skipn (Z.to_nat byteOffset) dv))).

(** [dv.getUint32(byteOffset, true)]: four bytes, little endian. *)
Definition getUint32 (dv : Uint8Array) (byteOffset : Z) : Completion Z :=
  if (byteOffset <? 0) || (byteOffset + 4 >? len dv)
  then Throw DataView_RangeError
  else Return (le_combine (firstn 4 (skipn (Z.to_nat byteOffset) dv))).

(** [dv.setUint32(byteOffset, value, true)]: [value] modulo 2^32, little
    endian ([le_split] keeps the low four bytes). *)
Definition setUint32 (dv : Uint8Array) (byteOffset value : Z) : Completion Uint8Array :=
  if (byteOffset <? 0) || (byteOffset + 4 >? len dv)
  then Throw DataView_RangeError
  else Return (firstn (Z.to_nat byteOffset) dv ++ le_split 4 value
               ++ skipn (Z.to_nat (byteOffset + 4)) dv).

(** [a.every((v, i) => ...)]: stops at the first [false]; a throwing callback
    aborts the iteration. *)
Fixpoint every_from (callback : byte -> Z -> Completion bool) (a : Uint8Array) (i : Z)
  : Completion bool :=
  match a with
  | [] => Return true
  | v :: a' =>
      ok <- callback v i ;;
      if ok : bool then every_from callback a' (i + 1) else Return false
  end.

Definition every (callback : byte -> Z -> Completion bool) (a : Uint8Array) : Completion bool :=
  every_from callback a 0.

(** [Buffer.concat(list)]. *)
Definition Buffer_concat (l : list Uint8Array) : Uint8Array := List.concat l.

(** ** The [pbf] reader and writer *)

Module Pbf.

(** Wire types. *)
Definition PBF_VARINT : Z := 0.
Definition PBF_FIXED64 : Z := 1.
Definition PBF_BYTES : Z := 2.
Definition PBF_FIXED32 : Z := 5.

(** The 32-bit conversions behind [>>] and [&]. *)
Definition toInt32 (z : Z) : Z := (z + 2 ^ 31) mod 2 ^ 32 - 2 ^ 31.

(** *** Writing: the writer is the bytes written so far. *)

Definition Writer : Type := Uint8Array.

Definition new_Writer : Writer := [].

Definition finish (w : Writer) : Uint8Array := w.

(** Base-128 varint of a non-negative integer below 2^64, low group first,
    at most ten bytes. *)
Fixpoint varint_bytes (fuel : nat) (val : Z) : list byte :=
  match fuel with
  | O => []
  | S fuel' =>
      if val <=? 0x7f then [byte.of_Z val]
      else byte.of_Z (Z.lor (Z.land val 0x7f) 0x80)
           :: varint_bytes fuel' (Z.shiftr val 7)
  end.

Definition writeVarint (val : Z) (w : Writer) : Writer := w ++ varint_bytes 10 val.

Definition writeTag (tag type : Z) (w : Writer) : Writer :=
  writeVarint (Z.lor (Z.shiftl tag 3) type) w.

Definition writeBytes (buffer : Uint8Array) (w : Writer) : Writer :=
  writeVarint (len buffer) w ++ buffer.

Definition writeBytesField (tag : Z) (buffer : Uint8Array) (w : Writer) : Writer :=
  writeBytes buffer (writeTag tag PBF_BYTES w).

(** [writeRawMessage]: one byte is reserved for the length, [fn] writes the
    message after it, and the varint of the message length then replaces
    the reserved byte (the message is moved when the length needs more
    than one byte). *)
Definition writeRawMessage {A : Type} (fn : A -> Writer -> Writer) (obj : A) (w : Writer)
  : Writer :=
  let reserved := w ++ [Byte.x00] in
  let startPos := List.length reserved in
  let written := fn obj reserved in
  let length := len written - Z.of_nat startPos in
  firstn (startPos - 1) written ++ varint_bytes 10 length ++ skipn startPos written.

Definition writeMessage {A : Type} (tag : Z) (fn : A -> Writer -> Writer) (obj : A)
  (w : Writer) : Writer :=
  writeRawMessage fn obj (writeTag tag PBF_BYTES w).

(** *** Reading: a buffer and a position in it. *)

Record Reader : Type := { buf : Uint8Array; pos : Z }.

Definition new_Reader (b : Uint8Array) : Reader := {| buf := b; pos := 0 |}.

Definition length (p : Reader) : Z := len (buf p).

(** The bytes from [pos] on; nothing when [pos] is past the end. *)
Definition remaining (p : Reader) : list byte := skipn (Z.to_nat (pos p)) (buf p).

(** The varint that starts the list [l]: its value and the number of bytes
    read.  At most ten bytes are read, the tenth contributes its lowest bit
    only; a byte past the end of the buffer reads as [undefined], which
    never ends the varint, so that running off the buffer throws like an
    eleventh byte does.  (The source accumulates in a double: a value of
    2^53 or more is rounded there and exact here.) *)
Fixpoint varint_value (fuel : nat) (shift : Z) (l : list byte) : option (Z * Z) :=
  match fuel, l with
  | S fuel', b :: l' =>
      let u := byte.unsigned b in
      let group := Z.shiftl (Z.land u (if Nat.eqb fuel' 0 then 0x01 else 0x7f)) shift in
      if u <? 0x80 then Some (group, 1)
      else match varint_value fuel' (shift + 7) l' with
           | Some (v, k) => Some (Z.lor group v, k + 1)
           | None => None
           end
  | _, _ => None
  end.

Definition readVarint (p : Reader) : Completion (Z * Reader) :=
  match varint_value 10 0 (remaining p) with
  | Some (v, k) => Return (v, {| buf := buf p; pos := pos p + k |})
  | None => Throw (Error "Expected varint not more than 10 bytes")
  end.

(** [readBytes]: a view of the bytes up to the declared end, clamped to the
    buffer by [subarray]; the position moves to the declared end even past
    the buffer. *)
Definition readBytes (p : Reader) : Completion (Uint8Array * Reader) :=
  '(n, p1) <- readVarint p ;;
  let end_ := n + pos p1 in
  Return (slice (buf p1) (pos p1) (Some end_), {| buf := buf p1; pos := end_ |}).

(** The bytes a varint being skipped occupies: up to and including the first
    byte that is not above 0x7f (an [undefined] past the end is not). *)
Fixpoint varint_extent (l : list byte) : Z :=
  match l with
  | [] => 1
  | b :: l' => if byte.unsigned b >? 0x7f then 1 + varint_extent l' else 1
  end.

Definition skip (val : Z) (p : Reader) : Completion Reader :=
  let type := Z.land (toInt32 val) 0x7 in
  if type =? PBF_VARINT then
    Return {| buf := buf p; pos := pos p + varint_extent (remaining p) |}
  else if type =? PBF_BYTES then
    '(n, p1) <- readVarint p ;;
    Return {| buf := buf p1; pos := n + pos p1 |}
  else if type =? PBF_FIXED32 then Return {| buf := buf p; pos := pos p + 4 |}
  else if type =? PBF_FIXED64 then Return {| buf := buf p; pos := pos p + 8 |}
  else Throw (Error "Unimplemented type").

(** [readFields(readField, result, end)]: the loop [while (this.pos < end)].
    Every iteration reads a varint, hence at least one byte of the buffer, so
    a fuel of one more than the length of the buffer is never used up. *)
Fixpoint readFields_loop {A : Type} (fuel : nat)
  (readField : Z -> A -> Reader -> Completion (A * Reader))
  (result : A) (end_ : Z) (p : Reader) : Completion (A * Reader) :=
  if pos p <? end_ then
    match fuel with
    | O => Throw (Error "readFields: out of fuel")
    | S fuel' =>
        '(val, p1) <- readVarint p ;;
        let tag := Z.shiftr (toInt32 val) 3 in
        let startPos := pos p1 in
        '(result', p2) <- readField tag result p1 ;;
        p3 <- (if pos p2 =? startPos then skip val p2 else Return p2) ;;
        readFields_loop fuel' readField result' end_ p3
    end
  else Return (result, p).

Definition readFields {A : Type}
  (readField : Z -> A -> Reader -> Completion (A * Reader))
  (result : A) (end_ : option Z) (p : Reader) : Completion (A * Reader) :=
  readFields_loop (S (List.length (buf p))) readField result
    (match end_ with
     | Some e => e
     | None => length p
     end) p.

End Pbf.

(** ** The generated protobuf code, [crx3.pb.js] *)

Record SignedData : Type := { crx_id : option Uint8Array }.

Record AsymmetricKeyProof : Type := {
  public_key : option Uint8Array;
  signature : option Uint8Array
}.

(** An optional field of the interface is an [option]: [None] is [undefined]
    (or the [null] that [read] starts from). *)
Record CrxFileHeader : Type := {
  sha256_with_rsa : option (list AsymmetricKeyProof);
  sha256_with_ecdsa : option (list AsymmetricKeyProof);
  signed_header_data : option Uint8Array
}.

Module crx3.

Module AsymmetricKeyProof.

Definition _readField (tag : Z) (obj : AsymmetricKeyProof) (pbf : Pbf.Reader)
  : Completion (AsymmetricKeyProof * Pbf.Reader) :=
  if tag =? 1 then
    '(b, pbf') <- Pbf.readBytes pbf ;;
    Return ({| public_key := Some b; signature := signature obj |}, pbf')
  else if tag =? 2 then
    '(b, pbf') <- Pbf.readBytes pbf ;;
    Return ({| public_key := public_key obj; signature := Some b |}, pbf')
  else Return (obj, pbf).

Definition read (pbf : Pbf.Reader) (end_ : option Z)
  : Completion (AsymmetricKeyProof * Pbf.Reader) :=
  Pbf.readFields _readField {| public_key := None; signature := None |} end_ pbf.

(** A typed array is an object, hence truthy even when it is empty: a field
    that is present is always written. *)
Definition write (obj : AsymmetricKeyProof) (pbf : Pbf.Writer) : Pbf.Writer :=
  let pbf := match public_key obj with
             | Some k => Pbf.writeBytesField 1 k pbf
             | None => pbf
             end in
  match signature obj with
  | Some s => Pbf.writeBytesField 2 s pbf
  | None => pbf
  end.

End AsymmetricKeyProof.

Module CrxFileHeader.

(** [obj.sha256_with_rsa.push(x)]; calling [push] on a missing array is a
    TypeError. *)
Definition push (l : option (list AsymmetricKeyProof)) (x : AsymmetricKeyProof)
  : Completion (option (list AsymmetricKeyProof)) :=
  match l with
  | Some l => Return (Some (l ++ [x]))
  | None => Throw (TypeError "Cannot read properties of undefined (reading 'push')")
  end.

Definition _readField (tag : Z) (obj : CrxFileHeader) (pbf : Pbf.Reader)
  : Completion (CrxFileHeader * Pbf.Reader) :=
  if tag =? 2 then
    '(n, pbf1) <- Pbf.readVarint pbf ;;
    '(proof, pbf2) <- AsymmetricKeyProof.read pbf1 (Some (n + Pbf.pos pbf1)) ;;
    l <- push (sha256_with_rsa obj) proof ;;
    Return ({| sha256_with_rsa := l;
               sha256_with_ecdsa := sha256_with_ecdsa obj;
               signed_header_data := signed_header_data obj |}, pbf2)
  else if tag =? 3 then
    '(n, pbf1) <- Pbf.readVarint pbf ;;
    '(proof, pbf2) <- AsymmetricKeyProof.read pbf1 (Some (n + Pbf.pos pbf1)) ;;
    l <- push (sha256_with_ecdsa obj) proof ;;
    Return ({| sha256_with_rsa := sha256_with_rsa obj;
               sha256_with_ecdsa := l;
               signed_header_data := signed_header_data obj |}, pbf2)
  else if tag =? 10000 then
    '(b, pbf') <- Pbf.readBytes pbf ;;
    Return ({| sha256_with_rsa := sha256_with_rsa obj;
               sha256_with_ecdsa := sha256_with_ecdsa obj;
               signed_header_data := Some b |}, pbf')
  else Return (obj, pbf).

Definition read (pbf : Pbf.Reader) (end_ : option Z)
  : Completion (CrxFileHeader * Pbf.Reader) :=
  Pbf.readFields _readField
    {| sha256_with_rsa := Some []; sha256_with_ecdsa := Some [];
       signed_header_data := None |} end_ pbf.

(** The two [for] loops over the proofs. *)
Definition write_proofs (tag : Z) (l : option (list AsymmetricKeyProof)) (pbf : Pbf.Writer)
  : Pbf.Writer :=
  match l with
  | Some l => fold_left (fun w proof => Pbf.writeMessage tag AsymmetricKeyProof.write proof w) l pbf
  | None => pbf
  end.

Definition write (obj : CrxFileHeader) (pbf : Pbf.Writer) : Pbf.Writer :=
  let pbf := write_proofs 2 (sha256_with_rsa obj) pbf in
  let pbf := write_proofs 3 (sha256_with_ecdsa obj) pbf in
  match signed_header_data obj with
  | Some d => Pbf.writeBytesField 10000 d pbf
  | None => pbf
  end.

End CrxFileHeader.

Module SignedData.

Definition _readField (tag : Z) (obj : SignedData) (pbf : Pbf.Reader)
  : Completion (SignedData * Pbf.Reader) :=
  if tag =? 1 then
    '(b, pbf') <- Pbf.readBytes pbf ;;
    Return ({| crx_id := Some b |}, pbf')
  else Return (obj, pbf).

Definition read (pbf : Pbf.Reader) (end_ : option Z) : Completion (SignedData * Pbf.Reader) :=
  Pbf.readFields _readField {| crx_id := None |} end_ pbf.

Definition write (obj : SignedData) (pbf : Pbf.Writer) : Pbf.Writer :=
  match crx_id obj with
  | Some id => Pbf.writeBytesField 1 id pbf
  | None => pbf
  end.

End SignedData.

End crx3.

(** ** Constants of [index.ts] *)

(** CRX IDs are 16 bytes long. *)
Definition CRX_ID_SIZE : Z := 16.

(** CRX3 uses 32-bit numbers in various places. *)
Definition SIZE_BYTES : Z := 4.

Definition kSignature : Uint8Array := Uint8Array_from_string "Cr24".

Definition kVersion : Uint8Array := [Byte.x03; Byte.x00; Byte.x00; Byte.x00].

(** ["CRX3 SignedData\x00"]: the text and one NUL character. *)
Definition kSignatureContext : Uint8Array :=
  Uint8Array_from_string ("CRX3 SignedData" ++ String "000"%char EmptyString).

Definition invalid_crx : JsError := Error "The file given is not a valid CRX file".

(** ** [unpack] *)

Inductive Unpacked : Type :=
| UnpackedCrx2 (archive key sign : Uint8Array)
| UnpackedCrx3 (archive : Uint8Array) (header : CrxFileHeader).

Definition crxVersion_of (u : Unpacked) : Z :=
  match u with
  | UnpackedCrx2 _ _ _ => 2
  | UnpackedCrx3 _ _ => 3
  end.

Definition archive_of (u : Unpacked) : Uint8Array :=
  match u with
  | UnpackedCrx2 archive _ _ => archive
  | UnpackedCrx3 archive _ => archive
  end.

(** A [Uint8Array] that a caller hands over is a view of an [ArrayBuffer]:
    [crx.buffer] is the whole buffer, of which the array holds the
    [byteLength] bytes that start at [byteOffset] (for a [Uint8Array],
    [length] and [byteLength] are the same number, and
    [byteOffset + byteLength] never exceeds the length of the buffer).
    Indexing and [slice] work on the bytes of the view, [elements];
    [new DataView(crx.buffer)] reads the buffer from its first byte. *)
Definition ArrayBuffer : Type := list byte.

Record ArrayBufferView : Type := {
  buffer : ArrayBuffer;
  byteOffset : Z;
  byteLength : Z
}.

Definition elements (a : ArrayBufferView) : Uint8Array :=
  firstn (Z.to_nat (byteLength a)) (skipn (Z.to_nat (byteOffset a)) (buffer a)).

(** An array that spans its buffer from the first byte to the last. *)
Definition whole (a : Uint8Array) : ArrayBufferView :=
  {| buffer := a; byteOffset := 0; byteLength := len a |}.

(** [a.subarray(begin, end)]: another view of the same buffer; [None] is an
    omitted [end]. *)
Definition subarray (a : ArrayBufferView) (begin : Z) (end_ : option Z) : ArrayBufferView :=
  let n := byteLength a in
  let k := relative_index n begin in
  let final := match end_ with
               | None => n
               | Some e => relative_index n e
               end in
  {| buffer := buffer a; byteOffset := byteOffset a + k; byteLength := Z.max (final - k) 0 |}.

(** The callback [(v, i) => dv.getUint8(i) == v]. *)
Definition magic_callback (dv : Uint8Array) (v : byte) (i : Z) : Completion bool :=
  b <- getUint8 dv i ;; Return (b =? byte.unsigned v).

(** Lines 386-410.  The magic number, the version and the lengths are read
    through [dv], from the first byte of [crx.buffer]; the parts are cut out
    of [crx] itself. *)
Definition unpack (crx : ArrayBufferView) : Completion Unpacked :=
  let abuf := buffer crx in
  let dv := abuf in
  magic <- every (magic_callback dv) kSignature ;;
  if magic : bool then
    crxVersion <- getUint32 dv 4 ;;
    if crxVersion =? 2 then
      keyLength <- getUint32 dv 8 ;;
      signLength <- getUint32 dv 12 ;;
      Return (UnpackedCrx2
                (slice (elements crx) (16 + keyLength + signLength) None)
                (slice (elements crx) 16 (Some (16 + keyLength)))
                (slice (elements crx) (16 + keyLength) (Some (16 + keyLength + signLength))))
    else if crxVersion =? 3 then
      headerLength <- getUint32 dv 8 ;;
      let archive := slice (elements crx) (12 + headerLength) None in
      let header := slice (elements crx) 12 (Some (12 + headerLength)) in
      let pb := Pbf.new_Reader header in
      '(decodedHeader, _) <- crx3.CrxFileHeader.read pb None ;;
      Return (UnpackedCrx3 archive decodedHeader)
    else Throw invalid_crx
  else Throw invalid_crx.

(** ** Strings *)

(** [s.includes(sub)]. *)
Fixpoint includes (s sub : string) : bool :=
  String.prefix sub s ||
  match s with
  | EmptyString => false
  | String _ s' => includes s' sub
  end.

(** [s.endsWith(suffix)]. *)
Definition endsWith (s suffix : string) : bool :=
  let n := String.length s in
  let m := String.length suffix in
  (m <=? n)%nat && String.eqb (String.substring (n - m) m s) suffix.

(** [s.split("")]: the characters of [s], each as a string. *)
Definition split_chars (s : string) : list string :=
  List.map (fun c => String c EmptyString) (list_ascii_of_string s).

(** [l.join("")]. *)
Definition join (l : list string) : string := String.concat EmptyString l.

Definition digit_chars : list ascii := list_ascii_of_string "0123456789abcdefghijklmnopqrstuvwxyz".

(** The character of a digit below 36. *)
Definition digit_char (d : Z) : ascii := nth (Z.to_nat d) digit_chars "0"%char.

(** The value of a character as a digit of the given radix, in either case. *)
Definition digit_value (radix : Z) (c : ascii) : option Z :=
  let n := Z.of_nat (nat_of_ascii c) in
  let v := if (48 <=? n) && (n <=? 57) then n - 48
           else if (97 <=? n) && (n <=? 122) then n - 87
           else if (65 <=? n) && (n <=? 90) then n - 55
           else 36 in
  if v <? radix then Some v else None.

(** [buf.toString("hex")]: two lower-case digits per byte. *)
Definition toString_hex (b : Uint8Array) : string :=
  string_of_list_ascii
    (flat_map (fun x => [digit_char (Z.shiftr (byte.unsigned x) 4);
                         digit_char (Z.land (byte.unsigned x) 0xf)]) b).

(** [parseInt(x, radix)] on a string without blanks, sign or prefix, as the
    one-character strings of [split("")] are: the value of the longest
    prefix of digits, [None] (NaN) when there is no digit. *)
Fixpoint parseInt_digits (radix : Z) (acc : option Z) (x : string) : option Z :=
  match x with
  | EmptyString => acc
  | String c x' =>
      match digit_value radix c with
      | Some v => parseInt_digits radix (Some (match acc with
                                                | Some a => a * radix + v
                                                | None => v
                                                end)) x'
      | None => acc
      end
  end.

Definition parseInt (x : string) (radix : Z) : option Z := parseInt_digits radix None x.

(** The digits of a non-negative integer, most significant first. *)
Fixpoint digits_of (fuel : nat) (radix n : Z) (acc : string) : string :=
  match fuel with
  | O => acc
  | S fuel' =>
      let acc' := String (digit_char (n mod radix)) acc in
      if n <? radix then acc' else digits_of fuel' radix (n / radix) acc'
  end.

(** [n.toString(radix)] of an integer, or of NaN ([None]). *)
Definition Number_toString (n : option Z) (radix : Z) : string :=
  match n with
  | None => "NaN"
  | Some n =>
      if n <? 0 then String "-"%char (digits_of (S (Z.to_nat (Z.log2 (- n)))) radix (- n) EmptyString)
      else digits_of (S (Z.to_nat (Z.log2 n))) radix n EmptyString
  end.

(** ** Keys and signatures *)

Inductive KeyFormat : Type :=
| pkcs8_private_der
| pkcs8_public_der
| pkcs8_private_pem
| pkcs8_public_pem.

Inductive SigningScheme : Type :=
| pkcs1_sha1
| pkcs1_sha256.

(** ** The data of [pack] and [generateUpdateXML] *)

(** The configuration errors of [pack]. *)
Definition crxUrl_required : JsError := Error "crxUrl must be defined to generate updateXML".

Definition contents_required : JsError := Error "contents must be defined to generate crx".

Definition manifest_required : JsError :=
  Error "manifest must be defined to generate extVersion".


(** A field of [PackInput] of type [A | null]: absent, requested with [null],
    or given. *)
Inductive Requestable (A : Type) : Type :=
| Undefined
| Null
| Given (a : A).
Arguments Undefined {A}.
Arguments Null {A}.
Arguments Given {A} a.

(** A string inside a template literal. *)
Definition template (x : Requestable string) : string :=
  match x with
  | Undefined => "undefined"
  | Null => "null"
  | Given s => s
  end.

(** Truthiness of an optional string: the empty string is falsy. *)
Definition truthy (x : Requestable string) : bool :=
  match x with
  | Given s => negb (String.eqb s EmptyString)
  | _ => false
  end.

Definition newline : string := String "010"%char EmptyString.

Definition generateUpdateXML (crxId url version minChromeVersion : Requestable string) : string :=
  "<?xml version='1.0' encoding='UTF-8'?>" ++ newline ++
  "<gupdate xmlns='http://www.google.com/update2/response' protocol='2.0'>" ++ newline ++
  "  <app appid='" ++ template crxId ++ "'>" ++ newline ++
  "    <updatecheck codebase='" ++ template url ++ "' version='" ++ template version ++ "'" ++
  (if truthy minChromeVersion
   then " prodversionmin='" ++ template minChromeVersion ++ "'"
   else "") ++ " />" ++ newline ++
  "  </app>" ++ newline ++
  "</gupdate>".

(** [Uint8Array | string]. *)
Inductive BytesOrPath : Type :=
| Bytes (b : Uint8Array)
| Path (p : string).

(** The fields of the manifest that [pack] reads. *)
Record ChromeManifest : Type := {
  manifest_version : Z;
  name : string;
  version : string;
  minimum_chrome_version : option string
}.

(** What [pack] asks of its collaborators, in order. *)
Inductive Event : Type :=
| ReadFile (path : string)
| GenerateKey (bits : Z)
| PackContents (path : string).

(** ** Stand-ins for the primitives

    Functions with the types of the primitives and none of their
    cryptography, to run the model on examples. *)

Module Toy.

(** A digest of 32 bytes: the message, padded or cut. *)
Definition sha256 (m : Uint8Array) : Uint8Array := firstn 32 (m ++ repeat Byte.x00 32).

(** A key object is the bytes it was made from. *)
Definition RSA : Type := Uint8Array.

Definition RSA_import (data : Uint8Array) (format : KeyFormat) : Completion RSA := Return data.

(** A signature of four bytes. *)
Definition RSA_sign (key : RSA) (scheme : SigningScheme) (m : Uint8Array)
  : Completion Uint8Array :=
  Return (firstn 4 (m ++ repeat Byte.x00 4)).

Definition RSA_exportKey (key : RSA) (format : KeyFormat) : Completion Uint8Array :=
  Return key.

Definition RSA_generate (bits : Z) : RSA := [Byte.x01].

(** A file system without files. *)
Definition readFile (path : string) : Completion Uint8Array :=
  Throw (Error "ENOENT: no such file or directory").

(** Every directory holds the same small extension. *)
Definition directory_manifest : ChromeManifest :=
  {| manifest_version := 3; name := "packed"; version := "2.0";
     minimum_chrome_version := None |}.

Definition packContents (where_ : string) : Completion (Uint8Array * ChromeManifest) :=
  Return ([Byte.x50; Byte.x4b], directory_manifest).

(** Two manifests that a caller gives: one declares a minimum Chrome
    version, the other declares the empty string. *)
Definition given_manifest : ChromeManifest :=
  {| manifest_version := 3; name := "given"; version := "1.0";
     minimum_chrome_version := Some "90.0"%string |}.

Definition empty_minimum_manifest : ChromeManifest :=
  {| manifest_version := 3; name := "given"; version := "1.0";
     minimum_chrome_version := Some EmptyString |}.

End Toy.

(** A file system with one key file, in binary form at [key.der] and as text
    at [key.pem], and stand-ins that tell a key from its text: the text is
    the binary form after the byte [0x2d]. *)
Module Disk.

Definition key_file : Uint8Array := [Byte.x30; Byte.x82].

Definition readFile (path : string) : Completion Uint8Array :=
  if String.eqb path "key.der" then Return key_file
  else if String.eqb path "key.pem" then Return (Byte.x2d :: key_file)
  else Throw (Error "ENOENT: no such file or directory").

Definition RSA_import (data : Uint8Array) (format : KeyFormat) : Completion Toy.RSA :=
  match format with
  | pkcs8_private_pem | pkcs8_public_pem => Return (tl data)
  | _ => Return data
  end.

End Disk.

(** ** The codec and [pack], over the primitives *)

Section PackCrx.

(** [createHash("sha256").update(m).digest()]. *)
Variable sha256 : Uint8Array -> Uint8Array.
Hypothesis sha256_length : forall m, List.length (sha256 m) = 32%nat.

(** A [node-rsa] key object: [new RSA(data, format)] throws on data it cannot
    import; [rsa.sign] and [rsa.exportKey] throw on a key without the part
    they need.  [rsa.setOptions({signingScheme})] followed by [rsa.sign(m)]
    is [RSA_sign rsa scheme m]. *)
Variable RSA : Type.
Variable RSA_import : Uint8Array -> KeyFormat -> Completion RSA.
Variable RSA_sign : RSA -> SigningScheme -> Uint8Array -> Completion Uint8Array.
Variable RSA_exportKey : RSA -> KeyFormat -> Completion Uint8Array.

(** [new RSA({b: bits})]: a fresh key pair. *)
Variable RSA_generate : Z -> RSA.

(** [rsa ??= new RSA(Buffer.from(privateKey), "pkcs8-private-der")]. *)
Definition rsa_or_import (rsa : option RSA) (privateKey : Uint8Array) : Completion RSA :=
  match rsa with
  | Some r => Return r
  | None => RSA_import privateKey pkcs8_private_der
  end.

Definition packCrx2 (privateKey publicKey contents : Uint8Array) (rsa : option RSA)
  : Completion Uint8Array :=
  rsa <- rsa_or_import rsa privateKey ;;
  signature <- RSA_sign rsa pkcs1_sha1 contents ;;
  let length := 16 + len publicKey + len signature in
  let result := new_Uint8Array length in
  result <- set result kSignature 0 ;;
  result <- setUint32 result 4 2 ;;
  result <- setUint32 result 8 (len publicKey) ;;
  result <- setUint32 result 12 (len signature) ;;
  result <- set result publicKey 16 ;;
  result <- set result signature (16 + len publicKey) ;;
  result <- set result contents length ;;
  Return result.

Definition generateBinaryCrxId (publicKey : Uint8Array) : Uint8Array :=
  slice (sha256 publicKey) 0 (Some CRX_ID_SIZE).

(** The bytes that [generateCrx3Signature] hands to [rsa.sign]. *)
Definition toSign (signedHeaderData contents : Uint8Array) : Completion Uint8Array :=
  sizeOctets <- setUint32 (new_Uint8Array SIZE_BYTES) 0 (len signedHeaderData) ;;
  Return (Buffer_concat [kSignatureContext; sizeOctets; signedHeaderData; contents]).

Definition generateCrx3Signature (privateKey signedHeaderData contents : Uint8Array)
  (rsa : option RSA) : Completion Uint8Array :=
  rsa <- rsa_or_import rsa privateKey ;;
  toSign <- toSign signedHeaderData contents ;;
  RSA_sign rsa pkcs1_sha256 toSign.

Definition packCrx3 (privateKey publicKey contents : Uint8Array) (rsa : option RSA)
  : Completion Uint8Array :=
  let pb := crx3.SignedData.write {| crx_id := Some (generateBinaryCrxId publicKey) |}
              Pbf.new_Writer in
  let signedHeaderData := Pbf.finish pb in
  signature <- generateCrx3Signature privateKey signedHeaderData contents rsa ;;
  let pb := crx3.CrxFileHeader.write
              {| sha256_with_rsa := Some [ {| public_key := Some publicKey;
                                              signature := Some signature |} ];
                 sha256_with_ecdsa := None;
                 signed_header_data := Some signedHeaderData |}
              Pbf.new_Writer in
  let header := Pbf.finish pb in
  let size := len kSignature + len kVersion + SIZE_BYTES + len header + len contents in
  let result := new_Uint8Array size in
  let index := 0 in
  result <- set result kSignature index ;;
  let index := index + len kSignature in
  result <- set result kVersion index ;;
  let index := index + len kVersion in
  result <- setUint32 result index (len header) ;;
  let index := index + SIZE_BYTES in
  result <- set result header index ;;
  let index := index + len header in
  result <- set result contents index ;;
  Return result.

Definition generateCrxId (publicKey : Uint8Array) : string :=
  String.substring 0 32
    (join (List.map (fun x => Number_toString (option_map (fun n => n + 0x0a) (parseInt x 16)) 26)
             (split_chars (toString_hex (sha256 publicKey))))).


(** ** [pack] *)

Record PackInput : Type := {
  contents : option BytesOrPath;
  privateKey : Requestable BytesOrPath;
  keySize : option Z;
  publicKey : Requestable BytesOrPath;
  rsa : option RSA;
  id : Requestable string;
  crx : Requestable Uint8Array;
  crxVersion : option Z;
  crxUrl : option string;
  updateXML : Requestable string;
  extVersion : Requestable string;
  minChromeVersion : Requestable string;
  manifest : Requestable ChromeManifest
}.

(** The [options] object, which [pack] mutates in place, and the calls made
    so far. *)
Record State : Type := { options : PackInput; trace : list Event }.

(** How a run ends: [pack] returns [options], or throws and leaves [options]
    as mutated up to there. *)
Inductive Outcome : Type :=
| Resolved (s : State)
| Rejected (e : JsError) (s : State).

Definition and_then (o : Outcome) (k : State -> Outcome) : Outcome :=
  match o with
  | Resolved s => k s
  | Rejected e s => Rejected e s
  end.

(** A call that can throw, with the state at the call. *)
Definition call {A : Type} (c : Completion A) (s : State) (k : A -> Outcome) : Outcome :=
  match c with
  | Return a => k a
  | Throw e => Rejected e s
  end.

Definition log (ev : Event) (s : State) : State :=
  {| options := options s; trace := trace s ++ [ev] |}.

Definition assign (f : PackInput -> PackInput) (s : State) : State :=
  {| options := f (options s); trace := trace s |}.

Definition set_contents (v : option BytesOrPath) (o : PackInput) : PackInput :=
  {| contents := v; privateKey := privateKey o; keySize := keySize o;
     publicKey := publicKey o; rsa := rsa o; id := id o; crx := crx o;
     crxVersion := crxVersion o; crxUrl := crxUrl o; updateXML := updateXML o;
     extVersion := extVersion o; minChromeVersion := minChromeVersion o;
     manifest := manifest o |}.

Definition set_privateKey (v : Requestable BytesOrPath) (o : PackInput) : PackInput :=
  {| contents := contents o; privateKey := v; keySize := keySize o;
     publicKey := publicKey o; rsa := rsa o; id := id o; crx := crx o;
     crxVersion := crxVersion o; crxUrl := crxUrl o; updateXML := updateXML o;
     extVersion := extVersion o; minChromeVersion := minChromeVersion o;
     manifest := manifest o |}.

Definition set_publicKey (v : Requestable BytesOrPath) (o : PackInput) : PackInput :=
  {| contents := contents o; privateKey := privateKey o; keySize := keySize o;
     publicKey := v; rsa := rsa o; id := id o; crx := crx o;
     crxVersion := crxVersion o; crxUrl := crxUrl o; updateXML := updateXML o;
     extVersion := extVersion o; minChromeVersion := minChromeVersion o;
     manifest := manifest o |}.

Definition set_rsa (v : option RSA) (o : PackInput) : PackInput :=
  {| contents := contents o; privateKey := privateKey o; keySize := keySize o;
     publicKey := publicKey o; rsa := v; id := id o; crx := crx o;
     crxVersion := crxVersion o; crxUrl := crxUrl o; updateXML := updateXML o;
     extVersion := extVersion o; minChromeVersion := minChromeVersion o;
     manifest := manifest o |}.

Definition set_id (v : Requestable string) (o : PackInput) : PackInput :=
  {| contents := contents o; privateKey := privateKey o; keySize := keySize o;
     publicKey := publicKey o; rsa := rsa o; id := v; crx := crx o;
     crxVersion := crxVersion o; crxUrl := crxUrl o; updateXML := updateXML o;
     extVersion := extVersion o; minChromeVersion := minChromeVersion o;
     manifest := manifest o |}.

Definition set_crx (v : Requestable Uint8Array) (o : PackInput) : PackInput :=
  {| contents := contents o; privateKey := privateKey o; keySize := keySize o;
     publicKey := publicKey o; rsa := rsa o; id := id o; crx := v;
     crxVersion := crxVersion o; crxUrl := crxUrl o; updateXML := updateXML o;
     extVersion := extVersion o; minChromeVersion := minChromeVersion o;
     manifest := manifest o |}.

Definition set_updateXML (v : Requestable string) (o : PackInput) : PackInput :=
  {| contents := contents o; privateKey := privateKey o; keySize := keySize o;
     publicKey := publicKey o; rsa := rsa o; id := id o; crx := crx o;
     crxVersion := crxVersion o; crxUrl := crxUrl o; updateXML := v;
     extVersion := extVersion o; minChromeVersion := minChromeVersion o;
     manifest := manifest o |}.

Definition set_extVersion (v : Requestable string) (o : PackInput) : PackInput :=
  {| contents := contents o; privateKey := privateKey o; keySize := keySize o;
     publicKey := publicKey o; rsa := rsa o; id := id o; crx := crx o;
     crxVersion := crxVersion o; crxUrl := crxUrl o; updateXML := updateXML o;
     extVersion := v; minChromeVersion := minChromeVersion o;
     manifest := manifest o |}.

Definition set_minChromeVersion (v : Requestable string) (o : PackInput) : PackInput :=
  {| contents := contents o; privateKey := privateKey o; keySize := keySize o;
     publicKey := publicKey o; rsa := rsa o; id := id o; crx := crx o;
     crxVersion := crxVersion o; crxUrl := crxUrl o; updateXML := updateXML o;
     extVersion := extVersion o; minChromeVersion := v;
     manifest := manifest o |}.

Definition set_manifest (v : Requestable ChromeManifest) (o : PackInput) : PackInput :=
  {| contents := contents o; privateKey := privateKey o; keySize := keySize o;
     publicKey := publicKey o; rsa := rsa o; id := id o; crx := crx o;
     crxVersion := crxVersion o; crxUrl := crxUrl o; updateXML := updateXML o;
     extVersion := extVersion o; minChromeVersion := minChromeVersion o;
     manifest := v |}.

(** [fs.readFile(path)] and [packContents(where)], which walks a directory
    and zips it: the file system is outside the model. *)
Variable readFile : string -> Completion Uint8Array.
Variable packContents : string -> Completion (Uint8Array * ChromeManifest).

(** [if (x === undefined) x = null]. *)
Definition promote {A : Type} (x : Requestable A) : Requestable A :=
  match x with
  | Undefined => Null
  | _ => x
  end.

(** The non-null assertion [options.key!] where bytes are expected.  The
    steps before it leave bytes there; any other value would fail inside the
    callee. *)
Definition asserted_bytes (x : Requestable BytesOrPath) : Completion Uint8Array :=
  match x with
  | Given (Bytes b) => Return b
  | _ => Throw (TypeError "not a Uint8Array")
  end.

Definition asserted_contents (x : option BytesOrPath) : Completion Uint8Array :=
  match x with
  | Some (Bytes b) => Return b
  | _ => Throw (TypeError "not a Uint8Array")
  end.

(** The [catch] of both key loaders: a missing file makes the key absent,
    any other error is thrown again. *)
Definition catch_not_found (attempt : Outcome) (absent : PackInput -> PackInput) : Outcome :=
  match attempt with
  | Resolved s => Resolved s
  | Rejected e s =>
      if includes (JsError_toString e) "ENOENT"
      then Resolved (assign absent s)
      else Rejected e s
  end.

(** Lines 490-500: a private key given as a path is read from the file. *)
Definition load_privateKey (s : State) : Outcome :=
  match privateKey (options s) with
  | Given (Path path) =>
      let isPem := endsWith path ".pem" in
      let s := log (ReadFile path) s in
      catch_not_found
        (call (readFile path) s (fun contents =>
           if isPem then
             call (match rsa (options s) with
                   | Some r => Return r
                   | None => RSA_import contents pkcs8_private_pem
                   end) s (fun r =>
               let s := assign (set_rsa (Some r)) s in
               call (RSA_exportKey r pkcs8_private_der) s (fun der =>
                 Resolved (assign (set_privateKey (Given (Bytes der))) s)))
           else Resolved (assign (set_privateKey (Given (Bytes contents))) s)))
        (set_privateKey Undefined)
  | _ => Resolved s
  end.

(** Lines 501-511: likewise for the public key. *)
Definition load_publicKey (s : State) : Outcome :=
  match publicKey (options s) with
  | Given (Path path) =>
      let isPem := endsWith path ".pem" in
      let s := log (ReadFile path) s in
      catch_not_found
        (call (readFile path) s (fun contents =>
           if isPem then
             call (RSA_import contents pkcs8_public_pem) s (fun r =>
               call (RSA_exportKey r pkcs8_public_der) s (fun der =>
                 Resolved (assign (set_publicKey (Given (Bytes der))) s)))
           else Resolved (assign (set_publicKey (Given (Bytes contents))) s)))
        (set_publicKey Undefined)
  | _ => Resolved s
  end.

(** Lines 512-517. *)
Definition cascade_updateXML (s : State) : Outcome :=
  match updateXML (options s) with
  | Null =>
      match crxUrl (options s) with
      | None => Rejected crxUrl_required s
      | Some _ =>
          let s := assign (fun o => set_id (promote (id o)) o) s in
          let s := assign (fun o => set_extVersion (promote (extVersion o)) o) s in
          Resolved (assign (fun o => set_minChromeVersion (promote (minChromeVersion o)) o) s)
      end
  | _ => Resolved s
  end.

(** Lines 518-520. *)
Definition cascade_extVersion (s : State) : Outcome :=
  match extVersion (options s) with
  | Null => Resolved (assign (fun o => set_manifest (promote (manifest o)) o) s)
  | _ => Resolved s
  end.

(** Lines 521-523. *)
Definition cascade_minChromeVersion (s : State) : Outcome :=
  match minChromeVersion (options s) with
  | Null => Resolved (assign (fun o => set_manifest (promote (manifest o)) o) s)
  | _ => Resolved s
  end.

(** Lines 524-528. *)
Definition cascade_crx (s : State) : Outcome :=
  match crx (options s) with
  | Null =>
      match contents (options s) with
      | None => Rejected contents_required s
      | Some _ =>
          let s := assign (fun o => set_privateKey (promote (privateKey o)) o) s in
          Resolved (assign (fun o => set_publicKey (promote (publicKey o)) o) s)
      end
  | _ => Resolved s
  end.

(** Lines 529-531. *)
Definition cascade_id (s : State) : Outcome :=
  match id (options s) with
  | Null => Resolved (assign (fun o => set_publicKey (promote (publicKey o)) o) s)
  | _ => Resolved s
  end.

(** Lines 532-534. *)
Definition cascade_publicKey (s : State) : Outcome :=
  match publicKey (options s) with
  | Null => Resolved (assign (fun o => set_privateKey (promote (privateKey o)) o) s)
  | _ => Resolved s
  end.

(** [options.keySize || 4096]. *)
Definition key_bits (keySize : option Z) : Z :=
  match keySize with
  | Some b => if b =? 0 then 4096 else b
  | None => 4096
  end.

(** Lines 536-540: a requested private key is generated, and the public key
    with it. *)
Definition resolve_privateKey (s : State) : Outcome :=
  match privateKey (options s) with
  | Null =>
      let bits := key_bits (keySize (options s)) in
      let r := RSA_generate bits in
      let s := log (GenerateKey bits) s in
      let s := assign (set_rsa (Some r)) s in
      call (RSA_exportKey r pkcs8_private_der) s (fun priv =>
        let s := assign (set_privateKey (Given (Bytes priv))) s in
        call (RSA_exportKey r pkcs8_public_der) s (fun pub =>
          Resolved (assign (set_publicKey (Given (Bytes pub))) s)))
  | _ => Resolved s
  end.

(** Lines 541-543: a requested public key is exported from the private key. *)
Definition resolve_publicKey (s : State) : Outcome :=
  match publicKey (options s) with
  | Null =>
      call (match rsa (options s) with
            | Some r => Return r
            | None => priv <- asserted_bytes (privateKey (options s)) ;;
                      RSA_import priv pkcs8_private_der
            end) s (fun r =>
        let s := assign (set_rsa (Some r)) s in
        call (RSA_exportKey r pkcs8_public_der) s (fun pub =>
          Resolved (assign (set_publicKey (Given (Bytes pub))) s)))
  | _ => Resolved s
  end.

(** Lines 544-546: contents given as a path are packed; the destructuring
    assignment writes [contents] and [manifest]. *)
Definition resolve_contents (s : State) : Outcome :=
  match contents (options s) with
  | Some (Path where_) =>
      let s := log (PackContents where_) s in
      call (packContents where_) s (fun packed =>
        let s := assign (set_contents (Some (Bytes (fst packed)))) s in
        Resolved (assign (set_manifest (Given (snd packed))) s))
  | _ => Resolved s
  end.

(** [options.crxVersion == 3 || options.crxVersion == undefined]. *)
Definition is_crx3 (crxVersion : option Z) : bool :=
  match crxVersion with
  | Some v => v =? 3
  | None => true
  end.

(** [options.crxVersion == 2]. *)
Definition is_crx2 (crxVersion : option Z) : bool :=
  match crxVersion with
  | Some v => v =? 2
  | None => false
  end.

(** Lines 547-550. *)
Definition resolve_crx (s : State) : Outcome :=
  match crx (options s) with
  | Null =>
      let o := options s in
      if is_crx3 (crxVersion o) then
        call (priv <- asserted_bytes (privateKey o) ;;
              pub <- asserted_bytes (publicKey o) ;;
              c <- asserted_contents (contents o) ;;
              packCrx3 priv pub c (rsa o)) s (fun packed =>
          Resolved (assign (set_crx (Given packed)) s))
      else if is_crx2 (crxVersion o) then
        call (priv <- asserted_bytes (privateKey o) ;;
              pub <- asserted_bytes (publicKey o) ;;
              c <- asserted_contents (contents o) ;;
              packCrx2 priv pub c (rsa o)) s (fun packed =>
          Resolved (assign (set_crx (Given packed)) s))
      else Resolved s
  | _ => Resolved s
  end.

(** Lines 551-553. *)
Definition resolve_id (s : State) : Outcome :=
  match id (options s) with
  | Null =>
      call (asserted_bytes (publicKey (options s))) s (fun pub =>
        Resolved (assign (set_id (Given (generateCrxId pub))) s))
  | _ => Resolved s
  end.

(** Lines 554-557. *)
Definition resolve_extVersion (s : State) : Outcome :=
  match extVersion (options s) with
  | Null =>
      match manifest (options s) with
      | Given m => Resolved (assign (set_extVersion (Given (version m))) s)
      | _ => Rejected manifest_required s
      end
  | _ => Resolved s
  end.

(** [options.manifest?.minimum_chrome_version]. *)
Definition manifest_minimum_chrome_version (m : Requestable ChromeManifest) : option string :=
  match m with
  | Given m => minimum_chrome_version m
  | _ => None
  end.

(** The right-hand side of line 559: [a || b] takes [b] when [a] is
    [undefined] or the empty string. *)
Definition minChromeVersion_or_default (o : PackInput) : Requestable string :=
  let fallback := if is_crx3 (crxVersion o) then Given "73.0.3683"%string else Undefined in
  match manifest_minimum_chrome_version (manifest o) with
  | Some v => if String.eqb v EmptyString then fallback else Given v
  | None => fallback
  end.

(** Lines 558-560. *)
Definition resolve_minChromeVersion (s : State) : Outcome :=
  match minChromeVersion (options s) with
  | Null => Resolved (assign (fun o => set_minChromeVersion (minChromeVersion_or_default o) o) s)
  | _ => Resolved s
  end.

Definition optional (x : option string) : Requestable string :=
  match x with
  | Some v => Given v
  | None => Undefined
  end.

(** Lines 561-563. *)
Definition resolve_updateXML (s : State) : Outcome :=
  match updateXML (options s) with
  | Null =>
      Resolved (assign (fun o => set_updateXML
        (Given (generateUpdateXML (id o) (optional (crxUrl o)) (extVersion o)
                  (minChromeVersion o))) o) s)
  | _ => Resolved s
  end.

(** The steps of [pack], in the order of the source. *)
Definition pack_steps : list (State -> Outcome) :=
  [ load_privateKey; load_publicKey;
    cascade_updateXML; cascade_extVersion; cascade_minChromeVersion;
    cascade_crx; cascade_id; cascade_publicKey;
    resolve_privateKey; resolve_publicKey; resolve_contents; resolve_crx;
    resolve_id; resolve_extVersion; resolve_minChromeVersion; resolve_updateXML ].

Definition run (steps : list (State -> Outcome)) (s : State) : Outcome :=
  fold_left and_then steps (Resolved s).

Definition pack (o : PackInput) : Outcome :=
  run pack_steps {| options := o; trace := [] |}.


(** ** Vocabulary of the statements *)

(** The buffer begins with the magic number and a version field of 2 or 3. *)
Definition well_framed (crx : Uint8Array) : Prop :=
  exists version rest,
    crx = kSignature ++ le_split 4 version ++ rest /\ (version = 2 \/ version = 3).

(** The buffer ends before its magic number and version field do: it has
    fewer than eight bytes and agrees with the magic number as far as both
    go. *)
Definition truncated (crx : Uint8Array) : Prop :=
  len crx < 8 /\ firstn 4 crx = firstn (List.length crx) kSignature.

(** The reader stands in front of the bytes [l]: they are what its buffer
    holds from its position on. *)
Definition sees (p : Pbf.Reader) (l : list byte) : Prop :=
  exists pre, Pbf.buf p = pre ++ l /\ Pbf.pos p = len pre.

(** The reader moved forward by [n] bytes. *)
Definition advance (p : Pbf.Reader) (n : Z) : Pbf.Reader :=
  {| Pbf.buf := Pbf.buf p; Pbf.pos := Pbf.pos p + n |}.

(** The hexadecimal digits of a byte string, two per byte, high digit
    first. *)
Definition nibbles (d : Uint8Array) : list Z :=
  flat_map (fun x => [byte.unsigned x / 16; byte.unsigned x mod 16]) d.

(** The letter for a hexadecimal digit: ['a' + v]. *)
Definition nibble_char (v : Z) : ascii := ascii_of_nat (97 + Z.to_nat v).

(** The state a run ends in, returned or thrown. *)
Definition final (o : Outcome) : State :=
  match o with
  | Resolved s => s
  | Rejected _ s => s
  end.

(** A property of the state that a step keeps, however the step ends. *)
Definition keeps (P : State -> Prop) (step : State -> Outcome) : Prop :=
  forall s, P s -> P (final (step s)).

(** A request with every field absent. *)
Definition no_options : PackInput :=
  {| contents := None; privateKey := Undefined; keySize := None; publicKey := Undefined;
     rsa := None; id := Undefined; crx := Undefined; crxVersion := None; crxUrl := None;
     updateXML := Undefined; extVersion := Undefined; minChromeVersion := Undefined;
     manifest := Undefined |}.

(** The steps that ask for prerequisites, and the steps that compute. *)
Definition cascade_steps : list (State -> Outcome) :=
  [ load_privateKey; load_publicKey;
    cascade_updateXML; cascade_extVersion; cascade_minChromeVersion;
    cascade_crx ].

Definition is_GenerateKey (ev : Event) : bool :=
  match ev with
  | GenerateKey _ => true
  | _ => false
  end.

(** [crxVersion] is never assigned by [pack]; a caller sets it. *)
Definition set_crxVersion (v : option Z) (o : PackInput) : PackInput :=
  {| contents := contents o; privateKey := privateKey o; keySize := keySize o;
     publicKey := publicKey o; rsa := rsa o; id := id o; crx := crx o;
     crxVersion := v; crxUrl := crxUrl o; updateXML := updateXML o;
     extVersion := extVersion o; minChromeVersion := minChromeVersion o;
     manifest := manifest o |}.

(** No key pair was generated so far. *)
Definition no_key_generated (s : State) : Prop :=
  forallb (fun ev => negb (is_GenerateKey ev)) (trace s) = true.

(** The two steps that read key files. *)
Definition load_steps : list (State -> Outcome) := [ load_privateKey; load_publicKey ].

(** The bytes of a proof with both fields, of the signed header data of an
    identifier, and of a header with one RSA proof. *)
Definition proof_bytes (publicKey sg : Uint8Array) : list byte :=
  [Byte.x0a] ++ Pbf.varint_bytes 10 (len publicKey) ++ publicKey
  ++ [Byte.x12] ++ Pbf.varint_bytes 10 (len sg) ++ sg.

Definition signed_data_bytes (crxId : Uint8Array) : list byte :=
  [Byte.x0a] ++ Pbf.varint_bytes 10 (len crxId) ++ crxId.

Definition header_bytes (publicKey sg signedHeaderData : Uint8Array) : list byte :=
  [Byte.x12] ++ Pbf.varint_bytes 10 (len (proof_bytes publicKey sg))
  ++ proof_bytes publicKey sg
  ++ [Byte.x82; Byte.xf1; Byte.x04] ++ Pbf.varint_bytes 10 (len signedHeaderData)
  ++ signedHeaderData.

(** A key field that is not a path. *)
Definition not_path (x : Requestable BytesOrPath) : Prop := forall p, x <> Given (Path p).

(** From a state that satisfies [P], a step that returns leaves a state that
    satisfies [Q]. *)
Definition leads (P : State -> Prop) (step : State -> Outcome) (Q : State -> Prop) : Prop :=
  forall s s', P s -> step s = Resolved s' -> Q s'.

(** After the loaders: no key is a path any more. *)
Definition keys_loaded (s : State) : Prop :=
  not_path (privateKey (options s)) /\ not_path (publicKey (options s)).

(** After the steps that ask for prerequisites: what a requested field needs
    is given or requested. *)
Definition prerequisites_asked (s : State) : Prop :=
  keys_loaded s /\
  (crx (options s) = Null ->
   contents (options s) <> None /\ privateKey (options s) <> Undefined
   /\ publicKey (options s) <> Undefined) /\
  (id (options s) = Null -> publicKey (options s) <> Undefined) /\
  (publicKey (options s) = Null -> privateKey (options s) <> Undefined).

(** The field holds bytes. *)
Definition is_bytes (x : Requestable BytesOrPath) : Prop := exists b, x = Given (Bytes b).

(** Before the container is packed: the keys and the contents that a
    requested container or identifier needs are bytes. *)
Definition prerequisites_resolved (s : State) : Prop :=
  (crx (options s) = Null ->
   is_bytes (privateKey (options s)) /\ is_bytes (publicKey (options s))
   /\ exists c, contents (options s) = Some (Bytes c)) /\
  (id (options s) = Null -> is_bytes (publicKey (options s))).

(** A field reader that only moves forward in the same buffer. *)
Definition forward {A : Type} (readField : Z -> A -> Pbf.Reader -> Completion (A * Pbf.Reader))
  : Prop :=
  forall tag result p result' p',
    0 <= Pbf.pos p -> readField tag result p = Return (result', p') ->
    Pbf.buf p' = Pbf.buf p /\ Pbf.pos p <= Pbf.pos p'.

(** The number of bytes between the position and the end of the buffer. *)
Definition unread (p : Pbf.Reader) : nat :=
  (List.length (Pbf.buf p) - Z.to_nat (Pbf.pos p))%nat.

(** The proofs of a header field; a missing array holds none. *)
Definition present (l : option (list AsymmetricKeyProof)) : list AsymmetricKeyProof :=
  match l with
  | Some l => l
  | None => []
  end.

(** A header as [CrxFileHeader.read] builds it: both arrays are there. *)
Definition as_read (obj : CrxFileHeader) : CrxFileHeader :=
  {| sha256_with_rsa := Some (present (sha256_with_rsa obj));
     sha256_with_ecdsa := Some (present (sha256_with_ecdsa obj));
     signed_header_data := signed_header_data obj |}.

(** On the wire: the key of a field of wire type bytes, the field, a field
    that is written when its value is there, the fields of a proof, of an
    array of proofs and of a header. *)
Definition field_key (tag : Z) : list byte :=
  Pbf.varint_bytes 10 (Z.lor (Z.shiftl tag 3) Pbf.PBF_BYTES).

Definition bytes_field (tag : Z) (x : Uint8Array) : list byte :=
  field_key tag ++ Pbf.varint_bytes 10 (len x) ++ x.

Definition optional_field (tag : Z) (x : option Uint8Array) : list byte :=
  match x with
  | Some x => bytes_field tag x
  | None => []
  end.

Definition proof_wire (obj : AsymmetricKeyProof) : list byte :=
  optional_field 1 (public_key obj) ++ optional_field 2 (signature obj).

Definition proofs_wire (tag : Z) (l : list AsymmetricKeyProof) : list byte :=
  flat_map (fun proof => bytes_field tag (proof_wire proof)) l.

Definition header_wire (obj : CrxFileHeader) : list byte :=
  proofs_wire 2 (present (sha256_with_rsa obj))
  ++ proofs_wire 3 (present (sha256_with_ecdsa obj))
  ++ optional_field 10000 (signed_header_data obj).

(** [generatePublicKey(privateKey)], lines 374-376. *)
Definition generatePublicKey (privateKey : Uint8Array) : Completion Uint8Array :=
  r <- RSA_import privateKey pkcs8_private_der ;;
  RSA_exportKey r pkcs8_public_der.

(** The initial state of [pack]. *)
Definition start (o : PackInput) : State := {| options := o; trace := [] |}.

(** The contents are not a path. *)
Definition not_directory (x : option BytesOrPath) : Prop := forall p, x <> Some (Path p).

(** Nothing is left for [pack] to do: no field is a path, and no field is
    requested, except a manifest, which only a directory resolves, and a
    container of a version that [pack] does not know, the contents and the
    keys of which are there. *)
Definition settled (o : PackInput) : Prop :=
  not_path (privateKey o) /\ not_path (publicKey o) /\ not_directory (contents o) /\
  privateKey o <> Null /\ publicKey o <> Null /\ id o <> Null /\
  extVersion o <> Null /\ minChromeVersion o <> Null /\ updateXML o <> Null /\
  (crx o = Null ->
   is_crx3 (crxVersion o) = false /\ is_crx2 (crxVersion o) = false /\
   contents o <> None /\ privateKey o <> Undefined /\ publicKey o <> Undefined).

(** The same outcome after earlier calls [evs]. *)
Definition after_calls (evs : list Event) (out : Outcome) : Outcome :=
  match out with
  | Resolved s => Resolved {| options := options s; trace := evs ++ trace s |}
  | Rejected e s => Rejected e {| options := options s; trace := evs ++ trace s |}
  end.

Definition is_ReadFile (ev : Event) : bool :=
  match ev with
  | ReadFile _ => true
  | _ => false
  end.

Definition is_PackContents (ev : Event) : bool :=
  match ev with
  | PackContents _ => true
  | _ => false
  end.

(** * Properties *)

(** ** Lists, typed arrays and data views *)

(** Decides the integer comparisons of a decide_guards once [lia] knows the facts. *)
Ltac decide_guards :=
  repeat match goal with
         | |- context [?a >? ?b] => rewrite (Z.gtb_ltb a b)
         | |- context [?a <? ?b] => destruct (Z.ltb_spec a b); try lia
         | |- context [?a <=? ?b] => destruct (Z.leb_spec a b); try lia
         | |- context [?a =? ?b] => destruct (Z.eqb_spec a b); try lia
         end; cbn [orb andb negb].

Lemma len_nonneg (a : Uint8Array) : 0 <= len a.
Proof. unfold len. lia. Qed.

Lemma len_app (a b : Uint8Array) : len (a ++ b) = len a + len b.
Proof. unfold len. rewrite List.length_app. lia. Qed.

Lemma len_repeat (b : byte) (n : nat) : len (repeat b n) = Z.of_nat n.
Proof. unfold len. rewrite List.repeat_length. reflexivity. Qed.

Lemma len_le_split (n : nat) (z : Z) : len (le_split n z) = Z.of_nat n.
Proof. unfold len. rewrite length_le_split. reflexivity. Qed.

Lemma len_skipn_eq (n : nat) (l chunk rest : list byte) :
  skipn n l = chunk ++ rest ->
  len l = Z.of_nat n + len chunk + len rest \/ (chunk = [] /\ rest = []).
Proof.
  intros H. destruct (Nat.le_gt_cases n (List.length l)) as [Hle | Hgt].
  - left. apply (f_equal (@List.length byte)) in H.
    rewrite List.length_skipn, List.length_app in H. unfold len. lia.
  - right. rewrite List.skipn_all2 in H by lia.
    symmetry in H. apply List.app_eq_nil in H. exact H.
Qed.

Lemma skipn_more (n : nat) (l chunk rest : list byte) :
  skipn n l = chunk ++ rest -> skipn (n + List.length chunk) l = rest.
Proof.
  intros H. rewrite Nat.add_comm, <- List.skipn_skipn, H.
  apply List.skipn_app_r. reflexivity.
Qed.

Lemma skipn_repeat (b : byte) (k n : nat) : skipn k (repeat b n) = repeat b (n - k).
Proof.
  revert n. induction k as [| k IH]; intros [| n]; simpl; auto.
Qed.

(** Reading four bytes that are there. *)
Lemma getUint32_at (dv chunk rest : Uint8Array) (off : Z) :
  0 <= off -> skipn (Z.to_nat off) dv = chunk ++ rest -> List.length chunk = 4%nat ->
  getUint32 dv off = Return (le_combine chunk).
Proof.
  intros Hoff Hskip Hlen. unfold getUint32.
  destruct (len_skipn_eq _ _ _ _ Hskip) as [Hl | [Hnil _]].
  2:{ subst chunk. discriminate Hlen. }
  assert (Hc : len chunk = 4) by (unfold len; lia).
  pose proof (len_nonneg rest).
  decide_guards. rewrite Hskip, List.firstn_app, <- Hlen, List.firstn_all, Nat.sub_diag.
  simpl. rewrite List.app_nil_r. reflexivity.
Qed.

(** Writing into the zero-filled tail of an array under construction. *)
Lemma set_fill (written source : Uint8Array) (n : nat) (offset : Z) :
  offset = len written -> (List.length source <= n)%nat ->
  set (written ++ repeat Byte.x00 n) source offset
  = Return ((written ++ source) ++ repeat Byte.x00 (n - List.length source)).
Proof.
  intros -> Hfit. unfold set.
  pose proof (len_nonneg written). rewrite len_app, len_repeat.
  assert (len source <= Z.of_nat n) by (unfold len; lia).
  decide_guards. f_equal. rewrite <- List.app_assoc. 
  replace (Z.to_nat (len written)) with (List.length written) by (unfold len; lia).
  rewrite List.firstn_app, List.firstn_all, Nat.sub_diag. simpl. rewrite List.app_nil_r.
  f_equal. f_equal.
  replace (Z.to_nat (len written + len source))
    with (List.length written + List.length source)%nat by (unfold len; lia).
  rewrite List.skipn_app_r2 by reflexivity.
  rewrite skipn_repeat. reflexivity.
Qed.

Lemma setUint32_fill (written : Uint8Array) (n : nat) (offset value : Z) :
  offset = len written -> (4 <= n)%nat ->
  setUint32 (written ++ repeat Byte.x00 n) offset value
  = Return ((written ++ le_split 4 value) ++ repeat Byte.x00 (n - 4)).
Proof.
  intros -> Hfit. unfold setUint32.
  pose proof (len_nonneg written). rewrite len_app, len_repeat.
  decide_guards. f_equal. rewrite <- List.app_assoc.
  replace (Z.to_nat (len written)) with (List.length written) by (unfold len; lia).
  rewrite List.firstn_app, List.firstn_all, Nat.sub_diag. simpl. rewrite List.app_nil_r.
  f_equal. f_equal.
  replace (Z.to_nat (len written + 4)) with (List.length written + 4)%nat by (unfold len; lia).
  rewrite List.skipn_app_r2 by reflexivity.
  rewrite skipn_repeat. reflexivity.
Qed.

(** The side conditions of [set_fill] and [setUint32_fill]. *)
Ltac fill_side :=
  rewrite ?len_app, ?len_le_split; cbn [List.length Nat.sub]; unfold len;
  rewrite ?List.length_app, ?length_le_split; cbn; lia.

(** [set] and [setUint32] never change the length of their target. *)
Lemma set_len (target source result : Uint8Array) (offset : Z) :
  set target source offset = Return result -> len result = len target.
Proof.
  unfold set. destruct (_ || _) eqn:G; [discriminate |].
  intros [= <-]. apply Bool.orb_false_elim in G as [G1 G2].
  apply Z.ltb_ge in G1. rewrite Z.gtb_ltb in G2. apply Z.ltb_ge in G2.
  pose proof (len_nonneg source).
  unfold len in *. rewrite !List.length_app, List.length_firstn, List.length_skipn. lia.
Qed.

Lemma setUint32_len (dv result : Uint8Array) (offset value : Z) :
  setUint32 dv offset value = Return result -> len result = len dv.
Proof.
  unfold setUint32. destruct (_ || _) eqn:G; [discriminate |].
  intros [= <-]. apply Bool.orb_false_elim in G as [G1 G2].
  apply Z.ltb_ge in G1. rewrite Z.gtb_ltb in G2. apply Z.ltb_ge in G2.
  unfold len in *.
  rewrite !List.length_app. cbn [Datatypes.length].
  rewrite List.length_firstn, List.length_skipn. lia.
Qed.

(** ** The magic number check of [unpack] *)

Lemma getUint8_at (dv rest : Uint8Array) (b : byte) (i : nat) :
  skipn i dv = b :: rest -> getUint8 dv (Z.of_nat i) = Return (byte.unsigned b).
Proof.
  intros Hskip. unfold getUint8.
  destruct (len_skipn_eq i dv [b] rest Hskip) as [Hl | [Hnil _]]; [| discriminate Hnil].
  pose proof (len_nonneg rest). change (len [b]) with 1 in Hl.
  decide_guards. rewrite Nat2Z.id, Hskip. cbn [firstn].
  rewrite le_combine_1. reflexivity.
Qed.

Lemma getUint8_past (dv : Uint8Array) (i : nat) :
  skipn i dv = [] -> getUint8 dv (Z.of_nat i) = Throw DataView_RangeError.
Proof.
  intros Hskip. unfold getUint8.
  assert (List.length dv <= i)%nat.
  { apply (f_equal (@List.length byte)) in Hskip.
    rewrite List.length_skipn in Hskip. simpl in Hskip. lia. }
  unfold len. decide_guards; reflexivity.
Qed.

(** The comparison loop, by what the buffer holds from index [i] on: the
    whole pattern, a different byte, or the end of the buffer. *)
Lemma every_magic_true (dv a rest : Uint8Array) (i : nat) :
  skipn i dv = a ++ rest -> every_from (magic_callback dv) a (Z.of_nat i) = Return true.
Proof.
  revert i. induction a as [| v a IH]; intros i Hskip; [reflexivity |].
  cbn [every_from]. unfold magic_callback at 1.
  rewrite (getUint8_at dv (a ++ rest) v i Hskip). cbn [bind].
  rewrite Z.eqb_refl.
  replace (Z.of_nat i + 1) with (Z.of_nat (S i)) by lia.
  apply IH. replace (S i) with (i + List.length [v])%nat by (simpl; lia).
  apply skipn_more. exact Hskip.
Qed.

Lemma every_magic_false (dv common a rest : Uint8Array) (x y : byte) (i : nat) :
  skipn i dv = common ++ y :: rest -> x <> y ->
  every_from (magic_callback dv) (common ++ x :: a) (Z.of_nat i) = Return false.
Proof.
  revert i. induction common as [| v common IH]; intros i Hskip Hxy.
  - cbn [app every_from]. unfold magic_callback at 1.
    rewrite (getUint8_at dv rest y i Hskip). cbn [bind].
    destruct (Z.eqb_spec (byte.unsigned y) (byte.unsigned x)) as [E | _]; [| reflexivity].
    apply byte.unsigned_inj in E. congruence.
  - cbn [app every_from]. unfold magic_callback at 1.
    rewrite (getUint8_at dv (common ++ y :: rest) v i Hskip). cbn [bind].
    rewrite Z.eqb_refl.
    replace (Z.of_nat i + 1) with (Z.of_nat (S i)) by lia.
    apply IH; [| exact Hxy]. replace (S i) with (i + List.length [v])%nat by (simpl; lia).
    apply skipn_more. exact Hskip.
Qed.

Lemma every_magic_short (dv common a : Uint8Array) (x : byte) (i : nat) :
  skipn i dv = common ->
  every_from (magic_callback dv) (common ++ x :: a) (Z.of_nat i) = Throw DataView_RangeError.
Proof.
  revert i. induction common as [| v common IH]; intros i Hskip.
  - cbn [app every_from]. unfold magic_callback at 1.
    rewrite (getUint8_past dv i Hskip). reflexivity.
  - cbn [app every_from]. unfold magic_callback at 1.
    rewrite (getUint8_at dv common v i Hskip). cbn [bind].
    rewrite Z.eqb_refl.
    replace (Z.of_nat i + 1) with (Z.of_nat (S i)) by lia.
    apply IH. replace (S i) with (i + List.length [v])%nat by (simpl; lia).
    apply skipn_more. exact Hskip.
Qed.

(** Two byte strings: one starts with the other, or they differ at an index
    that both have. *)
Lemma prefix_trichotomy (a l : list byte) :
  (exists rest, l = a ++ rest)
  \/ (exists x more, a = l ++ x :: more)
  \/ (exists common x y a' rest, a = common ++ x :: a' /\ l = common ++ y :: rest /\ x <> y).
Proof.
  revert l. induction a as [| v a IH]; intros l.
  - left. exists l. reflexivity.
  - destruct l as [| w l].
    + right. left. exists v, a. reflexivity.
    + destruct (Byte.byte_eq_dec v w) as [-> | Hne].
      * destruct (IH l) as [[rest ->] | [[x [more ->]] | [c [x [y [a' [rest [-> [-> H]]]]]]]]].
        -- left. exists rest. reflexivity.
        -- right. left. exists x, more. reflexivity.
        -- right. right. exists (w :: c), x, y, a', rest. auto.
      * right. right. exists [], v, w, a, l. auto.
Qed.

Lemma getUint32_past (dv : Uint8Array) (off : Z) :
  len dv < off + 4 -> getUint32 dv off = Throw DataView_RangeError.
Proof.
  intros H. unfold getUint32. decide_guards; reflexivity.
Qed.

Lemma kSignature_bytes : kSignature = [Byte.x43; Byte.x72; Byte.x32; Byte.x34].
Proof. reflexivity. Qed.

(** An array that spans its buffer holds the bytes of the buffer. *)
Lemma elements_whole (a : Uint8Array) : elements (whole a) = a.
Proof.
  unfold elements, whole, len. cbn [byteLength byteOffset buffer].
  rewrite Nat2Z.id. cbn [Z.to_nat skipn]. apply firstn_all.
Qed.

Lemma unpack_magic (rest : Uint8Array) :
  every (magic_callback (kSignature ++ rest)) kSignature = Return true.
Proof.
  apply (every_magic_true (kSignature ++ rest) kSignature rest 0). reflexivity.
Qed.

(** ** Version 2 containers *)

(** [unpack] on a version 2 container of at least 16 bytes, in an array that
    spans its buffer: three slices and no check of the declared lengths. *)
Lemma unpack_crx2 (keyLength signLength : Z) (body : Uint8Array) :
  let crx := kSignature ++ le_split 4 2 ++ le_split 4 keyLength ++ le_split 4 signLength
             ++ body in
  let k := keyLength mod 2 ^ 32 in
  let s := signLength mod 2 ^ 32 in
  unpack (whole crx) = Return (UnpackedCrx2 (slice crx (16 + k + s) None)
                                            (slice crx 16 (Some (16 + k)))
                                            (slice crx (16 + k) (Some (16 + k + s)))).
Proof.
  intros crx k s. unfold unpack. rewrite elements_whole. cbn [buffer whole]. cbv zeta.
  assert (Hmagic : every (magic_callback crx) kSignature = Return true)
    by apply unpack_magic.
  rewrite Hmagic. cbn [bind].
  rewrite (getUint32_at crx (le_split 4 2)
             (le_split 4 keyLength ++ le_split 4 signLength ++ body) 4);
    [| lia | reflexivity | apply length_le_split].
  rewrite le_combine_split. cbn [bind]. change (2 mod 2 ^ (Z.of_nat 4 * 8) =? 2) with true.
  cbv iota.
  rewrite (getUint32_at crx (le_split 4 keyLength) (le_split 4 signLength ++ body) 8);
    [| lia | reflexivity | apply length_le_split].
  cbn [bind].
  rewrite (getUint32_at crx (le_split 4 signLength) body 12);
    [| lia | reflexivity | apply length_le_split].
  cbn [bind]. rewrite !le_combine_split. reflexivity.
Qed.

(** [slice] between two non-negative indices, and to the end. *)
Lemma slice_nonneg (l : Uint8Array) (a b : Z) :
  0 <= a -> 0 <= b ->
  slice l a (Some b) = firstn (Z.to_nat b - Z.to_nat a) (skipn (Z.to_nat a) l).
Proof.
  intros Ha Hb. unfold slice, relative_index. cbv zeta.
  pose proof (len_nonneg l) as Hl. unfold len in *.
  repeat match goal with
         | |- context [?x <? 0] => destruct (Z.ltb_spec x 0); [lia |]
         end.
  destruct (Z.le_gt_cases a (Z.of_nat (List.length l))) as [Hle | Hgt].
  - rewrite (Z.min_l a) by lia.
    destruct (Z.le_gt_cases b (Z.of_nat (List.length l))) as [Hble | Hbgt].
    + rewrite Z.min_l by lia. f_equal. lia.
    + rewrite Z.min_r by lia.
      rewrite !List.firstn_all2; auto; rewrite List.length_skipn; lia.
  - rewrite !List.skipn_all2 by lia. rewrite !List.firstn_nil. reflexivity.
Qed.

Lemma slice_to_end (l : Uint8Array) (a : Z) :
  0 <= a -> slice l a None = skipn (Z.to_nat a) l.
Proof.
  intros Ha. unfold slice, relative_index. cbv zeta.
  pose proof (len_nonneg l) as Hl. unfold len in *.
  destruct (Z.ltb_spec a 0); [lia |].
  destruct (Z.le_gt_cases a (Z.of_nat (List.length l))) as [Hle | Hgt].
  - rewrite Z.min_l by lia. apply List.firstn_all2. rewrite List.length_skipn. lia.
  - rewrite !List.skipn_all2 by lia. apply List.firstn_nil.
Qed.

(** Every buffer of 16 bytes or more that begins with the magic number and
    version 2 is a 16-byte header with two declared lengths, and a body. *)
Lemma crx2_header_form (crx : Uint8Array) :
  16 <= len crx -> firstn 4 crx = kSignature -> getUint32 crx 4 = Return 2 ->
  exists keyLength signLength body,
    0 <= keyLength < 2 ^ 32 /\ 0 <= signLength < 2 ^ 32 /\
    crx = kSignature ++ le_split 4 2 ++ le_split 4 keyLength ++ le_split 4 signLength ++ body.
Proof.
  intros Hlen Hmagic Hversion.
  assert (Hversion' : le_combine (firstn 4 (skipn 4 crx)) = 2).
  { unfold getUint32 in Hversion. revert Hversion. decide_guards.
    change (Z.to_nat 4) with 4%nat. congruence. }
  clear Hversion. rename Hversion' into Hversion.
  set (v := firstn 4 (skipn 4 crx)) in *.
  set (k := firstn 4 (skipn 8 crx)).
  set (s := firstn 4 (skipn 12 crx)).
  assert (Hn : (16 <= List.length crx)%nat) by (unfold len in Hlen; lia).
  assert (Hv : List.length v = 4%nat)
    by (unfold v; rewrite List.length_firstn, List.length_skipn; lia).
  assert (Hk : List.length k = 4%nat)
    by (unfold k; rewrite List.length_firstn, List.length_skipn; lia).
  assert (Hs : List.length s = 4%nat)
    by (unfold s; rewrite List.length_firstn, List.length_skipn; lia).
  exists (le_combine k), (le_combine s), (skipn 16 crx).
  pose proof (le_combine_bound k) as Bk. pose proof (le_combine_bound s) as Bs.
  rewrite Hk in Bk. rewrite Hs in Bs.
  split; [exact Bk |]. split; [exact Bs |].
  rewrite <- Hmagic, <- Hversion.
  rewrite (split_le_combine' v 4 Hv), (split_le_combine' k 4 Hk), (split_le_combine' s 4 Hs).
  unfold v, k, s.
  rewrite <- (List.firstn_skipn 4 crx) at 1. f_equal.
  rewrite <- (List.firstn_skipn 4 (skipn 4 crx)) at 1. f_equal.
  rewrite List.skipn_skipn. cbn [Nat.add].
  rewrite <- (List.firstn_skipn 4 (skipn 8 crx)) at 1. f_equal.
  rewrite List.skipn_skipn. cbn [Nat.add].
  rewrite <- (List.firstn_skipn 4 (skipn 12 crx)) at 1. f_equal.
  rewrite List.skipn_skipn. reflexivity.
Qed.

(** X29.  A version 2 container whose declared key and signature lengths
    overrun its end, in an array that spans its buffer from the first byte,
    is unpacked without an error: the key and the signature are what the
    array has after its 16-byte header, cut where the array ends, and the
    archive is empty. *)
Theorem unpack_crx2_overrun (keyLength signLength : Z) (body : Uint8Array) :
  0 <= keyLength < 2 ^ 32 -> 0 <= signLength < 2 ^ 32 ->
  len body < keyLength + signLength ->
  unpack (whole (kSignature ++ le_split 4 2 ++ le_split 4 keyLength ++ le_split 4 signLength
                 ++ body))
  = Return (UnpackedCrx2 [] (firstn (Z.to_nat keyLength) body)
                            (skipn (Z.to_nat keyLength) body)).
Proof.
  intros Hk Hs Hover.
  pose proof (unpack_crx2 keyLength signLength body) as H. cbv zeta in H.
  rewrite H. clear H.
  rewrite !Z.mod_small by lia.
  set (header := kSignature ++ le_split 4 2 ++ le_split 4 keyLength ++ le_split 4 signLength).
  replace (kSignature ++ le_split 4 2 ++ le_split 4 keyLength ++ le_split 4 signLength ++ body)
    with (header ++ body) by (unfold header; rewrite <- !List.app_assoc; reflexivity).
  assert (Hh : List.length header = 16%nat)
    by (unfold header; rewrite !List.length_app, !length_le_split; reflexivity).
  assert (Hb : (List.length body < Z.to_nat keyLength + Z.to_nat signLength)%nat)
    by (unfold len in Hover; lia).
  rewrite slice_to_end, !slice_nonneg by lia.
  replace (Z.to_nat (16 + keyLength + signLength))
    with (16 + (Z.to_nat keyLength + Z.to_nat signLength))%nat by lia.
  replace (Z.to_nat (16 + keyLength)) with (16 + Z.to_nat keyLength)%nat by lia.
  change (Z.to_nat 16) with 16%nat.
  rewrite !List.skipn_app_r2 by (symmetry; exact Hh).
  rewrite (List.skipn_app_r header body 16) by (symmetry; exact Hh).
  do 2 f_equal.
  - apply List.skipn_all2. lia.
  - f_equal. lia.
  - apply List.firstn_all2. rewrite List.length_skipn. lia.
Qed.

(** C10.  The failing input.  The same 17 bytes, a version 2 container whose
    declared key length runs past its end, once as an array of its own and
    once as the view [full.subarray(1)] of a buffer with one more byte in
    front.  The array of its own is unpacked to what the claim says.  For the
    view, [unpack] cuts the parts out of the view, but reads the magic number
    through [new DataView(crx.buffer)], from the first byte of the buffer,
    which is not the first byte of the view: it throws the format error. *)
Theorem unpack_ignores_byteOffset :
  let container := kSignature ++ le_split 4 2 ++ le_split 4 255 ++ le_split 4 0 ++ [Byte.x58] in
  let crx := subarray (whole (Byte.x00 :: container)) 1 None in
  elements crx = container /\
  unpack (whole container) = Return (UnpackedCrx2 [] [Byte.x58] []) /\
  unpack crx = Throw invalid_crx.
Proof. cbv zeta. split; [| split]; vm_compute; reflexivity. Qed.

(** C1.  [packCrx2] allocates room for the header, the key and the signature
    only, so that the final [result.set(contents, length)] is out of bounds
    for every non-empty [contents]: whatever the key and the signature are,
    [packCrx2] returns no container. *)
Theorem packCrx2_contents_out_of_bounds
  (privateKey publicKey : Uint8Array) (b : byte) (contents : Uint8Array) (rsa : option RSA)
  (result : Uint8Array) :
  packCrx2 privateKey publicKey (b :: contents) rsa <> Return result.
Proof.
  unfold packCrx2.
  destruct (rsa_or_import rsa privateKey) as [r |]; [| discriminate].
  cbn [bind]. destruct (RSA_sign r pkcs1_sha1 (b :: contents)) as [sg |]; [| discriminate].
  cbn [bind].
  set (length := 16 + len publicKey + len sg).
  assert (Hnew : len (new_Uint8Array length) = length).
  { unfold new_Uint8Array. rewrite len_repeat.
    pose proof (len_nonneg publicKey). pose proof (len_nonneg sg). lia. }
  destruct (set _ kSignature 0) as [r1 |] eqn:E1; [| discriminate].
  apply set_len in E1. cbn [bind].
  destruct (setUint32 r1 4 2) as [r2 |] eqn:E2; [| discriminate].
  apply setUint32_len in E2. cbn [bind].
  destruct (setUint32 r2 8 _) as [r3 |] eqn:E3; [| discriminate].
  apply setUint32_len in E3. cbn [bind].
  destruct (setUint32 r3 12 _) as [r4 |] eqn:E4; [| discriminate].
  apply setUint32_len in E4. cbn [bind].
  destruct (set r4 publicKey 16) as [r5 |] eqn:E5; [| discriminate].
  apply set_len in E5. cbn [bind].
  destruct (set r5 sg _) as [r6 |] eqn:E6; [| discriminate].
  apply set_len in E6. cbn [bind].
  assert (H6 : len r6 = length) by congruence.
  unfold set. replace (len (b :: contents)) with (1 + len contents)
    by (unfold len; cbn [List.length]; lia).
  pose proof (len_nonneg contents).
  rewrite H6. decide_guards; discriminate.
Qed.

(** With both primitives succeeding the error is the RangeError of
    [TypedArray.prototype.set]. *)
Lemma packCrx2_throws_RangeError
  (privateKey publicKey : Uint8Array) (b : byte) (contents sg : Uint8Array) (r : RSA) :
  RSA_sign r pkcs1_sha1 (b :: contents) = Return sg ->
  packCrx2 privateKey publicKey (b :: contents) (Some r)
  = Throw (RangeError "offset is out of bounds").
Proof.
  intros Hsign. unfold packCrx2. cbn [rsa_or_import bind]. rewrite Hsign. cbn [bind].
  pose proof (len_nonneg publicKey) as Hp. pose proof (len_nonneg sg) as Hs.
  unfold new_Uint8Array.
  replace (Z.to_nat (16 + len publicKey + len sg))
    with (16 + List.length publicKey + List.length sg)%nat by (unfold len; lia).
  set (n := (16 + List.length publicKey + List.length sg)%nat).
  assert (E : set (repeat Byte.x00 n) kSignature 0
              = Return (kSignature ++ repeat Byte.x00 (n - 4)))
    by (apply (set_fill [] kSignature n 0); [reflexivity | cbn; lia]).
  rewrite E. clear E. cbn [bind]. subst n.
  rewrite (setUint32_fill kSignature) by fill_side. cbn [bind].
  rewrite setUint32_fill by fill_side. cbn [bind].
  rewrite setUint32_fill by fill_side. cbn [bind].
  rewrite set_fill by fill_side. cbn [bind].
  rewrite set_fill by fill_side. cbn [bind].
  unfold set. rewrite ?len_app, ?len_le_split, len_repeat.
  replace (len (b :: contents)) with (1 + len contents)
    by (unfold len; cbn [List.length]; lia).
  pose proof (len_nonneg contents).
  change (len kSignature) with 4.
  decide_guards; reflexivity.
Qed.

(** The header and the two fields are laid out as [unpack] reads them: with
    empty contents, the only case that fits the allocation, the container
    decodes to the key and the signature. *)
Lemma packCrx2_empty_contents (privateKey publicKey sg : Uint8Array) (r : RSA) :
  RSA_sign r pkcs1_sha1 [] = Return sg ->
  len publicKey < 2 ^ 32 -> len sg < 2 ^ 32 ->
  exists crx,
    packCrx2 privateKey publicKey [] (Some r) = Return crx /\
    unpack (whole crx) = Return (UnpackedCrx2 [] publicKey sg).
Proof.
  intros Hsign Hpk Hsg.
  exists (kSignature ++ le_split 4 2 ++ le_split 4 (len publicKey) ++ le_split 4 (len sg)
          ++ (publicKey ++ sg)).
  pose proof (len_nonneg publicKey) as Hp. pose proof (len_nonneg sg) as Hs.
  split.
  - unfold packCrx2. cbn [rsa_or_import bind]. rewrite Hsign. cbn [bind].
    unfold new_Uint8Array.
    replace (Z.to_nat (16 + len publicKey + len sg))
      with (16 + List.length publicKey + List.length sg)%nat by (unfold len; lia).
    set (n := (16 + List.length publicKey + List.length sg)%nat).
    assert (E : set (repeat Byte.x00 n) kSignature 0
                = Return (kSignature ++ repeat Byte.x00 (n - 4)))
      by (apply (set_fill [] kSignature n 0); [reflexivity | cbn; lia]).
    rewrite E. clear E. cbn [bind]. subst n.
    rewrite (setUint32_fill kSignature) by fill_side. cbn [bind].
    rewrite setUint32_fill by fill_side. cbn [bind].
    rewrite setUint32_fill by fill_side. cbn [bind].
    rewrite set_fill by fill_side. cbn [bind].
    rewrite set_fill by fill_side. cbn [bind].
    rewrite set_fill by fill_side. cbn [bind].
    f_equal.
    replace (_ - _)%nat with 0%nat by (cbn [List.length]; lia).
    cbn [repeat]. rewrite !List.app_nil_r, <- !List.app_assoc. reflexivity.
  - pose proof (unpack_crx2 (len publicKey) (len sg) (publicKey ++ sg)) as H.
    cbv zeta in H. rewrite H. clear H. rewrite !Z.mod_small by lia.
    set (header := kSignature ++ le_split 4 2 ++ le_split 4 (len publicKey)
                   ++ le_split 4 (len sg)).
    replace (kSignature ++ le_split 4 2 ++ le_split 4 (len publicKey) ++ le_split 4 (len sg)
             ++ publicKey ++ sg)
      with (header ++ publicKey ++ sg) by (unfold header; rewrite <- !List.app_assoc; reflexivity).
    assert (Hh : List.length header = 16%nat)
      by (unfold header; rewrite !List.length_app, !length_le_split; reflexivity).
    rewrite slice_to_end, !slice_nonneg by lia.
    replace (Z.to_nat (16 + len publicKey + len sg))
      with (16 + (List.length publicKey + List.length sg))%nat by (unfold len; lia).
    replace (Z.to_nat (16 + len publicKey))
      with (16 + List.length publicKey)%nat by (unfold len; lia).
    change (Z.to_nat 16) with 16%nat.
    rewrite (List.skipn_app_r2 header (publicKey ++ sg) 16
               (List.length publicKey + List.length sg)) by (symmetry; exact Hh).
    rewrite (List.skipn_app_r2 header (publicKey ++ sg) 16 (List.length publicKey))
      by (symmetry; exact Hh).
    rewrite (List.skipn_app_r header _ 16) by (symmetry; exact Hh).
    do 2 f_equal.
    + apply List.skipn_all2. rewrite List.length_app. lia.
    + replace (16 + List.length publicKey - 16)%nat with (List.length publicKey) by lia.
      rewrite List.firstn_app, List.firstn_all, Nat.sub_diag. cbn [firstn].
      apply List.app_nil_r.
    + rewrite List.skipn_app_r by reflexivity.
      apply List.firstn_all2. lia.
Qed.

(** ** Buffers that are not containers *)

Lemma unpack_magic_short (crx more : Uint8Array) (x : byte) :
  kSignature = crx ++ x :: more ->
  every (magic_callback crx) kSignature = Throw DataView_RangeError.
Proof.
  intros ->. apply (every_magic_short crx crx more x 0). reflexivity.
Qed.

Lemma unpack_magic_differs (common a rest : Uint8Array) (x y : byte) :
  kSignature = common ++ x :: a -> x <> y ->
  every (magic_callback (common ++ y :: rest)) kSignature = Return false.
Proof.
  intros -> Hxy. apply (every_magic_false (common ++ y :: rest) common a rest x y 0); auto.
Qed.

(** What decides is the buffer, whatever part of it the array is a view of:
    when the buffer does not begin with the magic number followed by a
    version field of 2 or 3, [unpack] throws. *)
Lemma unpack_rejects_buffer (crx : ArrayBuffer) (offset n : Z) :
  let view (abuf : ArrayBuffer) := {| buffer := abuf; byteOffset := offset; byteLength := n |} in
  ~ well_framed crx ->
  (truncated crx -> unpack (view crx) = Throw DataView_RangeError) /\
  (~ truncated crx -> unpack (view crx) = Throw invalid_crx).
Proof.
  intros view Hframe.
  destruct (prefix_trichotomy kSignature crx)
    as [[rest ->] | [[x [more Hshort]] | [c [x [y [a' [rest [Hsig [-> Hxy]]]]]]]]].
  - (* the magic number is there *)
    destruct (Z.lt_ge_cases (len rest) 4) as [Hlt | Hge].
    + assert (E : unpack (view (kSignature ++ rest)) = Throw DataView_RangeError).
      { unfold unpack, view. cbn [buffer]. cbv zeta. rewrite unpack_magic. cbn [bind].
        rewrite getUint32_past by (rewrite len_app; change (len kSignature) with 4; lia).
        reflexivity. }
      rewrite E. split; [reflexivity |]. intros Hnot. exfalso. apply Hnot. split.
      * rewrite len_app. change (len kSignature) with 4. lia.
      * rewrite List.firstn_app, List.length_app.
        change (List.length kSignature) with 4%nat.
        rewrite (List.firstn_all2 (n := (4 + List.length rest)%nat))
          by (change (List.length kSignature) with 4%nat; lia).
        rewrite List.firstn_all2 by (change (List.length kSignature) with 4%nat; lia).
        cbn [Nat.sub firstn]. apply List.app_nil_r.
    + assert (Hrest : rest = firstn 4 rest ++ skipn 4 rest)
        by (symmetry; apply List.firstn_skipn).
      assert (Hl4 : List.length (firstn 4 rest) = 4%nat)
        by (rewrite List.length_firstn; unfold len in Hge; lia).
      assert (Hother : le_combine (firstn 4 rest) <> 2 /\ le_combine (firstn 4 rest) <> 3).
      { split; intros Hv; apply Hframe;
          exists (le_combine (firstn 4 rest)), (skipn 4 rest);
          (split; [| auto]);
          rewrite (split_le_combine' (firstn 4 rest) 4 Hl4), <- Hrest; reflexivity. }
      destruct Hother as [H2 H3].
      assert (E : unpack (view (kSignature ++ rest)) = Throw invalid_crx).
      { unfold unpack, view. cbn [buffer]. cbv zeta. rewrite unpack_magic. cbn [bind].
        rewrite (getUint32_at (kSignature ++ rest) (firstn 4 rest) (skipn 4 rest) 4);
          [| lia | rewrite Hrest at 1; reflexivity | exact Hl4].
        cbn [bind].
        destruct (Z.eqb_spec (le_combine (firstn 4 rest)) 2); [contradiction |].
        destruct (Z.eqb_spec (le_combine (firstn 4 rest)) 3); [contradiction |].
        reflexivity. }
      rewrite E. split; [| reflexivity]. intros [Hlen _]. exfalso.
      rewrite len_app in Hlen. change (len kSignature) with 4 in Hlen. lia.
  - (* the buffer is a proper prefix of the magic number *)
    assert (E : unpack (view crx) = Throw DataView_RangeError).
    { unfold unpack, view. cbn [buffer]. cbv zeta. rewrite (unpack_magic_short crx more x Hshort). reflexivity. }
    rewrite E. split; [reflexivity |]. intros Hnot. exfalso. apply Hnot.
    assert (Hl : (List.length crx < 4)%nat).
    { apply (f_equal (@List.length byte)) in Hshort.
      rewrite List.length_app in Hshort. cbn [List.length] in Hshort.
      change (List.length kSignature) with 4%nat in Hshort. lia. }
    split; [unfold len; lia |].
    rewrite List.firstn_all2 by lia.
    rewrite Hshort at 1. rewrite List.firstn_app, List.firstn_all, Nat.sub_diag.
    cbn [firstn]. symmetry. apply List.app_nil_r.
  - (* a byte differs from the magic number *)
    assert (E : unpack (view (c ++ y :: rest)) = Throw invalid_crx).
    { unfold unpack, view. cbn [buffer]. cbv zeta.
      rewrite (unpack_magic_differs c a' rest x y Hsig Hxy). reflexivity. }
    rewrite E. split; [| reflexivity]. intros [_ Heq]. exfalso.
    assert (Hc : (List.length c < 4)%nat).
    { apply (f_equal (@List.length byte)) in Hsig.
      rewrite List.length_app in Hsig. cbn [List.length] in Hsig.
      change (List.length kSignature) with 4%nat in Hsig. lia. }
    rewrite Hsig in Heq. rewrite !List.firstn_app in Heq.
    rewrite (List.firstn_all2 (n := 4) c) in Heq by lia.
    rewrite (List.firstn_all2 (n := List.length (c ++ y :: rest)) c) in Heq
      by (rewrite List.length_app; lia).
    apply List.app_inv_head in Heq.
    rewrite List.length_app in Heq. cbn [List.length] in Heq.
    destruct (4 - List.length c)%nat as [| k] eqn:E4; [lia |].
    replace (List.length c + S (List.length rest) - List.length c)%nat
      with (S (List.length rest)) in Heq by lia.
    cbn [firstn] in Heq. congruence.
Qed.

(** C4, as amended.  An array that spans its buffer from the first byte and
    does not begin with the magic number followed by a version field of 2 or
    3 is never unpacked.  The error is the format error when the array has a
    byte that differs from the magic number, or has a version field with
    another value; when the array ends before its magic number and version
    field do, the read past its end throws the RangeError of the DataView
    instead. *)
Theorem unpack_rejects (crx : Uint8Array) :
  ~ well_framed crx ->
  (truncated crx -> unpack (whole crx) = Throw DataView_RangeError) /\
  (~ truncated crx -> unpack (whole crx) = Throw invalid_crx).
Proof.
  intros Hframe. exact (unpack_rejects_buffer crx 0 (len crx) Hframe).
Qed.

(** ** The [pbf] wire format *)

Lemma varint_bytes_nonempty (fuel : nat) (v : Z) : 0 < len (Pbf.varint_bytes (S fuel) v).
Proof.
  cbn [Pbf.varint_bytes]. destruct (v <=? 127); unfold len; cbn [List.length]; lia.
Qed.

Lemma varint_bytes_bound (fuel : nat) (v : Z) :
  len (Pbf.varint_bytes fuel v) <= Z.of_nat fuel.
Proof.
  revert v. induction fuel as [| fuel IH]; intros v; [reflexivity |].
  cbn [Pbf.varint_bytes]. destruct (v <=? 127).
  - unfold len. cbn [List.length]. lia.
  - specialize (IH (Z.shiftr v 7)). unfold len in *. cbn [List.length]. lia.
Qed.

(** Seven low bits and the rest make the number. *)
Lemma low7_disjoint (v : Z) : Z.land (Z.land v 0x7f) (Z.shiftl (Z.shiftr v 7) 7) = 0.
Proof.
  apply Z.bits_inj'. intros i Hi. rewrite !Z.land_spec, Z.bits_0.
  change 0x7f with (Z.ones 7).
  destruct (Z.lt_ge_cases i 7).
  - rewrite Z.shiftl_spec_low by lia. apply Bool.andb_false_r.
  - rewrite Z.ones_spec_high by lia. rewrite Bool.andb_false_r. reflexivity.
Qed.

Lemma low7_rest (v : Z) : Z.lor (Z.land v 0x7f) (Z.shiftl (Z.shiftr v 7) 7) = v.
Proof.
  rewrite <- Z.lxor_lor by apply low7_disjoint.
  rewrite <- Z.add_nocarry_lxor by apply low7_disjoint.
  change 0x7f with (Z.ones 7). rewrite Z.land_ones by lia.
  rewrite Z.shiftl_mul_pow2, Z.shiftr_div_pow2 by lia.
  rewrite Z.add_comm, Z.mul_comm. symmetry. apply Z.div_mod. lia.
Qed.

Lemma low7_bit7 (v : Z) : Z.land (Z.land v 0x7f) 0x80 = 0.
Proof.
  apply Z.bits_inj'. intros i Hi. rewrite !Z.land_spec, Z.bits_0.
  change 0x7f with (Z.ones 7). change 0x80 with (2 ^ 7).
  rewrite Z.pow2_bits_eqb by lia.
  destruct (Z.eqb_spec 7 i) as [<- | Hne].
  - rewrite Z.ones_spec_high by lia. rewrite Bool.andb_false_r. reflexivity.
  - apply Bool.andb_false_r.
Qed.

(** A continuation byte: the high bit is set, the low seven are the group. *)
Lemma continuation_byte (v : Z) :
  let u := byte.unsigned (byte.of_Z (Z.lor (Z.land v 0x7f) 0x80)) in
  0x80 <= u /\ Z.land u 0x7f = Z.land v 0x7f.
Proof.
  cbv zeta. rewrite byte.unsigned_of_Z. unfold byte.wrap.
  assert (Hlow : 0 <= Z.land v 0x7f < 128).
  { change 0x7f with (Z.ones 7). rewrite Z.land_ones by lia. apply Z.mod_pos_bound. lia. }
  assert (Hsum : Z.lor (Z.land v 0x7f) 0x80 = Z.land v 0x7f + 128).
  { rewrite <- Z.lxor_lor by apply low7_bit7.
    rewrite <- Z.add_nocarry_lxor by apply low7_bit7. reflexivity. }
  rewrite Hsum. rewrite Z.mod_small by lia. split; [lia |].
  change 0x7f with (Z.ones 7) in *. rewrite !Z.land_ones in * by lia.
  change (2 ^ 7) with 128 in *.
  set (m := v mod 128) in *.
  replace (m + 128) with (m + 1 * 128) by lia. rewrite Z.mod_add by lia.
  apply Z.mod_small. exact Hlow.
Qed.

(** Reading what [varint_bytes] wrote gives the number back, for numbers of
    at most nine groups (63 bits), which ten bytes of fuel cover. *)
Lemma varint_value_bytes (n : nat) :
  forall (fw fr : nat) (shift v : Z) (rest : list byte),
    0 <= shift -> 0 <= v < 2 ^ (7 * Z.of_nat (S n)) ->
    (S n <= fw)%nat -> (S (S n) <= fr)%nat ->
    Pbf.varint_value fr shift (Pbf.varint_bytes fw v ++ rest)
    = Some (Z.shiftl v shift, len (Pbf.varint_bytes fw v)).
Proof.
  induction n as [| n IH]; intros fw fr shift v rest Hshift Hv Hfw Hfr;
    destruct fw as [| fw]; try lia; destruct fr as [| fr]; try lia;
    cbn [Pbf.varint_bytes]; destruct (Z.leb_spec v 0x7f) as [Hsmall | Hbig].
  - cbn [app Pbf.varint_value]. rewrite byte.unsigned_of_Z. unfold byte.wrap.
    rewrite Z.mod_small by lia.
    destruct fr as [| fr]; [lia |]. cbn [Nat.eqb].
    destruct (Z.ltb_spec v 0x80); [| lia].
    f_equal. f_equal. f_equal. change 0x7f with (Z.ones 7).
    rewrite Z.land_ones by lia. apply Z.mod_small. lia.
  - change (2 ^ (7 * Z.of_nat 1)) with 128 in Hv. lia.
  - cbn [app Pbf.varint_value]. rewrite byte.unsigned_of_Z. unfold byte.wrap.
    rewrite Z.mod_small by lia.
    destruct fr as [| fr]; [lia |]. cbn [Nat.eqb].
    destruct (Z.ltb_spec v 0x80); [| lia].
    f_equal. f_equal. f_equal. change 0x7f with (Z.ones 7).
    rewrite Z.land_ones by lia. apply Z.mod_small. lia.
  - cbn [app Pbf.varint_value].
    destruct (continuation_byte v) as [Hhigh Hgroup].
    destruct (Z.ltb_spec (byte.unsigned (byte.of_Z (Z.lor (Z.land v 0x7f) 0x80))) 0x80);
      [lia |].
    destruct fr as [| fr]; [lia |]. cbn [Nat.eqb]. rewrite Hgroup.
    rewrite (IH fw (S fr) (shift + 7) (Z.shiftr v 7) rest); try lia.
    + f_equal. f_equal.
      * rewrite <- (low7_rest v) at 3. rewrite Z.shiftl_lor. f_equal.
        rewrite Z.shiftl_shiftl by lia. f_equal. lia.
      * unfold len. cbn [List.length]. lia.
    + rewrite Z.shiftr_div_pow2 by lia. split.
      * apply Z.div_pos; lia.
      * apply Z.div_lt_upper_bound; [lia |].
        rewrite <- Z.pow_add_r by lia.
        replace (7 + 7 * Z.of_nat (S n)) with (7 * Z.of_nat (S (S n))) by lia. lia.
Qed.

(** *** A reader in front of written bytes *)

Lemma sees_remaining (p : Pbf.Reader) (l : list byte) : sees p l -> Pbf.remaining p = l.
Proof.
  intros [pre [Hbuf Hpos]]. unfold Pbf.remaining. rewrite Hbuf, Hpos.
  apply List.skipn_app_r. unfold len. lia.
Qed.

Lemma sees_advance (p : Pbf.Reader) (chunk rest : list byte) :
  sees p (chunk ++ rest) -> sees (advance p (len chunk)) rest.
Proof.
  intros [pre [Hbuf Hpos]]. exists (pre ++ chunk). cbn [advance Pbf.buf Pbf.pos].
  rewrite Hbuf, Hpos, len_app, List.app_assoc. auto.
Qed.

Lemma sees_length (p : Pbf.Reader) (l : list byte) :
  sees p l -> Pbf.length p = Pbf.pos p + len l.
Proof.
  intros [pre [Hbuf Hpos]]. unfold Pbf.length. rewrite Hbuf, Hpos. apply len_app.
Qed.

Lemma sees_new (b : Uint8Array) : sees (Pbf.new_Reader b) b.
Proof. exists []. auto. Qed.

Lemma readVarint_sees (p : Pbf.Reader) (v : Z) (rest : list byte) :
  sees p (Pbf.varint_bytes 10 v ++ rest) -> 0 <= v < 2 ^ 63 ->
  Pbf.readVarint p = Return (v, advance p (len (Pbf.varint_bytes 10 v))).
Proof.
  intros Hsees Hv. unfold Pbf.readVarint.
  rewrite (sees_remaining _ _ Hsees).
  rewrite (varint_value_bytes 8 10 10 0 v rest); try lia.
  rewrite Z.shiftl_0_r. reflexivity.
Qed.

Lemma readBytes_sees (p : Pbf.Reader) (x : Uint8Array) (rest : list byte) :
  sees p (Pbf.varint_bytes 10 (len x) ++ x ++ rest) -> len x < 2 ^ 63 ->
  Pbf.readBytes p
  = Return (x, advance p (len (Pbf.varint_bytes 10 (len x)) + len x)).
Proof.
  intros Hsees Hx. unfold Pbf.readBytes. pose proof (len_nonneg x) as Hx0.
  rewrite (readVarint_sees p (len x) (x ++ rest) Hsees) by lia. cbn [bind].
  apply sees_advance in Hsees. destruct Hsees as [pre [Hbuf Hpos]].
  cbn [advance Pbf.buf Pbf.pos] in *. f_equal. f_equal.
  - pose proof (len_nonneg pre).
    rewrite slice_nonneg by lia. rewrite Hbuf, Hpos.
    replace (Z.to_nat (len pre)) with (List.length pre) by (unfold len; lia).
    rewrite List.skipn_app_r by reflexivity.
    replace (Z.to_nat (len x + len pre) - List.length pre)%nat with (List.length x)
      by (unfold len; lia).
    rewrite List.firstn_app, List.firstn_all, Nat.sub_diag. cbn [firstn].
    apply List.app_nil_r.
  - unfold advance. cbn [Pbf.buf Pbf.pos]. f_equal. lia.
Qed.

(** *** The loop of [readFields] *)

Lemma readFields_loop_done {A : Type} (fuel : nat)
  (readField : Z -> A -> Pbf.Reader -> Completion (A * Pbf.Reader))
  (result : A) (end_ : Z) (p : Pbf.Reader) :
  end_ <= Pbf.pos p -> Pbf.readFields_loop fuel readField result end_ p = Return (result, p).
Proof.
  intros H. destruct fuel; cbn [Pbf.readFields_loop];
    destruct (Z.ltb_spec (Pbf.pos p) end_); try lia; reflexivity.
Qed.

Lemma readFields_loop_step {A : Type} (fuel : nat)
  (readField : Z -> A -> Pbf.Reader -> Completion (A * Pbf.Reader))
  (result result' : A) (end_ val : Z) (p p1 p2 : Pbf.Reader) :
  Pbf.pos p < end_ ->
  Pbf.readVarint p = Return (val, p1) ->
  readField (Z.shiftr (Pbf.toInt32 val) 3) result p1 = Return (result', p2) ->
  Pbf.pos p2 <> Pbf.pos p1 ->
  Pbf.readFields_loop (S fuel) readField result end_ p
  = Pbf.readFields_loop fuel readField result' end_ p2.
Proof.
  intros Hlt Hvar Hfield Hmoved. cbn [Pbf.readFields_loop].
  destruct (Z.ltb_spec (Pbf.pos p) end_); [| lia].
  rewrite Hvar. cbn [bind]. rewrite Hfield. cbn [bind].
  destruct (Z.eqb_spec (Pbf.pos p2) (Pbf.pos p1)); [contradiction |]. reflexivity.
Qed.

(** More fuel does not change a result. *)
Lemma readFields_loop_more_fuel {A : Type}
  (readField : Z -> A -> Pbf.Reader -> Completion (A * Pbf.Reader)) (end_ : Z) :
  forall (fuel fuel' : nat) (result : A) (p : Pbf.Reader) (out : A * Pbf.Reader),
    Pbf.readFields_loop fuel readField result end_ p = Return out ->
    (fuel <= fuel')%nat ->
    Pbf.readFields_loop fuel' readField result end_ p = Return out.
Proof.
  induction fuel as [| fuel IH]; intros fuel' result p out Hrun Hle.
  - cbn [Pbf.readFields_loop] in Hrun.
    destruct (Z.ltb_spec (Pbf.pos p) end_); [discriminate |].
    rewrite readFields_loop_done by lia. exact Hrun.
  - destruct fuel' as [| fuel']; [lia |].
    cbn [Pbf.readFields_loop] in *.
    destruct (Z.ltb_spec (Pbf.pos p) end_); [| exact Hrun].
    destruct (Pbf.readVarint p) as [[val p1] |]; [| discriminate].
    cbn [bind] in *.
    destruct (readField _ result p1) as [[result' p2] |]; [| discriminate].
    cbn [bind] in *.
    destruct (if Pbf.pos p2 =? Pbf.pos p1 then Pbf.skip val p2 else Return p2) as [p3 |];
      [| discriminate].
    cbn [bind] in *. apply IH; [exact Hrun | lia].
Qed.

(** *** The fuel of [readFields] is never used up *)

Lemma varint_value_consumed (fuel : nat) :
  forall (shift : Z) (l : list byte) (v k : Z),
    0 <= shift -> Pbf.varint_value fuel shift l = Some (v, k) ->
    1 <= k <= len l /\ 0 <= v.
Proof.
  induction fuel as [| fuel IH]; intros shift l v k Hshift H; [discriminate H |].
  destruct l as [| b l]; [discriminate H |].
  cbn [Pbf.varint_value] in H.
  assert (Hgroup : 0 <= Z.shiftl (Z.land (byte.unsigned b)
                                    (if Nat.eqb fuel 0 then 1 else 127)) shift).
  { apply Z.shiftl_nonneg. apply Z.land_nonneg. left.
    pose proof (byte.unsigned_range b). lia. }
  destruct (byte.unsigned b <? 128).
  - injection H as <- <-. unfold len. cbn [List.length]. split; [lia | exact Hgroup].
  - destruct (Pbf.varint_value fuel (shift + 7) l) as [[v' k'] |] eqn:E; [| discriminate H].
    injection H as <- <-. destruct (IH (shift + 7) l v' k' ltac:(lia) E) as [Hk Hv].
    unfold len in *. cbn [List.length]. split; [lia |].
    apply Z.lor_nonneg. split; assumption.
Qed.

Lemma readVarint_forward (p p1 : Pbf.Reader) (v : Z) :
  0 <= Pbf.pos p -> Pbf.readVarint p = Return (v, p1) ->
  Pbf.buf p1 = Pbf.buf p /\ Pbf.pos p < Pbf.pos p1 /\ (unread p1 < unread p)%nat /\ 0 <= v.
Proof.
  intros Hpos. unfold Pbf.readVarint.
  destruct (Pbf.varint_value 10 0 (Pbf.remaining p)) as [[v' k] |] eqn:E; [| discriminate].
  intros H. injection H as <- <-.
  destruct (varint_value_consumed 10 0 _ v' k ltac:(lia) E) as [Hk Hv].
  unfold Pbf.remaining, len in Hk. rewrite List.length_skipn in Hk.
  unfold unread. cbn [Pbf.buf Pbf.pos]. repeat split; try lia.
Qed.

Lemma skip_forward (val : Z) (p p' : Pbf.Reader) :
  0 <= Pbf.pos p -> Pbf.skip val p = Return p' ->
  Pbf.buf p' = Pbf.buf p /\ Pbf.pos p <= Pbf.pos p'.
Proof.
  intros Hpos. unfold Pbf.skip.
  destruct (_ =? Pbf.PBF_VARINT).
  { intros [= <-]. cbn [Pbf.buf Pbf.pos]. split; [reflexivity |].
    assert (0 < Pbf.varint_extent (Pbf.remaining p)); [| lia].
    generalize (Pbf.remaining p). intros l. induction l as [| b l IH]; cbn [Pbf.varint_extent]; [lia |].
    destruct (byte.unsigned b >? 127); lia. }
  destruct (_ =? Pbf.PBF_BYTES).
  { destruct (Pbf.readVarint p) as [[n p1] |] eqn:E; [| discriminate].
    cbn [bind]. intros [= <-]. cbn [Pbf.buf Pbf.pos].
    destruct (readVarint_forward p p1 n Hpos E) as [Hbuf [Hlt [_ Hn]]]. split; [exact Hbuf | lia]. }
  destruct (_ =? Pbf.PBF_FIXED32); [intros [= <-]; cbn [Pbf.buf Pbf.pos]; split; [reflexivity | lia] |].
  destruct (_ =? Pbf.PBF_FIXED64); [intros [= <-]; cbn [Pbf.buf Pbf.pos]; split; [reflexivity | lia] |].
  discriminate.
Qed.

Lemma unread_le (p p' : Pbf.Reader) :
  Pbf.buf p' = Pbf.buf p -> Pbf.pos p <= Pbf.pos p' -> (unread p' <= unread p)%nat.
Proof. unfold unread. intros -> H. lia. Qed.

(** One iteration of the loop: the reader after the field, which has fewer
    unread bytes, or an error. *)
Lemma readFields_iteration {A : Type}
  (readField : Z -> A -> Pbf.Reader -> Completion (A * Pbf.Reader)) (result : A)
  (p : Pbf.Reader) :
  forward readField -> 0 <= Pbf.pos p ->
  forall val p1 result' p2 p3,
    Pbf.readVarint p = Return (val, p1) ->
    readField (Z.shiftr (Pbf.toInt32 val) 3) result p1 = Return (result', p2) ->
    (if Pbf.pos p2 =? Pbf.pos p1 then Pbf.skip val p2 else Return p2) = Return p3 ->
    Pbf.buf p3 = Pbf.buf p /\ Pbf.pos p <= Pbf.pos p3 /\ (unread p3 < unread p)%nat.
Proof.
  intros Hforward Hpos val p1 result' p2 p3 Hvar Hfield Hskip.
  destruct (readVarint_forward p p1 val Hpos Hvar) as [Hbuf1 [Hlt1 [Hun1 _]]].
  assert (Hpos1 : 0 <= Pbf.pos p1) by lia.
  destruct (Hforward _ _ _ _ _ Hpos1 Hfield) as [Hbuf2 Hle2].
  assert (H3 : Pbf.buf p3 = Pbf.buf p2 /\ Pbf.pos p2 <= Pbf.pos p3).
  { destruct (Pbf.pos p2 =? Pbf.pos p1).
    - apply (skip_forward val); [lia | exact Hskip].
    - injection Hskip as <-. split; [reflexivity | lia]. }
  destruct H3 as [Hbuf3 Hle3].
  split; [congruence |]. split; [lia |].
  pose proof (unread_le p1 p3 ltac:(congruence) ltac:(lia)). lia.
Qed.

(** With a forward field reader, any two amounts of fuel above the number of
    unread bytes give the same result: the loop never stops for lack of
    fuel. *)
Lemma readFields_loop_fuel {A : Type}
  (readField : Z -> A -> Pbf.Reader -> Completion (A * Pbf.Reader)) (end_ : Z) :
  forward readField ->
  forall (fuel fuel' : nat) (result : A) (p : Pbf.Reader),
    0 <= Pbf.pos p -> (unread p < fuel)%nat -> (unread p < fuel')%nat ->
    Pbf.readFields_loop fuel readField result end_ p
    = Pbf.readFields_loop fuel' readField result end_ p.
Proof.
  intros Hforward. induction fuel as [| fuel IH]; intros fuel' result p Hpos Hf Hf'; [lia |].
  destruct fuel' as [| fuel']; [lia |].
  cbn [Pbf.readFields_loop]. destruct (Pbf.pos p <? end_); [| reflexivity].
  destruct (Pbf.readVarint p) as [[val p1] |] eqn:Hvar; [| reflexivity]. cbn [bind].
  destruct (readField _ result p1) as [[result' p2] |] eqn:Hfield; [| reflexivity].
  cbn [bind].
  destruct (if Pbf.pos p2 =? Pbf.pos p1 then Pbf.skip val p2 else Return p2)
    as [p3 |] eqn:Hskip; [| reflexivity].
  cbn [bind].
  destruct (readFields_iteration readField result p Hforward Hpos _ _ _ _ _ Hvar Hfield Hskip)
    as [_ [Hle Hun]].
  apply IH; lia.
Qed.

(** The loop itself only moves forward. *)
Lemma readFields_loop_forward {A : Type}
  (readField : Z -> A -> Pbf.Reader -> Completion (A * Pbf.Reader)) (end_ : Z) :
  forward readField ->
  forall (fuel : nat) (result result' : A) (p p' : Pbf.Reader),
    0 <= Pbf.pos p ->
    Pbf.readFields_loop fuel readField result end_ p = Return (result', p') ->
    Pbf.buf p' = Pbf.buf p /\ Pbf.pos p <= Pbf.pos p'.
Proof.
  intros Hforward. induction fuel as [| fuel IH]; intros result result' p p' Hpos;
    cbn [Pbf.readFields_loop]; destruct (Pbf.pos p <? end_);
    try discriminate; try (intros [= <- <-]; split; [reflexivity | lia]).
  destruct (Pbf.readVarint p) as [[val p1] |] eqn:Hvar; [| discriminate]. cbn [bind].
  destruct (readField _ result p1) as [[result1 p2] |] eqn:Hfield; [| discriminate].
  cbn [bind].
  destruct (if Pbf.pos p2 =? Pbf.pos p1 then Pbf.skip val p2 else Return p2)
    as [p3 |] eqn:Hskip; [| discriminate].
  cbn [bind]. intros Hrest.
  destruct (readFields_iteration readField result p Hforward Hpos _ _ _ _ _ Hvar Hfield Hskip)
    as [Hbuf [Hle _]].
  assert (Hpos3 : 0 <= Pbf.pos p3) by lia.
  destruct (IH _ _ _ _ Hpos3 Hrest) as [Hbuf' Hle'].
  split; [congruence | lia].
Qed.

Lemma readBytes_forward (p p' : Pbf.Reader) (b : Uint8Array) :
  0 <= Pbf.pos p -> Pbf.readBytes p = Return (b, p') ->
  Pbf.buf p' = Pbf.buf p /\ Pbf.pos p <= Pbf.pos p'.
Proof.
  intros Hpos. unfold Pbf.readBytes.
  destruct (Pbf.readVarint p) as [[n p1] |] eqn:E; [| discriminate]. cbn [bind].
  intros [= <- <-]. cbn [Pbf.buf Pbf.pos].
  destruct (readVarint_forward p p1 n Hpos E) as [Hbuf [Hlt [_ Hn]]]. split; [exact Hbuf | lia].
Qed.

(** The field readers of [crx3.pb.js] move forward. *)
Lemma AsymmetricKeyProof_readField_forward : forward crx3.AsymmetricKeyProof._readField.
Proof.
  intros tag result p result' p' Hpos. unfold crx3.AsymmetricKeyProof._readField.
  destruct (tag =? 1); [| destruct (tag =? 2)];
    try (destruct (Pbf.readBytes p) as [[b p1] |] eqn:E; [| discriminate]; cbn [bind];
         intros [= <- <-]; apply (readBytes_forward p p1 b Hpos E)).
  intros [= <- <-]. split; [reflexivity | lia].
Qed.

Lemma SignedData_readField_forward : forward crx3.SignedData._readField.
Proof.
  intros tag result p result' p' Hpos. unfold crx3.SignedData._readField.
  destruct (tag =? 1);
    try (destruct (Pbf.readBytes p) as [[b p1] |] eqn:E; [| discriminate]; cbn [bind];
         intros [= <- <-]; apply (readBytes_forward p p1 b Hpos E)).
  intros [= <- <-]. split; [reflexivity | lia].
Qed.

Lemma CrxFileHeader_readField_forward : forward crx3.CrxFileHeader._readField.
Proof.
  intros tag result p result' p' Hpos. unfold crx3.CrxFileHeader._readField.
  destruct (tag =? 2); [| destruct (tag =? 3); [| destruct (tag =? 10000)]].
  - destruct (Pbf.readVarint p) as [[n p1] |] eqn:E; [| discriminate]. cbn [bind].
    destruct (readVarint_forward p p1 n Hpos E) as [Hbuf [Hlt _]].
    destruct (crx3.AsymmetricKeyProof.read p1 _) as [[proof p2] |] eqn:E2; [| discriminate].
    cbn [bind]. destruct (crx3.CrxFileHeader.push _ proof); [| discriminate]. cbn [bind].
    intros [= <- <-].
    assert (Hpos1 : 0 <= Pbf.pos p1) by lia.
    destruct (readFields_loop_forward _ _ AsymmetricKeyProof_readField_forward _ _ _ _ _
                Hpos1 E2) as [Hbuf2 Hle2].
    split; [congruence | lia].
  - destruct (Pbf.readVarint p) as [[n p1] |] eqn:E; [| discriminate]. cbn [bind].
    destruct (readVarint_forward p p1 n Hpos E) as [Hbuf [Hlt _]].
    destruct (crx3.AsymmetricKeyProof.read p1 _) as [[proof p2] |] eqn:E2; [| discriminate].
    cbn [bind]. destruct (crx3.CrxFileHeader.push _ proof); [| discriminate]. cbn [bind].
    intros [= <- <-].
    assert (Hpos1 : 0 <= Pbf.pos p1) by lia.
    destruct (readFields_loop_forward _ _ AsymmetricKeyProof_readField_forward _ _ _ _ _
                Hpos1 E2) as [Hbuf2 Hle2].
    split; [congruence | lia].
  - destruct (Pbf.readBytes p) as [[b p1] |] eqn:E; [| discriminate]. cbn [bind].
    intros [= <- <-]. apply (readBytes_forward p p1 b Hpos E).
  - intros [= <- <-]. split; [reflexivity | lia].
Qed.

(** [unpack] reads a header with the fuel of [readFields]; any larger fuel
    reads the same. *)
Lemma CrxFileHeader_read_fuel (header : Uint8Array) (fuel : nat) :
  (List.length header < fuel)%nat ->
  Pbf.readFields_loop fuel crx3.CrxFileHeader._readField
    {| sha256_with_rsa := Some []; sha256_with_ecdsa := Some [];
       signed_header_data := None |} (len header) (Pbf.new_Reader header)
  = crx3.CrxFileHeader.read (Pbf.new_Reader header) None.
Proof.
  intros Hfuel. unfold crx3.CrxFileHeader.read, Pbf.readFields.
  apply (readFields_loop_fuel _ _ CrxFileHeader_readField_forward);
    unfold unread; cbn [Pbf.new_Reader Pbf.buf Pbf.pos]; lia.
Qed.

(** *** What the generated writers emit *)

Lemma writeBytesField_bytes (tag : Z) (buffer : Uint8Array) (w : Pbf.Writer) :
  Pbf.writeBytesField tag buffer w
  = w ++ Pbf.varint_bytes 10 (Z.lor (Z.shiftl tag 3) Pbf.PBF_BYTES)
      ++ Pbf.varint_bytes 10 (len buffer) ++ buffer.
Proof.
  unfold Pbf.writeBytesField, Pbf.writeBytes, Pbf.writeTag, Pbf.writeVarint.
  rewrite <- !List.app_assoc. reflexivity.
Qed.

Lemma AsymmetricKeyProof_write_bytes (publicKey sg : Uint8Array) (w : Pbf.Writer) :
  crx3.AsymmetricKeyProof.write {| public_key := Some publicKey; signature := Some sg |} w
  = w ++ proof_bytes publicKey sg.
Proof.
  unfold crx3.AsymmetricKeyProof.write, proof_bytes. cbn [public_key signature].
  rewrite !writeBytesField_bytes, <- !List.app_assoc. reflexivity.
Qed.

Lemma writeRawMessage_bytes {A : Type} (fn : A -> Pbf.Writer -> Pbf.Writer) (obj : A)
  (body : list byte) (w : Pbf.Writer) :
  (forall w', fn obj w' = w' ++ body) ->
  Pbf.writeRawMessage fn obj w = w ++ Pbf.varint_bytes 10 (len body) ++ body.
Proof.
  intros Hfn. unfold Pbf.writeRawMessage. cbv zeta. rewrite Hfn.
  rewrite List.length_app. cbn [List.length].
  replace (List.length w + 1 - 1)%nat with (List.length w) by lia.
  rewrite <- (List.app_assoc w [Byte.x00] body).
  rewrite List.firstn_app, List.firstn_all, Nat.sub_diag. cbn [firstn].
  rewrite List.app_nil_r. f_equal. f_equal.
  - f_equal. rewrite !len_app. unfold len. cbn [List.length]. lia.
  - rewrite (List.app_assoc w [Byte.x00] body).
    apply List.skipn_app_r. rewrite List.length_app. reflexivity.
Qed.

Lemma SignedData_write_bytes (crxId : Uint8Array) :
  Pbf.finish (crx3.SignedData.write {| crx_id := Some crxId |} Pbf.new_Writer)
  = signed_data_bytes crxId.
Proof.
  unfold crx3.SignedData.write, Pbf.finish, Pbf.new_Writer. cbn [crx_id].
  rewrite writeBytesField_bytes. reflexivity.
Qed.

Lemma CrxFileHeader_write_bytes (publicKey sg signedHeaderData : Uint8Array) :
  Pbf.finish
    (crx3.CrxFileHeader.write
       {| sha256_with_rsa := Some [ {| public_key := Some publicKey;
                                       signature := Some sg |} ];
          sha256_with_ecdsa := None;
          signed_header_data := Some signedHeaderData |} Pbf.new_Writer)
  = header_bytes publicKey sg signedHeaderData.
Proof.
  unfold crx3.CrxFileHeader.write, crx3.CrxFileHeader.write_proofs, Pbf.finish,
    Pbf.new_Writer, header_bytes.
  cbn [sha256_with_rsa sha256_with_ecdsa signed_header_data fold_left].
  unfold Pbf.writeMessage.
  rewrite (writeRawMessage_bytes _ _ (proof_bytes publicKey sg))
    by (intros w'; apply AsymmetricKeyProof_write_bytes).
  rewrite writeBytesField_bytes. unfold Pbf.writeTag, Pbf.writeVarint.
  rewrite <- !List.app_assoc. reflexivity.
Qed.

(** *** Reading the header back *)

Lemma advance_advance (p : Pbf.Reader) (a b : Z) :
  advance (advance p a) b = advance p (a + b).
Proof. unfold advance. cbn [Pbf.buf Pbf.pos]. f_equal. lia. Qed.

Lemma advance_eq (p : Pbf.Reader) (a b : Z) : a = b -> advance p a = advance p b.
Proof. intros ->. reflexivity. Qed.

Lemma sees_advance2 (p : Pbf.Reader) (a b rest : list byte) :
  sees p (a ++ b ++ rest) -> sees (advance p (len a + len b)) rest.
Proof.
  intros H. rewrite List.app_assoc in H. apply sees_advance in H.
  rewrite len_app in H. exact H.
Qed.

Lemma len_proof_bytes (publicKey sg : Uint8Array) :
  len (proof_bytes publicKey sg)
  = 1 + (len (Pbf.varint_bytes 10 (len publicKey)) + len publicKey)
    + (1 + (len (Pbf.varint_bytes 10 (len sg)) + len sg)).
Proof.
  unfold proof_bytes. rewrite !len_app. change (len [Byte.x0a]) with 1.
  change (len [Byte.x12]) with 1. lia.
Qed.

Lemma AsymmetricKeyProof_read_sees (p : Pbf.Reader) (publicKey sg : Uint8Array)
  (tail : list byte) :
  sees p (proof_bytes publicKey sg ++ tail) ->
  len publicKey < 2 ^ 63 -> len sg < 2 ^ 63 ->
  crx3.AsymmetricKeyProof.read p (Some (len (proof_bytes publicKey sg) + Pbf.pos p))
  = Return ({| public_key := Some publicKey; signature := Some sg |},
            advance p (len (proof_bytes publicKey sg))).
Proof.
  intros Hsees Hpk Hsg.
  pose proof (len_nonneg publicKey) as Hpk0. pose proof (len_nonneg sg) as Hsg0.
  pose proof (varint_bytes_nonempty 9 (len publicKey)) as Hvp.
  pose proof (varint_bytes_nonempty 9 (len sg)) as Hvs.
  pose proof (len_proof_bytes publicKey sg) as Hlen.
  unfold crx3.AsymmetricKeyProof.read, Pbf.readFields.
  apply (readFields_loop_more_fuel _ _ 2).
  2:{ destruct Hsees as [pre [Hbuf _]]. rewrite Hbuf, List.length_app.
      unfold proof_bytes. cbn [app List.length]. lia. }
  unfold proof_bytes in Hsees. rewrite <- !List.app_assoc in Hsees.
  (* field 1: the public key *)
  pose proof (sees_advance p [Byte.x0a] _ Hsees) as Hsees1.
  change (len [Byte.x0a]) with 1 in Hsees1.
  rewrite (readFields_loop_step 1 _ _
             {| public_key := Some publicKey; signature := None |} _ 10 p
             (advance p 1)
             (advance (advance p 1) (len (Pbf.varint_bytes 10 (len publicKey)) + len publicKey))).
  2:{ lia. }
  2:{ apply (readVarint_sees p 10 _ Hsees). lia. }
  2:{ change (Z.shiftr (Pbf.toInt32 10) 3) with 1.
      unfold crx3.AsymmetricKeyProof._readField. cbn [Z.eqb Pos.eqb].
      rewrite (readBytes_sees _ publicKey _ Hsees1) by lia. reflexivity. }
  2:{ cbn [advance Pbf.buf Pbf.pos]. lia. }
  (* field 2: the signature *)
  apply sees_advance2 in Hsees1.
  pose proof (sees_advance _ [Byte.x12] _ Hsees1) as Hsees2.
  change (len [Byte.x12]) with 1 in Hsees2.
  rewrite !advance_advance in *.
  rewrite (readFields_loop_step 0 _ _
             {| public_key := Some publicKey; signature := Some sg |} _ 18 _
             (advance p (1 + (len (Pbf.varint_bytes 10 (len publicKey)) + len publicKey + 1)))
             (advance p (len (proof_bytes publicKey sg)))).
  - apply readFields_loop_done. cbn [advance Pbf.buf Pbf.pos]. lia.
  - cbn [advance Pbf.buf Pbf.pos]. lia.
  - rewrite (readVarint_sees _ 18 _ Hsees1) by lia.
    rewrite advance_advance. do 2 f_equal. apply advance_eq.
    change (len (Pbf.varint_bytes 10 18)) with 1. lia.
  - change (Z.shiftr (Pbf.toInt32 18) 3) with 2.
    unfold crx3.AsymmetricKeyProof._readField. cbn [Z.eqb Pos.eqb public_key].
    rewrite (readBytes_sees _ sg _ Hsees2) by lia.
    rewrite advance_advance. cbn [bind]. do 2 f_equal. apply advance_eq. lia.
  - cbn [advance Pbf.buf Pbf.pos]. lia.
Qed.

Lemma len_header_bytes (publicKey sg signedHeaderData : Uint8Array) :
  len (header_bytes publicKey sg signedHeaderData)
  = 1 + len (Pbf.varint_bytes 10 (len (proof_bytes publicKey sg)))
    + len (proof_bytes publicKey sg)
    + (3 + (len (Pbf.varint_bytes 10 (len signedHeaderData)) + len signedHeaderData)).
Proof.
  unfold header_bytes. rewrite !len_app. change (len [Byte.x12]) with 1.
  change (len [Byte.x82; Byte.xf1; Byte.x04]) with 3. lia.
Qed.

(** A header of at most 2^32 bytes keeps every length inside the range of
    the varint lemmas. *)
Lemma header_fields_small (publicKey sg signedHeaderData : Uint8Array) :
  len (header_bytes publicKey sg signedHeaderData) < 2 ^ 32 ->
  len publicKey < 2 ^ 63 /\ len sg < 2 ^ 63 /\ len signedHeaderData < 2 ^ 63 /\
  len (proof_bytes publicKey sg) < 2 ^ 63.
Proof.
  rewrite len_header_bytes, len_proof_bytes.
  pose proof (len_nonneg publicKey). pose proof (len_nonneg sg).
  pose proof (len_nonneg signedHeaderData).
  pose proof (varint_bytes_nonempty 9 (len publicKey)).
  pose proof (varint_bytes_nonempty 9 (len sg)).
  pose proof (varint_bytes_nonempty 9 (len signedHeaderData)).
  pose proof (varint_bytes_nonempty 9
                (1 + (len (Pbf.varint_bytes 10 (len publicKey)) + len publicKey)
                 + (1 + (len (Pbf.varint_bytes 10 (len sg)) + len sg)))).
  lia.
Qed.

(** Reading the header that [packCrx3] writes gives its three fields back. *)
Lemma CrxFileHeader_read_header (publicKey sg signedHeaderData : Uint8Array) :
  len (header_bytes publicKey sg signedHeaderData) < 2 ^ 32 ->
  crx3.CrxFileHeader.read (Pbf.new_Reader (header_bytes publicKey sg signedHeaderData)) None
  = Return ({| sha256_with_rsa := Some [ {| public_key := Some publicKey;
                                            signature := Some sg |} ];
               sha256_with_ecdsa := Some [];
               signed_header_data := Some signedHeaderData |},
            advance (Pbf.new_Reader (header_bytes publicKey sg signedHeaderData))
                    (len (header_bytes publicKey sg signedHeaderData))).
Proof.
  intros Hsmall.
  destruct (header_fields_small _ _ _ Hsmall) as [Hpk [Hsg [Hshd Hproof]]].
  pose proof (len_header_bytes publicKey sg signedHeaderData) as Hlen.
  pose proof (len_nonneg (proof_bytes publicKey sg)) as Hproof0.
  pose proof (len_nonneg signedHeaderData) as Hshd0.
  pose proof (varint_bytes_nonempty 9 (len (proof_bytes publicKey sg))) as Hv1.
  pose proof (varint_bytes_nonempty 9 (len signedHeaderData)) as Hv2.
  set (header := header_bytes publicKey sg signedHeaderData) in *.
  set (p := Pbf.new_Reader header).
  assert (Hsees : sees p ([Byte.x12] ++ Pbf.varint_bytes 10 (len (proof_bytes publicKey sg))
                          ++ proof_bytes publicKey sg
                          ++ [Byte.x82; Byte.xf1; Byte.x04]
                          ++ Pbf.varint_bytes 10 (len signedHeaderData)
                          ++ signedHeaderData ++ [])).
  { rewrite List.app_nil_r. apply sees_new. }
  unfold crx3.CrxFileHeader.read, Pbf.readFields, Pbf.length.
  change (len (Pbf.buf p)) with (len header).
  apply (readFields_loop_more_fuel _ _ 2).
  2:{ change (Pbf.buf p) with header. subst header. unfold header_bytes.
      cbn [app List.length]. lia. }
  (* field 2: the RSA proof *)
  pose proof (sees_advance p [Byte.x12] _ Hsees) as Hsees1.
  change (len [Byte.x12]) with 1 in Hsees1.
  pose proof (sees_advance _ _ _ Hsees1) as Hsees2. rewrite advance_advance in Hsees2.
  pose proof (sees_advance _ _ _ Hsees2) as Hsees3. rewrite advance_advance in Hsees3.
  pose proof (sees_advance _ [Byte.x82; Byte.xf1; Byte.x04] _ Hsees3) as Hsees4.
  rewrite advance_advance in Hsees4.
  change (len [Byte.x82; Byte.xf1; Byte.x04]) with 3 in Hsees4.
  rewrite (readFields_loop_step 1 _ _
             {| sha256_with_rsa := Some [ {| public_key := Some publicKey;
                                             signature := Some sg |} ];
                sha256_with_ecdsa := Some [];
                signed_header_data := None |} _ 18 p (advance p 1)
             (advance p (1 + len (Pbf.varint_bytes 10 (len (proof_bytes publicKey sg)))
                         + len (proof_bytes publicKey sg)))).
  2:{ change (Pbf.pos p) with 0. lia. }
  2:{ apply (readVarint_sees p 18 _ Hsees). lia. }
  2:{ change (Z.shiftr (Pbf.toInt32 18) 3) with 2.
      unfold crx3.CrxFileHeader._readField. cbn [Z.eqb Pos.eqb].
      rewrite (readVarint_sees _ _ _ Hsees1) by lia. cbn [bind].
      rewrite advance_advance.
      rewrite (AsymmetricKeyProof_read_sees _ publicKey sg _ Hsees2) by lia.
      cbn [bind crx3.CrxFileHeader.push sha256_with_rsa sha256_with_ecdsa
             signed_header_data app].
      rewrite advance_advance. reflexivity. }
  2:{ cbn [advance Pbf.buf Pbf.pos]. lia. }
  (* field 10000: the signed header data *)
  rewrite (readFields_loop_step 0 _ _
             {| sha256_with_rsa := Some [ {| public_key := Some publicKey;
                                             signature := Some sg |} ];
                sha256_with_ecdsa := Some [];
                signed_header_data := Some signedHeaderData |} _ 80002 _
             (advance p (1 + len (Pbf.varint_bytes 10 (len (proof_bytes publicKey sg)))
                         + len (proof_bytes publicKey sg) + 3))
             (advance p (len header))).
  - apply readFields_loop_done. cbn [advance Pbf.buf Pbf.pos]. change (Pbf.pos p) with 0. lia.
  - cbn [advance Pbf.buf Pbf.pos]. change (Pbf.pos p) with 0. lia.
  - rewrite (readVarint_sees _ 80002 _ Hsees3) by lia.
    rewrite advance_advance. reflexivity.
  - change (Z.shiftr (Pbf.toInt32 80002) 3) with 10000.
    unfold crx3.CrxFileHeader._readField. cbn [Z.eqb Pos.eqb].
    rewrite (readBytes_sees _ signedHeaderData _ Hsees4) by lia.
    rewrite advance_advance. cbn [bind sha256_with_rsa sha256_with_ecdsa].
    do 2 f_equal. apply advance_eq. lia.
  - cbn [advance Pbf.buf Pbf.pos]. lia.
Qed.

(** Reading the signed header data gives the identifier back. *)
Lemma SignedData_read_bytes (crxId : Uint8Array) :
  len crxId < 2 ^ 63 ->
  crx3.SignedData.read (Pbf.new_Reader (signed_data_bytes crxId)) None
  = Return ({| crx_id := Some crxId |},
            advance (Pbf.new_Reader (signed_data_bytes crxId)) (len (signed_data_bytes crxId))).
Proof.
  intros Hsmall. pose proof (len_nonneg crxId) as H0.
  pose proof (varint_bytes_nonempty 9 (len crxId)) as Hv.
  set (p := Pbf.new_Reader (signed_data_bytes crxId)).
  assert (Hsees : sees p ([Byte.x0a] ++ Pbf.varint_bytes 10 (len crxId) ++ crxId ++ [])).
  { rewrite List.app_nil_r. apply sees_new. }
  assert (Hlen : len (signed_data_bytes crxId)
                 = 1 + (len (Pbf.varint_bytes 10 (len crxId)) + len crxId)).
  { unfold signed_data_bytes. rewrite !len_app. reflexivity. }
  unfold crx3.SignedData.read, Pbf.readFields, Pbf.length.
  change (len (Pbf.buf p)) with (len (signed_data_bytes crxId)).
  apply (readFields_loop_more_fuel _ _ 1).
  2:{ change (Pbf.buf p) with (signed_data_bytes crxId). unfold signed_data_bytes.
      cbn [app List.length]. lia. }
  pose proof (sees_advance p [Byte.x0a] _ Hsees) as Hsees1.
  change (len [Byte.x0a]) with 1 in Hsees1.
  rewrite (readFields_loop_step 0 _ _ {| crx_id := Some crxId |} _ 10 p (advance p 1)
             (advance p (len (signed_data_bytes crxId)))).
  - apply readFields_loop_done. cbn [advance Pbf.buf Pbf.pos]. change (Pbf.pos p) with 0. lia.
  - change (Pbf.pos p) with 0. lia.
  - apply (readVarint_sees p 10 _ Hsees). lia.
  - change (Z.shiftr (Pbf.toInt32 10) 3) with 1.
    unfold crx3.SignedData._readField. cbn [Z.eqb Pos.eqb].
    rewrite (readBytes_sees _ crxId _ Hsees1) by lia.
    rewrite advance_advance. cbn [bind]. do 2 f_equal. apply advance_eq. lia.
  - cbn [advance Pbf.buf Pbf.pos]. lia.
Qed.

(** ** Version 3 containers *)

Lemma generateBinaryCrxId_digest (publicKey : Uint8Array) :
  generateBinaryCrxId publicKey = firstn 16 (sha256 publicKey)
  /\ List.length (generateBinaryCrxId publicKey) = 16%nat.
Proof.
  unfold generateBinaryCrxId, CRX_ID_SIZE. rewrite slice_nonneg by lia.
  change (Z.to_nat 16 - Z.to_nat 0)%nat with 16%nat. cbn [Z.to_nat skipn].
  split; [reflexivity |]. rewrite List.length_firstn, sha256_length. reflexivity.
Qed.

Lemma toSign_bytes (signedHeaderData contents : Uint8Array) :
  toSign signedHeaderData contents
  = Return (kSignatureContext ++ le_split 4 (len signedHeaderData)
            ++ signedHeaderData ++ contents).
Proof.
  unfold toSign, new_Uint8Array, SIZE_BYTES.
  assert (E : setUint32 (repeat Byte.x00 (Z.to_nat 4)) 0 (len signedHeaderData)
              = Return (le_split 4 (len signedHeaderData))).
  { pose proof (setUint32_fill [] 4 0 (len signedHeaderData) eq_refl (Nat.le_refl 4)) as H.
    cbn [app Nat.sub repeat] in H. rewrite List.app_nil_r in H. exact H. }
  rewrite E. cbn [bind Buffer_concat List.concat]. rewrite List.app_nil_r. reflexivity.
Qed.

(** The container that [packCrx3] returns once the signature is made. *)
Lemma packCrx3_bytes (privateKey publicKey contents sg : Uint8Array) (rsa : option RSA) :
  let signedHeaderData := signed_data_bytes (generateBinaryCrxId publicKey) in
  let header := header_bytes publicKey sg signedHeaderData in
  generateCrx3Signature privateKey signedHeaderData contents rsa = Return sg ->
  packCrx3 privateKey publicKey contents rsa
  = Return (kSignature ++ kVersion ++ le_split 4 (len header) ++ header ++ contents).
Proof.
  intros signedHeaderData header Hsign. unfold packCrx3.
  rewrite SignedData_write_bytes. fold signedHeaderData. rewrite Hsign. cbn [bind].
  rewrite CrxFileHeader_write_bytes. fold header. cbv zeta.
  clear Hsign. clearbody header. clear signedHeaderData.
  unfold new_Uint8Array, SIZE_BYTES.
  change (len kSignature) with 4. change (len kVersion) with 4.
  pose proof (len_nonneg header) as Hh. pose proof (len_nonneg contents) as Hc.
  replace (Z.to_nat (4 + 4 + 4 + len header + len contents))
    with (12 + List.length header + List.length contents)%nat by (unfold len; lia).
  set (n := (12 + List.length header + List.length contents)%nat).
  assert (E : set (repeat Byte.x00 n) kSignature 0
              = Return (kSignature ++ repeat Byte.x00 (n - 4)))
    by (apply (set_fill [] kSignature n 0); [reflexivity | cbn; lia]).
  rewrite E. clear E. cbn [bind]. subst n.
  rewrite (set_fill kSignature kVersion); [cbn [bind] | fill_side | fill_side].
  rewrite setUint32_fill; [cbn [bind] | fill_side | fill_side].
  rewrite set_fill; [cbn [bind] | fill_side | fill_side].
  rewrite set_fill; [cbn [bind] | fill_side | fill_side].
  f_equal. change (List.length kVersion) with 4%nat.
  replace (_ - _)%nat with 0%nat by lia.
  cbn [repeat]. rewrite List.app_nil_r, <- !List.app_assoc. reflexivity.
Qed.

(** [unpack] on what [packCrx3] lays out, for a header shorter than 2^32. *)
Lemma unpack_crx3 (header contents : Uint8Array) :
  len header < 2 ^ 32 ->
  unpack (whole (kSignature ++ kVersion ++ le_split 4 (len header) ++ header ++ contents))
  = ('(decodedHeader, _) <- crx3.CrxFileHeader.read (Pbf.new_Reader header) None ;;
     Return (UnpackedCrx3 contents decodedHeader)).
Proof.
  intros Hsmall. pose proof (len_nonneg header) as Hh.
  set (crx := kSignature ++ kVersion ++ le_split 4 (len header) ++ header ++ contents).
  unfold unpack. rewrite elements_whole. cbn [buffer whole]. cbv zeta.
  assert (Hmagic : every (magic_callback crx) kSignature = Return true)
    by apply unpack_magic.
  rewrite Hmagic. cbn [bind].
  rewrite (getUint32_at crx kVersion (le_split 4 (len header) ++ header ++ contents) 4);
    [| lia | reflexivity | reflexivity].
  cbn [bind]. change (le_combine kVersion =? 2) with false.
  change (le_combine kVersion =? 3) with true. cbv iota.
  rewrite (getUint32_at crx (le_split 4 (len header)) (header ++ contents) 8);
    [| lia | reflexivity | apply length_le_split].
  cbn [bind]. rewrite le_combine_split.
  change (Z.of_nat 4 * 8) with 32. rewrite Z.mod_small by lia.
  set (front := kSignature ++ kVersion ++ le_split 4 (len header)).
  assert (Hcrx : crx = front ++ header ++ contents)
    by (unfold crx, front; rewrite <- !List.app_assoc; reflexivity).
  assert (Hf : List.length front = 12%nat)
    by (unfold front; rewrite !List.length_app, length_le_split; reflexivity).
  rewrite Hcrx. rewrite slice_to_end, slice_nonneg by lia.
  replace (Z.to_nat (12 + len header)) with (12 + List.length header)%nat
    by (unfold len; lia).
  change (Z.to_nat 12) with 12%nat.
  rewrite (List.skipn_app_r front _ 12) by (symmetry; exact Hf).
  rewrite (List.skipn_app_r2 front (header ++ contents) 12 (List.length header))
    by (symmetry; exact Hf).
  rewrite List.skipn_app_r by reflexivity.
  replace (12 + List.length header - 12)%nat with (List.length header) by lia.
  rewrite List.firstn_app, List.firstn_all, Nat.sub_diag. cbn [firstn].
  rewrite List.app_nil_r. reflexivity.
Qed.

Lemma len_signed_data_bytes (publicKey : Uint8Array) :
  len (signed_data_bytes (generateBinaryCrxId publicKey)) = 18.
Proof.
  destruct (generateBinaryCrxId_digest publicKey) as [_ Hlen].
  assert (Hl : len (generateBinaryCrxId publicKey) = 16) by (unfold len; lia).
  unfold signed_data_bytes. rewrite !len_app, Hl. reflexivity.
Qed.

Lemma header_bytes_bound (publicKey sg : Uint8Array) :
  len (header_bytes publicKey sg (signed_data_bytes (generateBinaryCrxId publicKey)))
  <= len publicKey + len sg + 64.
Proof.
  rewrite len_header_bytes, len_proof_bytes, len_signed_data_bytes.
  pose proof (varint_bytes_bound 10 (len publicKey)).
  pose proof (varint_bytes_bound 10 (len sg)).
  pose proof (varint_bytes_bound 10
                (1 + (len (Pbf.varint_bytes 10 (len publicKey)) + len publicKey)
                 + (1 + (len (Pbf.varint_bytes 10 (len sg)) + len sg)))).
  change (len (Pbf.varint_bytes 10 18)) with 1. lia.
Qed.

(** C2.  Once the signature is made, [packCrx3] returns a container that
    [unpack] decodes to the very contents, with a header that holds the
    public key, the signature and the signed header data; the signed header
    data decode to the first 16 bytes of the SHA-256 digest of the public
    key.  The header length field has 32 bits, which bounds the sizes.  The
    container is the array that [packCrx3] allocates, which spans its
    buffer. *)
Theorem unpack_packCrx3 (privateKey publicKey contents sg : Uint8Array) (rsa : option RSA) :
  let signedHeaderData :=
    Pbf.finish (crx3.SignedData.write {| crx_id := Some (generateBinaryCrxId publicKey) |}
                  Pbf.new_Writer) in
  generateCrx3Signature privateKey signedHeaderData contents rsa = Return sg ->
  len publicKey + len sg + 64 < 2 ^ 32 ->
  exists crx,
    packCrx3 privateKey publicKey contents rsa = Return crx /\
    unpack (whole crx)
    = Return (UnpackedCrx3 contents
                {| sha256_with_rsa := Some [ {| public_key := Some publicKey;
                                                signature := Some sg |} ];
                   sha256_with_ecdsa := Some [];
                   signed_header_data := Some signedHeaderData |}) /\
    (exists p, crx3.SignedData.read (Pbf.new_Reader signedHeaderData) None
               = Return ({| crx_id := Some (firstn 16 (sha256 publicKey)) |}, p)) /\
    List.length (firstn 16 (sha256 publicKey)) = 16%nat.
Proof.
  cbv zeta. rewrite SignedData_write_bytes. intros Hsign Hsize.
  destruct (generateBinaryCrxId_digest publicKey) as [Hid Hidlen].
  set (signedHeaderData := signed_data_bytes (generateBinaryCrxId publicKey)) in *.
  set (header := header_bytes publicKey sg signedHeaderData).
  assert (Hheader : len header < 2 ^ 32).
  { pose proof (header_bytes_bound publicKey sg). fold signedHeaderData in H.
    fold header in H. lia. }
  exists (kSignature ++ kVersion ++ le_split 4 (len header) ++ header ++ contents).
  split; [| split; [| split]].
  - apply (packCrx3_bytes privateKey publicKey contents sg rsa). exact Hsign.
  - rewrite (unpack_crx3 header contents Hheader).
    unfold header. rewrite CrxFileHeader_read_header by exact Hheader. reflexivity.
  - unfold signedHeaderData. rewrite SignedData_read_bytes.
    + rewrite Hid. eexists. reflexivity.
    + unfold len. rewrite Hidlen. lia.
  - rewrite <- Hid. exact Hidlen.
Qed.

(** ** The signed bytes *)

(** [generateCrx3Signature] signs the bytes of [toSign] with the key it was
    given or imports. *)
Lemma generateCrx3Signature_payload
  (privateKey signedHeaderData contents : Uint8Array) (rsa : option RSA) :
  generateCrx3Signature privateKey signedHeaderData contents rsa
  = (key <- rsa_or_import rsa privateKey ;;
     RSA_sign key pkcs1_sha256
       (kSignatureContext ++ le_split 4 (len signedHeaderData)
        ++ signedHeaderData ++ contents)).
Proof.
  unfold generateCrx3Signature. rewrite toSign_bytes.
  destruct (rsa_or_import rsa privateKey); reflexivity.
Qed.

(** C3, as amended.  The bytes that [generateCrx3Signature] signs, with the
    key it was given or imports, are the 16-byte context string, the length
    of the signed header data as four little-endian bytes, the signed header
    data and the contents, in this order and nothing else; the magic number
    of the container is not among them. *)
Theorem generateCrx3Signature_signs
  (privateKey signedHeaderData contents : Uint8Array) (rsa : option RSA) :
  let payload := kSignatureContext ++ le_split 4 (len signedHeaderData)
                 ++ signedHeaderData ++ contents in
  generateCrx3Signature privateKey signedHeaderData contents rsa
  = (key <- rsa_or_import rsa privateKey ;; RSA_sign key pkcs1_sha256 payload) /\
  kSignatureContext = list_byte_of_string ("CRX3 SignedData" ++ String "000"%char EmptyString) /\
  List.length kSignatureContext = 16%nat /\
  le_combine (le_split 4 (len signedHeaderData)) = len signedHeaderData mod 2 ^ 32 /\
  len payload = 16 + 4 + len signedHeaderData + len contents /\
  firstn 4 payload <> kSignature.
Proof.
  cbv zeta. split; [| split; [| split; [| split; [| split]]]].
  - apply generateCrx3Signature_payload.
  - reflexivity.
  - reflexivity.
  - apply le_combine_split.
  - rewrite !len_app, len_le_split. change (len kSignatureContext) with 16. lia.
  - discriminate.
Qed.

(** In [packCrx3] the signed header data are the 18 bytes that carry the
    identifier, and the signature goes into the header: the signed bytes
    do not depend on the header or on the framing. *)
Lemma packCrx3_signs (privateKey publicKey contents : Uint8Array) (rsa : option RSA) :
  let signedHeaderData := signed_data_bytes (generateBinaryCrxId publicKey) in
  let payload := kSignatureContext ++ le_split 4 18 ++ signedHeaderData ++ contents in
  packCrx3 privateKey publicKey contents rsa
  = (key <- rsa_or_import rsa privateKey ;;
     sg <- RSA_sign key pkcs1_sha256 payload ;;
     let header := header_bytes publicKey sg signedHeaderData in
     Return (kSignature ++ kVersion ++ le_split 4 (len header) ++ header ++ contents)).
Proof.
  cbv zeta.
  pose proof (generateCrx3Signature_payload privateKey
                (signed_data_bytes (generateBinaryCrxId publicKey)) contents rsa)
    as Hsig. rewrite len_signed_data_bytes in Hsig.
  destruct (rsa_or_import rsa privateKey) as [key | e] eqn:Hkey; cbn [bind] in *.
  - destruct (RSA_sign key pkcs1_sha256 _) as [sg | e] eqn:Hsign; cbn [bind].
    + apply packCrx3_bytes. exact Hsig.
    + unfold packCrx3. rewrite SignedData_write_bytes, Hsig. reflexivity.
  - unfold packCrx3. rewrite SignedData_write_bytes, Hsig. reflexivity.
Qed.

(** ** The identifier *)

Lemma substring_of_list_ascii (n : nat) (l : list ascii) :
  String.substring 0 n (string_of_list_ascii l) = string_of_list_ascii (firstn n l).
Proof.
  revert l. induction n as [| n IH]; intros [| c l]; cbn; try reflexivity.
  rewrite IH. reflexivity.
Qed.

Lemma join_single_chars {A : Type} (g : A -> ascii) (l : list A) :
  join (List.map (fun x => String (g x) EmptyString) l) = string_of_list_ascii (List.map g l).
Proof.
  unfold join. induction l as [| x l IH]; [reflexivity |].
  cbn [List.map string_of_list_ascii]. rewrite <- IH.
  destruct l as [| y l]; reflexivity.
Qed.

Lemma length_of_list_ascii (l : list ascii) :
  String.length (string_of_list_ascii l) = List.length l.
Proof. induction l as [| c l IH]; cbn; congruence. Qed.

Lemma Forall_firstn_of {A : Type} (P : A -> Prop) (n : nat) (l : list A) :
  Forall P l -> Forall P (firstn n l).
Proof.
  intros H. revert n. induction H as [| x l Hx Hl IH]; intros [| n]; cbn; auto.
Qed.

Lemma nibbles_range (d : Uint8Array) : Forall (fun v => 0 <= v < 16) (nibbles d).
Proof.
  unfold nibbles. induction d as [| x d IH]; cbn [flat_map app]; [constructor |].
  pose proof (byte.unsigned_range x) as Hx. change (2 ^ 8) with 256 in Hx.
  constructor; [| constructor; [| exact IH]].
  - split; [apply Z.div_pos; lia | apply Z.div_lt_upper_bound; lia].
  - apply Z.mod_pos_bound. lia.
Qed.

Lemma length_nibbles (d : Uint8Array) : List.length (nibbles d) = (2 * List.length d)%nat.
Proof.
  unfold nibbles. induction d as [| x d IH]; [reflexivity |].
  cbn [flat_map app List.length]. rewrite IH. lia.
Qed.

(** [toString("hex")] writes the digits of [nibbles]. *)
Lemma toString_hex_nibbles (d : Uint8Array) :
  toString_hex d = string_of_list_ascii (List.map digit_char (nibbles d)).
Proof.
  unfold toString_hex, nibbles. f_equal.
  induction d as [| x d IH]; [reflexivity |].
  cbn [flat_map app List.map]. rewrite IH.
  pose proof (byte.unsigned_range x) as Hx.
  rewrite Z.shiftr_div_pow2 by lia. change 0xf with (Z.ones 4).
  rewrite Z.land_ones by lia. reflexivity.
Qed.

(** The callback of [map]: a hexadecimal digit becomes its letter. *)
Lemma remap_nibble (v : Z) :
  0 <= v < 16 ->
  Number_toString (option_map (fun n => n + 0x0a)
                     (parseInt (String (digit_char v) EmptyString) 16)) 26
  = String (nibble_char v) EmptyString.
Proof.
  intros Hv.
  assert (Hcases : v = 0 \/ v = 1 \/ v = 2 \/ v = 3 \/ v = 4 \/ v = 5 \/ v = 6 \/ v = 7 \/
                   v = 8 \/ v = 9 \/ v = 10 \/ v = 11 \/ v = 12 \/ v = 13 \/ v = 14 \/ v = 15)
    by lia.
  repeat (destruct Hcases as [-> | Hcases]; [reflexivity |]). subst v. reflexivity.
Qed.

Lemma nibble_char_range (v : Z) :
  0 <= v < 16 -> (97 <= nat_of_ascii (nibble_char v) <= 112)%nat.
Proof.
  intros Hv. unfold nibble_char. rewrite nat_ascii_embedding by lia. lia.
Qed.

(** C7.  The identifier is the first 32 hexadecimal digits of the SHA-256
    digest of the key, each digit [v] written as the letter ['a' + v]: it has
    32 characters, all between ['a'] and ['p'], and depends on the key
    only. *)
Theorem generateCrxId_letters (publicKey : Uint8Array) :
  generateCrxId publicKey
  = string_of_list_ascii (List.map nibble_char (firstn 32 (nibbles (sha256 publicKey)))) /\
  String.length (generateCrxId publicKey) = 32%nat /\
  Forall (fun c => (nat_of_ascii "a" <= nat_of_ascii c <= nat_of_ascii "p")%nat)
    (list_ascii_of_string (generateCrxId publicKey)) /\
  (forall publicKey', publicKey' = publicKey ->
                      generateCrxId publicKey' = generateCrxId publicKey).
Proof.
  assert (Hid : generateCrxId publicKey
                = string_of_list_ascii
                    (List.map nibble_char (firstn 32 (nibbles (sha256 publicKey))))).
  { unfold generateCrxId. rewrite toString_hex_nibbles. unfold split_chars.
    rewrite list_ascii_of_string_of_list_ascii, !List.map_map.
    rewrite (List.map_ext_in _ (fun v => String (nibble_char v) EmptyString)).
    - rewrite join_single_chars, substring_of_list_ascii, List.firstn_map. reflexivity.
    - intros v Hin. apply remap_nibble.
      pose proof (nibbles_range (sha256 publicKey)) as Hr.
      rewrite List.Forall_forall in Hr. apply Hr. exact Hin. }
  split; [exact Hid |]. split; [| split].
  - rewrite Hid, length_of_list_ascii.
    rewrite List.length_map, List.length_firstn, length_nibbles, sha256_length. reflexivity.
  - rewrite Hid, list_ascii_of_string_of_list_ascii.
    apply List.Forall_map.
    eapply List.Forall_impl; [| apply Forall_firstn_of; apply nibbles_range].
    intros v Hv. apply nibble_char_range. exact Hv.
  - intros publicKey' ->. reflexivity.
Qed.

(** ** Runs of [pack] *)

Lemma run_rejected (steps : list (State -> Outcome)) (e : JsError) (s : State) :
  fold_left and_then steps (Rejected e s) = Rejected e s.
Proof. induction steps as [| f steps IH]; [reflexivity | exact IH]. Qed.

Lemma run_cons (f : State -> Outcome) (steps : list (State -> Outcome)) (s : State) :
  run (f :: steps) s
  = match f s with
    | Resolved s1 => run steps s1
    | Rejected e s1 => Rejected e s1
    end.
Proof.
  unfold run. cbn [fold_left and_then].
  destruct (f s) as [s1 | e s1]; [reflexivity | apply run_rejected].
Qed.

Lemma run_app (a b : list (State -> Outcome)) (s : State) :
  run (a ++ b) s
  = match run a s with
    | Resolved s1 => run b s1
    | Rejected e s1 => Rejected e s1
    end.
Proof.
  unfold run. rewrite List.fold_left_app.
  destruct (fold_left and_then a (Resolved s)) as [s1 | e s1];
    [reflexivity | apply run_rejected].
Qed.

Lemma run_keeps (P : State -> Prop) (steps : list (State -> Outcome)) :
  Forall (keeps P) steps -> forall s, P s -> P (final (run steps s)).
Proof.
  induction 1 as [| f steps Hf Hsteps IH]; intros s Hs; [exact Hs |].
  rewrite run_cons. specialize (Hf s Hs).
  destruct (f s) as [s1 | e s1]; cbn [final] in *; auto.
Qed.

(** Unfolds a step and splits on everything it tests. *)
Ltac unfold_steps :=
  unfold load_privateKey, load_publicKey, cascade_updateXML, cascade_extVersion,
    cascade_minChromeVersion, cascade_crx, cascade_id, cascade_publicKey,
    resolve_privateKey, resolve_publicKey, resolve_contents, resolve_crx, resolve_id,
    resolve_extVersion, resolve_minChromeVersion, resolve_updateXML,
    catch_not_found, call.

Ltac split_cases :=
  repeat match goal with
         | |- context [match ?x with _ => _ end] =>
             lazymatch x with
             | context [match _ with _ => _ end] => fail
             | _ => destruct x eqn:?
             end
         end.

Ltac step_keeps :=
  let s := fresh "s" in
  let H := fresh "H" in
  intros s H; unfold_steps; split_cases; subst; cbn;
  repeat match goal with
         | H : _ /\ _ |- _ => destruct H
         end;
  repeat match goal with
         | H : ?x = _ |- context [?x] => rewrite H
         end;
  cbn; repeat split;
  first [ assumption | congruence | intros; exfalso; eauto; fail | eauto ].

Ltac steps_keep := repeat (apply Forall_cons; [step_keeps |]); apply Forall_nil.

(** *** What the steps leave alone *)

Lemma pack_keeps_settings (o : PackInput) :
  Forall (keeps (fun s => keySize (options s) = keySize o
                          /\ crxVersion (options s) = crxVersion o
                          /\ crxUrl (options s) = crxUrl o)) pack_steps.
Proof. unfold pack_steps. steps_keep. Qed.

Lemma pack_keeps_id (v : string) :
  Forall (keeps (fun s => id (options s) = Given v)) pack_steps.
Proof. unfold pack_steps. steps_keep. Qed.

Lemma pack_keeps_crx (v : Uint8Array) :
  Forall (keeps (fun s => crx (options s) = Given v)) pack_steps.
Proof. unfold pack_steps. steps_keep. Qed.

Lemma pack_keeps_updateXML (v : string) :
  Forall (keeps (fun s => updateXML (options s) = Given v)) pack_steps.
Proof. unfold pack_steps. steps_keep. Qed.

Lemma pack_keeps_extVersion (v : string) :
  Forall (keeps (fun s => extVersion (options s) = Given v)) pack_steps.
Proof. unfold pack_steps. steps_keep. Qed.

Lemma pack_keeps_minChromeVersion (v : string) :
  Forall (keeps (fun s => minChromeVersion (options s) = Given v)) pack_steps.
Proof. unfold pack_steps. steps_keep. Qed.

Lemma pack_keeps_contents (b : Uint8Array) :
  Forall (keeps (fun s => contents (options s) = Some (Bytes b))) pack_steps.
Proof. unfold pack_steps. steps_keep. Qed.

Lemma pack_keeps_manifest (m : ChromeManifest) :
  Forall (keeps (fun s => manifest (options s) = Given m
                          /\ forall p, contents (options s) <> Some (Path p))) pack_steps.
Proof. unfold pack_steps. steps_keep. Qed.

Lemma pack_keeps_privateKey (k : Uint8Array) :
  Forall (keeps (fun s => privateKey (options s) = Given (Bytes k))) pack_steps.
Proof. unfold pack_steps. steps_keep. Qed.

Lemma no_key_generated_log (ev : Event) (s : State) :
  is_GenerateKey ev = false -> no_key_generated s -> no_key_generated (log ev s).
Proof.
  unfold no_key_generated, log. cbn [trace]. intros Hev Hs.
  rewrite List.forallb_app, Hs. cbn [forallb]. rewrite Hev. reflexivity.
Qed.

Lemma no_key_generated_before (ev : Event) (s : State) :
  no_key_generated (log ev s) -> no_key_generated s /\ is_GenerateKey ev = false.
Proof.
  unfold no_key_generated, log. cbn [trace]. rewrite List.forallb_app. cbn [forallb].
  intros H. apply Bool.andb_true_iff in H as [H1 H2].
  rewrite Bool.andb_true_r in H2. apply Bool.negb_true_iff in H2. auto.
Qed.

(** Assignments to [options] leave the trace alone. *)
Ltac skip_assignments :=
  repeat match goal with
         | |- context [no_key_generated (assign ?f ?s)] =>
             change (no_key_generated (assign f s)) with (no_key_generated s)
         | H : context [no_key_generated (assign ?f ?s)] |- _ =>
             change (no_key_generated (assign f s)) with (no_key_generated s) in H
         end.

Lemma pack_keeps_privateKey_ungenerated (k : Uint8Array) :
  Forall (keeps (fun s => privateKey (options s) = Given (Bytes k) /\ no_key_generated s))
    pack_steps.
Proof.
  unfold pack_steps.
  repeat (apply Forall_cons; [| try apply Forall_nil]);
    intros s [Hkey Htrace]; unfold_steps; split_cases; subst; cbn [final];
    (split; [cbn; rewrite ?Hkey; cbn; congruence |]); skip_assignments;
    first [ assumption
          | congruence
          | apply no_key_generated_log; [reflexivity | assumption] ].
Qed.

(** As long as no key pair is generated, a given [rsa] object and a given
    public key stay. *)
Lemma pack_keeps_rsa (r : RSA) :
  Forall (keeps (fun s => no_key_generated s -> rsa (options s) = Some r)) pack_steps.
Proof.
  unfold pack_steps.
  repeat (apply Forall_cons; [| try apply Forall_nil]);
    intros s Hkept; unfold_steps; split_cases; subst; cbn [final];
    intros Hfinal; skip_assignments;
    try (apply no_key_generated_before in Hfinal; destruct Hfinal as [Hfinal Hev];
         try discriminate Hev);
    skip_assignments; specialize (Hkept Hfinal); cbn [options log assign] in *; cbn;
    congruence.
Qed.

Lemma pack_keeps_publicKey (b : Uint8Array) :
  Forall (keeps (fun s => no_key_generated s -> publicKey (options s) = Given (Bytes b)))
    pack_steps.
Proof.
  unfold pack_steps.
  repeat (apply Forall_cons; [| try apply Forall_nil]);
    intros s Hkept; unfold_steps; split_cases; subst; cbn [final];
    intros Hfinal; skip_assignments;
    try (apply no_key_generated_before in Hfinal; destruct Hfinal as [Hfinal Hev];
         try discriminate Hev);
    skip_assignments; specialize (Hkept Hfinal); cbn [options log assign] in *; cbn;
    rewrite ?Hkept; cbn; congruence.
Qed.

Lemma pack_final (P : State -> Prop) (o : PackInput) (s' : State) :
  Forall (keeps P) pack_steps -> P {| options := o; trace := [] |} ->
  pack o = Resolved s' -> P s'.
Proof.
  intros Hkeeps Hinit Hpack.
  pose proof (run_keeps P pack_steps Hkeeps _ Hinit) as H.
  unfold pack in Hpack. rewrite Hpack in H. exact H.
Qed.

(** ** Fields that the caller gave *)

(** C6, as amended.  When [pack] returns, a field that the caller gave as a
    value, not as a path, is returned with that value, with the exceptions
    that the code makes on purpose: the manifest is replaced by that of the
    packed directory when [contents] is a path, and the public key and the
    [rsa] object are replaced by those of a key pair that [pack] generates,
    which it never does when the private key is given. *)
Theorem pack_keeps_given (o : PackInput) (s' : State) :
  pack o = Resolved s' ->
  let o' := options s' in
  keySize o' = keySize o /\ crxVersion o' = crxVersion o /\ crxUrl o' = crxUrl o /\
  (forall v, id o = Given v -> id o' = Given v) /\
  (forall v, crx o = Given v -> crx o' = Given v) /\
  (forall v, updateXML o = Given v -> updateXML o' = Given v) /\
  (forall v, extVersion o = Given v -> extVersion o' = Given v) /\
  (forall v, minChromeVersion o = Given v -> minChromeVersion o' = Given v) /\
  (forall b, contents o = Some (Bytes b) -> contents o' = Some (Bytes b)) /\
  (forall m, manifest o = Given m -> (forall p, contents o <> Some (Path p)) ->
             manifest o' = Given m) /\
  (forall k, privateKey o = Given (Bytes k) ->
             privateKey o' = Given (Bytes k) /\ no_key_generated s') /\
  (no_key_generated s' ->
   (forall r, rsa o = Some r -> rsa o' = Some r) /\
   (forall b, publicKey o = Given (Bytes b) -> publicKey o' = Given (Bytes b))).
Proof.
  intros Hpack. cbv zeta.
  pose proof (pack_final _ o s' (pack_keeps_settings o)) as Hsettings.
  cbn [options] in Hsettings. destruct (Hsettings (conj eq_refl (conj eq_refl eq_refl)) Hpack)
    as [H1 [H2 H3]].
  repeat match goal with |- _ /\ _ => split end; try assumption.
  - intros v Hv. apply (pack_final _ o s' (pack_keeps_id v)); assumption.
  - intros v Hv. apply (pack_final _ o s' (pack_keeps_crx v)); assumption.
  - intros v Hv. apply (pack_final _ o s' (pack_keeps_updateXML v)); assumption.
  - intros v Hv. apply (pack_final _ o s' (pack_keeps_extVersion v)); assumption.
  - intros v Hv. apply (pack_final _ o s' (pack_keeps_minChromeVersion v)); assumption.
  - intros b Hb. apply (pack_final _ o s' (pack_keeps_contents b)); assumption.
  - intros m Hm Hc.
    apply (pack_final _ o s' (pack_keeps_manifest m)); [split |]; assumption.
  - intros k Hk.
    apply (pack_final _ o s' (pack_keeps_privateKey_ungenerated k));
      [split; [exact Hk | reflexivity] | exact Hpack].
  - intros Htrace. split.
    + intros r Hr.
      apply (pack_final _ o s' (pack_keeps_rsa r)); [intros _; exact Hr | exact Hpack |
                                                      exact Htrace].
    + intros b Hb.
      apply (pack_final _ o s' (pack_keeps_publicKey b)); [intros _; exact Hb | exact Hpack |
                                                            exact Htrace].
Qed.

(** ** An unsupported container version *)

Lemma pack_keeps_unsupported :
  Forall (keeps (fun s => crx (options s) = Null
                          /\ is_crx3 (crxVersion (options s)) = false
                          /\ is_crx2 (crxVersion (options s)) = false)) pack_steps.
Proof. unfold pack_steps. steps_keep. Qed.

(** For these keys and contents and version 4, [pack] makes no call, throws
    nothing and returns the request as it was. *)
Lemma pack_crxVersion_4 (privateKey' publicKey' contents' : Uint8Array) :
  let request := set_crxVersion (Some 4)
                   (set_crx Null (set_contents (Some (Bytes contents'))
                     (set_privateKey (Given (Bytes privateKey'))
                        (set_publicKey (Given (Bytes publicKey')) no_options)))) in
  pack request = Resolved {| options := request; trace := [] |}.
Proof. reflexivity. Qed.

(** C5.  A requested container with a container version that is neither 2
    nor 3: no step of [pack] rejects the version, and whenever [pack] returns,
    [crx] is still [null]. *)
Theorem pack_unsupported_crxVersion (o : PackInput) (version : Z) (s' : State) :
  crx o = Null -> crxVersion o = Some version -> version <> 2 -> version <> 3 ->
  pack o = Resolved s' ->
  crx (options s') = Null.
Proof.
  intros Hcrx Hversion H2 H3 Hpack.
  apply (pack_final _ o s' pack_keeps_unsupported); [| exact Hpack].
  cbn [options]. rewrite Hversion. cbn [is_crx3 is_crx2].
  repeat split; [exact Hcrx | apply Z.eqb_neq; exact H3 | apply Z.eqb_neq; exact H2].
Qed.

(** ** A requested container without contents *)

(** Neither the loaders nor the steps that ask for prerequisites generate a
    key, and they leave [crx] and absent contents as they are. *)
Lemma cascade_keeps_request :
  Forall (keeps (fun s => crx (options s) = Null /\ contents (options s) = None
                          /\ no_key_generated s)) cascade_steps.
Proof.
  unfold cascade_steps.
  repeat (apply Forall_cons; [| try apply Forall_nil]);
    intros s [Hcrx [Hcontents Htrace]]; unfold_steps; split_cases; subst; cbn;
    repeat split; try assumption; try congruence;
    try (apply (no_key_generated_log (ReadFile _) s); [reflexivity | assumption]).
Qed.

(** Keys that are not given as paths are not touched before the contents are
    found missing. *)
Lemma cascade_keeps_keys (o : PackInput) :
  (forall p, privateKey o <> Given (Path p)) -> (forall p, publicKey o <> Given (Path p)) ->
  Forall (keeps (fun s => contents (options s) = None
                          /\ privateKey (options s) = privateKey o
                          /\ publicKey (options s) = publicKey o
                          /\ rsa (options s) = rsa o
                          /\ trace s = [])) cascade_steps.
Proof.
  intros Hprivate Hpublic. unfold cascade_steps.
  repeat (apply Forall_cons; [| try apply Forall_nil]);
    intros s [Hcontents [Hpriv [Hpub [Hrsa Htrace]]]]; unfold_steps; split_cases; subst; cbn;
    repeat split; try assumption; try congruence;
    exfalso;
    first [ eapply Hprivate; rewrite <- Hpriv; eassumption
          | eapply Hpublic; rewrite <- Hpub; eassumption ].
Qed.

Lemma load_keeps_updateXML (o : PackInput) :
  Forall (keeps (fun s => updateXML (options s) = updateXML o
                          /\ crxUrl (options s) = crxUrl o)) load_steps.
Proof. unfold load_steps. steps_keep. Qed.

Lemma cascade_updateXML_cases (s : State) :
  (cascade_updateXML s = Rejected crxUrl_required s
   /\ updateXML (options s) = Null /\ crxUrl (options s) = None)
  \/ (exists s', cascade_updateXML s = Resolved s'
                 /\ crx (options s') = crx (options s)
                 /\ contents (options s') = contents (options s)).
Proof.
  unfold cascade_updateXML.
  destruct (updateXML (options s)); [right | | right]; try (eexists; repeat split; fail).
  destruct (crxUrl (options s)); [right | left; auto].
  eexists. repeat split.
Qed.

Lemma cascade_extVersion_resolves (s : State) :
  exists s', cascade_extVersion s = Resolved s'
             /\ crx (options s') = crx (options s)
             /\ contents (options s') = contents (options s).
Proof.
  unfold cascade_extVersion. destruct (extVersion (options s)); eexists; repeat split.
Qed.

Lemma cascade_minChromeVersion_resolves (s : State) :
  exists s', cascade_minChromeVersion s = Resolved s'
             /\ crx (options s') = crx (options s)
             /\ contents (options s') = contents (options s).
Proof.
  unfold cascade_minChromeVersion. destruct (minChromeVersion (options s));
    eexists; repeat split.
Qed.

(** What the prerequisite steps do after the loaders, on a request for a
    container without contents. *)
Lemma cascade_after_load (s : State) :
  crx (options s) = Null -> contents (options s) = None ->
  exists e s',
    run [cascade_updateXML; cascade_extVersion; cascade_minChromeVersion; cascade_crx] s
    = Rejected e s' /\
    (e = contents_required
     \/ (e = crxUrl_required /\ updateXML (options s) = Null /\ crxUrl (options s) = None)).
Proof.
  intros Hcrx Hcontents. rewrite run_cons.
  destruct (cascade_updateXML_cases s) as [[-> [Hxml Hurl]] | [s1 [-> [Hcrx1 Hcontents1]]]].
  - exists crxUrl_required, s. auto.
  - rewrite run_cons.
    destruct (cascade_extVersion_resolves s1) as [s2 [-> [Hcrx2 Hcontents2]]].
    rewrite run_cons.
    destruct (cascade_minChromeVersion_resolves s2) as [s3 [-> [Hcrx3 Hcontents3]]].
    rewrite run_cons. unfold cascade_crx.
    replace (crx (options s3)) with (@Null Uint8Array) by congruence.
    replace (contents (options s3)) with (@None BytesOrPath) by congruence.
    exists contents_required, s3. auto.
Qed.

(** A key that is not given as a path is not touched before the contents
    are found missing, whatever the other key is. *)
Lemma cascade_keeps_privateKey (o : PackInput) :
  (forall p, privateKey o <> Given (Path p)) ->
  Forall (keeps (fun s => contents (options s) = None
                          /\ privateKey (options s) = privateKey o)) cascade_steps.
Proof.
  intros Hprivate. unfold cascade_steps.
  repeat (apply Forall_cons; [| try apply Forall_nil]);
    intros s [Hcontents Hpriv]; unfold_steps; split_cases; subst; cbn;
    repeat split; try assumption; try congruence;
    exfalso; eapply Hprivate; rewrite <- Hpriv; eassumption.
Qed.

Lemma cascade_keeps_publicKey (o : PackInput) :
  (forall p, publicKey o <> Given (Path p)) ->
  Forall (keeps (fun s => contents (options s) = None
                          /\ publicKey (options s) = publicKey o)) cascade_steps.
Proof.
  intros Hpublic. unfold cascade_steps.
  repeat (apply Forall_cons; [| try apply Forall_nil]);
    intros s [Hcontents Hpub]; unfold_steps; split_cases; subst; cbn;
    repeat split; try assumption; try congruence;
    exfalso; eapply Hpublic; rewrite <- Hpub; eassumption.
Qed.

(** C8, as amended.  A request for the container without contents is
    rejected, and no key pair is generated before it is.  The error is the
    one that asks for the contents, unless an earlier step throws first: the
    loader of a key file, or the step that asks for [crxUrl] when the update
    document is requested as well.  A key that was not given as a path is
    left as the caller gave it; when neither is a path, no file is read and
    the error is one of the two that ask for an argument. *)
Theorem pack_crx_without_contents (o : PackInput) :
  crx o = Null -> contents o = None ->
  exists e s',
    pack o = Rejected e s' /\
    no_key_generated s' /\
    (e = contents_required
     \/ (e = crxUrl_required /\ updateXML o = Null /\ crxUrl o = None)
     \/ run load_steps {| options := o; trace := [] |} = Rejected e s') /\
    ((forall p, privateKey o <> Given (Path p)) -> privateKey (options s') = privateKey o) /\
    ((forall p, publicKey o <> Given (Path p)) -> publicKey (options s') = publicKey o) /\
    ((forall p, privateKey o <> Given (Path p)) -> (forall p, publicKey o <> Given (Path p)) ->
     privateKey (options s') = privateKey o /\ publicKey (options s') = publicKey o
     /\ rsa (options s') = rsa o /\ trace s' = []
     /\ (e = contents_required \/ e = crxUrl_required)).
Proof.
  intros Hcrx Hcontents.
  set (init := {| options := o; trace := [] |}).
  assert (Hinit : crx (options init) = Null /\ contents (options init) = None
                  /\ no_key_generated init) by (repeat split; assumption).
  pose proof (run_keeps _ cascade_steps cascade_keeps_request init Hinit) as Hfinal.
  assert (Hsplit : pack o
                   = match run cascade_steps init with
                     | Resolved s1 =>
                         run [cascade_id; cascade_publicKey; resolve_privateKey;
                              resolve_publicKey; resolve_contents; resolve_crx; resolve_id;
                              resolve_extVersion; resolve_minChromeVersion;
                              resolve_updateXML] s1
                     | Rejected e s1 => Rejected e s1
                     end).
  { unfold pack. fold init. rewrite <- run_app. reflexivity. }
  assert (Hcascade : exists e s',
             run cascade_steps init = Rejected e s' /\
             (e = contents_required
              \/ (e = crxUrl_required /\ updateXML o = Null /\ crxUrl o = None)
              \/ run load_steps init = Rejected e s')).
  { change cascade_steps
      with (load_steps ++ [cascade_updateXML; cascade_extVersion; cascade_minChromeVersion;
                           cascade_crx]).
    rewrite run_app.
    assert (Hload : Forall (keeps (fun s => crx (options s) = Null /\ contents (options s) = None
                                            /\ no_key_generated s)) load_steps).
    { pose proof cascade_keeps_request as H.
      change cascade_steps
        with (load_steps ++ [cascade_updateXML; cascade_extVersion;
                             cascade_minChromeVersion; cascade_crx]) in H.
      apply List.Forall_app in H. apply H. }
    pose proof (run_keeps _ load_steps Hload init Hinit) as Hl.
    pose proof (run_keeps _ load_steps (load_keeps_updateXML o) init (conj eq_refl eq_refl))
      as Hx.
    destruct (run load_steps init) as [s2 | e s2] eqn:Hrun; cbn [final] in Hl, Hx.
    - destruct Hl as [Hcrx2 [Hcontents2 _]]. destruct Hx as [Hxml Hurl].
      destruct (cascade_after_load s2 Hcrx2 Hcontents2) as [e [s' [Hrej Herr]]].
      exists e, s'. split; [exact Hrej |].
      destruct Herr as [-> | [-> [Hx1 Hx2]]]; [left; reflexivity |].
      right. left. rewrite <- Hxml, <- Hurl. auto.
    - exists e, s2. split; [reflexivity |]. right. right. reflexivity. }
  destruct Hcascade as [e [s' [Hrej Herr]]].
  rewrite Hrej in Hsplit, Hfinal. cbn [final] in Hfinal.
  exists e, s'. split; [exact Hsplit |]. split; [apply Hfinal |]. split; [exact Herr |].
  split.
  { intros Hprivate.
    pose proof (run_keeps _ cascade_steps (cascade_keeps_privateKey o Hprivate) init) as Hkey.
    rewrite Hrej in Hkey. cbn [final] in Hkey. apply Hkey. split; [exact Hcontents | reflexivity]. }
  split.
  { intros Hpublic.
    pose proof (run_keeps _ cascade_steps (cascade_keeps_publicKey o Hpublic) init) as Hkey.
    rewrite Hrej in Hkey. cbn [final] in Hkey. apply Hkey. split; [exact Hcontents | reflexivity]. }
  intros Hprivate Hpublic.
  pose proof (run_keeps _ cascade_steps (cascade_keeps_keys o Hprivate Hpublic) init) as Hkeys.
  rewrite Hrej in Hkeys. cbn [final] in Hkeys.
  destruct Hkeys as [_ [Hk1 [Hk2 [Hk3 Hk4]]]]; [repeat split; assumption |].
  repeat split; try assumption.
  destruct Herr as [He | [[He _] | Hload]]; [left; exact He | right; exact He |].
  exfalso. unfold load_steps in Hload. rewrite !run_cons in Hload. unfold_steps.
  unfold_steps. revert Hload. unfold load_privateKey, load_publicKey. cbn [options init].
  destruct (privateKey o) as [| | [b | p]] eqn:Hp; try (exfalso; eapply Hprivate; eauto; fail);
    destruct (publicKey o) as [| | [b' | p']] eqn:Hq;
    try (exfalso; eapply Hpublic; eauto; fail);
    unfold run; cbn; rewrite ?Hq; discriminate.
Qed.

(** ** The minimum Chrome version *)

Lemma pack_keeps_requested_minChromeVersion (o : PackInput) :
  Forall (keeps (fun s => minChromeVersion (options s) = Null
                          /\ crxVersion (options s) = crxVersion o))
    (firstn 14 pack_steps).
Proof. unfold pack_steps. cbn [firstn]. steps_keep. Qed.

(** The last two steps, from a state in which the version is requested. *)
Lemma resolve_minChromeVersion_then_updateXML (s s' : State) :
  minChromeVersion (options s) = Null ->
  run [resolve_minChromeVersion; resolve_updateXML] s = Resolved s' ->
  minChromeVersion (options s') = minChromeVersion_or_default (options s)
  /\ manifest (options s') = manifest (options s)
  /\ crxVersion (options s') = crxVersion (options s).
Proof.
  intros Hnull. unfold run. cbn [fold_left and_then].
  unfold resolve_minChromeVersion at 1. rewrite Hnull. cbn [and_then].
  unfold resolve_updateXML. cbn [assign options updateXML set_minChromeVersion].
  destruct (updateXML (options s)); intros H; injection H as H; subst s'; repeat split.
Qed.

(** C9, as amended.  When [pack] returns and the minimum Chrome version was
    requested, it is the non-empty [minimum_chrome_version] of the resolved
    manifest when there is one; otherwise it is ["73.0.3683"] for container
    version 3 or no container version, and is left [undefined] for any other
    container version. *)
Theorem pack_minChromeVersion (o : PackInput) (s' : State) :
  pack o = Resolved s' -> minChromeVersion o = Null ->
  let o' := options s' in
  (forall m v, manifest o' = Given m -> minimum_chrome_version m = Some v ->
               v <> EmptyString -> minChromeVersion o' = Given v) /\
  ((forall m, manifest o' = Given m ->
              minimum_chrome_version m = None
              \/ minimum_chrome_version m = Some EmptyString) ->
   (crxVersion o = None \/ crxVersion o = Some 3 ->
    minChromeVersion o' = Given "73.0.3683"%string) /\
   (forall version, crxVersion o = Some version -> version <> 3 ->
                    minChromeVersion o' = Undefined)).
Proof.
  intros Hpack Hnull. cbv zeta.
  unfold pack in Hpack.
  change pack_steps with (firstn 14 pack_steps ++ [resolve_minChromeVersion; resolve_updateXML])
    in Hpack.
  rewrite run_app in Hpack.
  pose proof (run_keeps _ _ (pack_keeps_requested_minChromeVersion o)
                {| options := o; trace := [] |} (conj Hnull eq_refl)) as Hkept.
  destruct (run (firstn 14 pack_steps) _) as [s14 | e s14]; [| discriminate].
  cbn [final] in Hkept. destruct Hkept as [Hnull14 Hversion14].
  destruct (resolve_minChromeVersion_then_updateXML s14 s' Hnull14 Hpack)
    as [Hmin [Hmanifest Hversion]].
  rewrite Hmin, Hmanifest. unfold minChromeVersion_or_default, manifest_minimum_chrome_version.
  rewrite Hversion14. split.
  - intros m v Hm Hv Hne. rewrite Hm, Hv.
    destruct (String.eqb_spec v EmptyString); [contradiction | reflexivity].
  - intros Habsent.
    assert (Hfallback :
              match match manifest (options s14) with
                    | Given m => minimum_chrome_version m
                    | _ => None
                    end with
              | Some v => if String.eqb v EmptyString
                          then if is_crx3 (crxVersion o) then Given "73.0.3683"%string
                               else Undefined
                          else Given v
              | None => if is_crx3 (crxVersion o) then Given "73.0.3683"%string else Undefined
              end
              = if is_crx3 (crxVersion o) then Given "73.0.3683"%string else Undefined).
    { destruct (manifest (options s14)) as [| | m]; try reflexivity.
      destruct (Habsent m eq_refl) as [-> | ->]; reflexivity. }
    rewrite Hfallback. split.
    + intros [-> | ->]; reflexivity.
    + intros version -> Hne. cbn [is_crx3].
      destruct (Z.eqb_spec version 3); [contradiction | reflexivity].
Qed.

(** ** The non-null assertions of [pack]

    [pack] hands [options.privateKey!], [options.publicKey!] and
    [options.contents!] to the codec.  The steps before make them bytes, so
    that [asserted_bytes] and [asserted_contents] never throw. *)

Ltac step_leads :=
  let s := fresh "s" in
  let s' := fresh "s'" in
  let H := fresh "H" in
  let Hstep := fresh "Hstep" in
  intros s s' H Hstep; revert Hstep; unfold_steps; split_cases; subst;
  intros Hstep; try discriminate Hstep; injection Hstep as Hstep; subst s'.

Lemma load_privateKey_leads :
  leads (fun _ => True) load_privateKey (fun s => not_path (privateKey (options s))).
Proof. step_leads; cbn; intros p' Hp; congruence. Qed.

Lemma load_publicKey_leads :
  leads (fun s => not_path (privateKey (options s))) load_publicKey keys_loaded.
Proof.
  step_leads; unfold keys_loaded; cbn; (split; [assumption |]); intros p' Hp; congruence.
Qed.

Lemma not_path_promote (x : Requestable BytesOrPath) : not_path x -> not_path (promote x).
Proof. unfold not_path. destruct x; cbn; intros H p; try discriminate; apply H. Qed.

Lemma cascade_keeps_keys_loaded :
  Forall (fun step => leads keys_loaded step keys_loaded)
    [cascade_updateXML; cascade_extVersion; cascade_minChromeVersion; cascade_crx;
     cascade_id; cascade_publicKey].
Proof.
  repeat (apply Forall_cons; [| try apply Forall_nil]);
    step_leads; unfold keys_loaded in *; cbn; destruct H as [H1 H2];
    split; auto using not_path_promote.
Qed.

Ltac open_state s :=
  destruct s as [[c_ pk_ ks_ pub_ rsa_ id_ crx_ cv_ cu_ ux_ ev_ mcv_ m_] tr_].

Lemma cascade_leads (s s' : State) :
  keys_loaded s ->
  run [cascade_crx; cascade_id; cascade_publicKey] s = Resolved s' ->
  prerequisites_asked s'.
Proof.
  open_state s. unfold keys_loaded, not_path, run. cbn. intros [Hk Hp].
  unfold cascade_crx, cascade_id, cascade_publicKey, prerequisites_asked, keys_loaded,
    not_path.
  destruct crx_ as [| | cx], c_ as [cb |], id_ as [| | ix], pub_ as [| | [b | p]],
    pk_ as [| | [b' | p']]; cbn;
    intros Hrun; try discriminate Hrun; injection Hrun as Hrun; subst s'; cbn;
    try (exfalso; eapply Hk; reflexivity); try (exfalso; eapply Hp; reflexivity);
    repeat split; intros; congruence.
Qed.

Lemma resolve_leads (s s' : State) :
  prerequisites_asked s ->
  run [resolve_privateKey; resolve_publicKey; resolve_contents] s = Resolved s' ->
  prerequisites_resolved s'.
Proof.
  open_state s. unfold prerequisites_asked, keys_loaded, not_path, run. cbn.
  intros [[Hk Hp] [Hcrx [Hid Hpub]]].
  unfold resolve_privateKey, resolve_publicKey, resolve_contents, call,
    prerequisites_resolved, is_bytes.
  destruct pk_ as [| | [b' | p']]; try (exfalso; eapply Hk; reflexivity);
    destruct pub_ as [| | [b | p]]; try (exfalso; eapply Hp; reflexivity);
    cbn; split_cases; cbn; split_cases; cbn;
    intros Hrun; try discriminate Hrun; injection Hrun as Hrun; subst s'; cbn;
    (split; [intros Hc; specialize (Hcrx Hc) | intros Hi; specialize (Hid Hi)]);
    repeat match goal with
           | H : _ /\ _ |- _ => destruct H
           end;
    try congruence; subst; repeat split; eauto; try congruence;
    try (exfalso; eauto; fail).
Qed.

Lemma run_resolved_cons (f : State -> Outcome) (steps : list (State -> Outcome))
  (s s' : State) :
  run (f :: steps) s = Resolved s' ->
  exists s1, f s = Resolved s1 /\ run steps s1 = Resolved s'.
Proof.
  rewrite run_cons. destruct (f s) as [s1 | e s1]; [eauto | discriminate].
Qed.

Lemma run_resolved_app (a b : list (State -> Outcome)) (s s' : State) :
  run (a ++ b) s = Resolved s' ->
  exists s1, run a s = Resolved s1 /\ run b s1 = Resolved s'.
Proof.
  rewrite run_app. destruct (run a s) as [s1 | e s1]; [eauto | discriminate].
Qed.

Lemma run_leads (P : State -> Prop) (steps : list (State -> Outcome)) :
  Forall (fun step => leads P step P) steps ->
  forall s s', P s -> run steps s = Resolved s' -> P s'.
Proof.
  induction 1 as [| f steps Hf Hsteps IH]; intros s s' Hs Hrun.
  - unfold run in Hrun. cbn in Hrun. congruence.
  - apply run_resolved_cons in Hrun. destruct Hrun as [s1 [H1 Hrest]]. eauto.
Qed.

(** When the eleven steps before [resolve_crx] have returned, the keys and
    the contents of a requested container are bytes. *)
Lemma pack_prerequisites_resolved (o : PackInput) (s : State) :
  run (firstn 11 pack_steps) {| options := o; trace := [] |} = Resolved s ->
  prerequisites_resolved s.
Proof.
  change (firstn 11 pack_steps)
    with ([load_privateKey; load_publicKey]
          ++ [cascade_updateXML; cascade_extVersion; cascade_minChromeVersion]
          ++ [cascade_crx; cascade_id; cascade_publicKey]
          ++ [resolve_privateKey; resolve_publicKey; resolve_contents]).
  intros Hrun.
  apply run_resolved_app in Hrun. destruct Hrun as [s2 [Hload Hrun]].
  apply run_resolved_app in Hrun. destruct Hrun as [s5 [Hask Hrun]].
  apply run_resolved_app in Hrun. destruct Hrun as [s8 [Hcascade Hresolve]].
  apply run_resolved_cons in Hload. destruct Hload as [s1 [Hl1 Hload]].
  apply run_resolved_cons in Hload. destruct Hload as [s2' [Hl2 Hload]].
  assert (E : s2' = s2) by (unfold run in Hload; cbn in Hload; congruence).
  subst s2'. clear Hload.
  pose proof (load_privateKey_leads _ _ I Hl1) as H1.
  pose proof (load_publicKey_leads _ _ H1 Hl2) as H2.
  assert (H5 : keys_loaded s5).
  { refine (run_leads keys_loaded _ _ s2 s5 H2 Hask).
    pose proof cascade_keeps_keys_loaded as H.
    change [cascade_updateXML; cascade_extVersion; cascade_minChromeVersion; cascade_crx;
            cascade_id; cascade_publicKey]
      with ([cascade_updateXML; cascade_extVersion; cascade_minChromeVersion]
            ++ [cascade_crx; cascade_id; cascade_publicKey]) in H.
    apply List.Forall_app in H. apply H. }
  apply (resolve_leads s8 s); [| exact Hresolve].
  apply (cascade_leads s5 s8); assumption.
Qed.

(** The non-null assertions of [resolve_crx] hold. *)
Lemma pack_assertions_hold (o : PackInput) (s : State) :
  run (firstn 11 pack_steps) {| options := o; trace := [] |} = Resolved s ->
  crx (options s) = Null ->
  exists priv pub c,
    asserted_bytes (privateKey (options s)) = Return priv /\
    asserted_bytes (publicKey (options s)) = Return pub /\
    asserted_contents (contents (options s)) = Return c.
Proof.
  intros Hrun Hcrx.
  destruct (pack_prerequisites_resolved o s Hrun) as [H _].
  destruct (H Hcrx) as [[priv Hpriv] [[pub Hpub] [c Hc]]].
  exists priv, pub, c. rewrite Hpriv, Hpub, Hc. auto.
Qed.

(** * Further properties of the codec *)

(** ** [unpack] on version 2 containers *)

(** X1.  [unpack] reads a well-formed version 2 container back, when the
    array spans its buffer from the first byte: after the 16-byte header
    come the key and the signature, of the declared lengths, and the archive
    is everything after them. *)
Theorem unpack_crx2_container (key sign archive : Uint8Array) :
  len key < 2 ^ 32 -> len sign < 2 ^ 32 ->
  unpack (whole (kSignature ++ le_split 4 2 ++ le_split 4 (len key) ++ le_split 4 (len sign)
                 ++ key ++ sign ++ archive))
  = Return (UnpackedCrx2 archive key sign).
Proof.
  intros Hk Hs.
  pose proof (len_nonneg key) as Hk0. pose proof (len_nonneg sign) as Hs0.
  pose proof (unpack_crx2 (len key) (len sign) (key ++ sign ++ archive)) as H.
  cbv zeta in H. rewrite H. clear H. rewrite !Z.mod_small by lia.
  set (header := kSignature ++ le_split 4 2 ++ le_split 4 (len key) ++ le_split 4 (len sign)).
  replace (kSignature ++ le_split 4 2 ++ le_split 4 (len key) ++ le_split 4 (len sign)
           ++ key ++ sign ++ archive)
    with (header ++ key ++ sign ++ archive)
    by (unfold header; rewrite <- !List.app_assoc; reflexivity).
  assert (Hh : List.length header = 16%nat)
    by (unfold header; rewrite !List.length_app, !length_le_split; reflexivity).
  rewrite slice_to_end, !slice_nonneg by lia.
  replace (Z.to_nat (16 + len key + len sign))
    with (16 + (List.length key + List.length sign))%nat by (unfold len; lia).
  replace (Z.to_nat (16 + len key)) with (16 + List.length key)%nat by (unfold len; lia).
  change (Z.to_nat 16) with 16%nat.
  rewrite (List.skipn_app_r2 header (key ++ sign ++ archive) 16
             (List.length key + List.length sign)) by (symmetry; exact Hh).
  rewrite (List.skipn_app_r2 header (key ++ sign ++ archive) 16 (List.length key))
    by (symmetry; exact Hh).
  rewrite (List.skipn_app_r header _ 16) by (symmetry; exact Hh).
  rewrite (List.skipn_app_r key (sign ++ archive) (List.length key)) by reflexivity.
  assert (Hskip : skipn (List.length key + List.length sign) (key ++ sign ++ archive)
                  = archive).
  { rewrite List.app_assoc. apply List.skipn_app_r. rewrite List.length_app. reflexivity. }
  rewrite Hskip. do 2 f_equal.
  - replace (16 + List.length key - 16)%nat with (List.length key) by lia.
    rewrite List.firstn_app, List.firstn_all, Nat.sub_diag. cbn [firstn].
    apply List.app_nil_r.
  - replace (16 + (List.length key + List.length sign) - (16 + List.length key))%nat
      with (List.length sign) by lia.
    rewrite List.firstn_app, List.firstn_all, Nat.sub_diag. cbn [firstn].
    apply List.app_nil_r.
Qed.

(** [packCrx2] with a key object is [packCrx2] after the import. *)
Lemma packCrx2_with_key (privateKey publicKey contents : Uint8Array) (rsa : option RSA)
  (r : RSA) :
  rsa_or_import rsa privateKey = Return r ->
  packCrx2 privateKey publicKey contents rsa
  = packCrx2 privateKey publicKey contents (Some r).
Proof. intros H. unfold packCrx2. rewrite H. reflexivity. Qed.

(** X2.  Empty contents are the one input that fits the allocation of [packCrx2]:
    it returns then, and [unpack] gives the public key and the signature
    back, with an empty archive.  The array that [packCrx2] returns is the
    one it allocates, which spans its buffer. *)
Theorem packCrx2_empty_round_trip (privateKey publicKey sg : Uint8Array) (rsa : option RSA)
  (r : RSA) :
  rsa_or_import rsa privateKey = Return r ->
  RSA_sign r pkcs1_sha1 [] = Return sg ->
  len publicKey < 2 ^ 32 -> len sg < 2 ^ 32 ->
  exists crx,
    packCrx2 privateKey publicKey [] rsa = Return crx /\
    len crx = 16 + len publicKey + len sg /\
    unpack (whole crx) = Return (UnpackedCrx2 [] publicKey sg).
Proof.
  intros Hkey Hsign Hpk Hsg.
  rewrite (packCrx2_with_key _ _ _ _ r Hkey).
  destruct (packCrx2_empty_contents privateKey publicKey sg r Hsign Hpk Hsg)
    as [crx [Hpack Hunpack]].
  exists crx. split; [exact Hpack |]. split; [| exact Hunpack].
  revert Hpack. unfold packCrx2. cbn [rsa_or_import bind]. rewrite Hsign. cbn [bind].
  pose proof (len_nonneg publicKey) as Hp. pose proof (len_nonneg sg) as Hs.
  assert (Hnew : len (new_Uint8Array (16 + len publicKey + len sg))
                 = 16 + len publicKey + len sg).
  { unfold new_Uint8Array. rewrite len_repeat. lia. }
  destruct (set _ kSignature 0) as [r1 |] eqn:E1; [| discriminate].
  apply set_len in E1. cbn [bind].
  destruct (setUint32 r1 4 2) as [r2 |] eqn:E2; [| discriminate].
  apply setUint32_len in E2. cbn [bind].
  destruct (setUint32 r2 8 _) as [r3 |] eqn:E3; [| discriminate].
  apply setUint32_len in E3. cbn [bind].
  destruct (setUint32 r3 12 _) as [r4 |] eqn:E4; [| discriminate].
  apply setUint32_len in E4. cbn [bind].
  destruct (set r4 publicKey 16) as [r5 |] eqn:E5; [| discriminate].
  apply set_len in E5. cbn [bind].
  destruct (set r5 sg _) as [r6 |] eqn:E6; [| discriminate].
  apply set_len in E6. cbn [bind].
  destruct (set r6 [] _) as [r7 |] eqn:E7; [| discriminate].
  apply set_len in E7. cbn [bind].
  intros [= <-]. congruence.
Qed.

(** ** [unpack] on version 3 containers *)

(** The version 3 branch of [unpack], for an array that spans its buffer:
    the declared length cuts what follows the 12-byte prefix into the header
    and the archive. *)
Lemma unpack_crx3_body (headerLength : Z) (body : Uint8Array) :
  0 <= headerLength < 2 ^ 32 ->
  unpack (whole (kSignature ++ kVersion ++ le_split 4 headerLength ++ body))
  = ('(decodedHeader, _) <-
       crx3.CrxFileHeader.read
         (Pbf.new_Reader (firstn (Z.to_nat headerLength) body)) None ;;
     Return (UnpackedCrx3 (skipn (Z.to_nat headerLength) body) decodedHeader)).
Proof.
  intros Hsmall.
  set (crx := kSignature ++ kVersion ++ le_split 4 headerLength ++ body).
  unfold unpack. rewrite elements_whole. cbn [buffer whole]. cbv zeta.
  assert (Hmagic : every (magic_callback crx) kSignature = Return true)
    by apply unpack_magic.
  rewrite Hmagic. cbn [bind].
  rewrite (getUint32_at crx kVersion (le_split 4 headerLength ++ body) 4);
    [| lia | reflexivity | reflexivity].
  cbn [bind]. change (le_combine kVersion =? 2) with false.
  change (le_combine kVersion =? 3) with true. cbv iota.
  rewrite (getUint32_at crx (le_split 4 headerLength) body 8);
    [| lia | reflexivity | apply length_le_split].
  cbn [bind]. rewrite le_combine_split.
  change (Z.of_nat 4 * 8) with 32. rewrite Z.mod_small by lia.
  set (front := kSignature ++ kVersion ++ le_split 4 headerLength).
  assert (Hcrx : crx = front ++ body)
    by (unfold crx, front; rewrite <- !List.app_assoc; reflexivity).
  assert (Hf : List.length front = 12%nat)
    by (unfold front; rewrite !List.length_app, length_le_split; reflexivity).
  rewrite Hcrx. rewrite slice_to_end, slice_nonneg by lia.
  replace (Z.to_nat (12 + headerLength)) with (12 + Z.to_nat headerLength)%nat by lia.
  change (Z.to_nat 12) with 12%nat.
  rewrite (List.skipn_app_r front _ 12) by (symmetry; exact Hf).
  rewrite (List.skipn_app_r2 front body 12 (Z.to_nat headerLength))
    by (symmetry; exact Hf).
  replace (12 + Z.to_nat headerLength - 12)%nat with (Z.to_nat headerLength) by lia.
  reflexivity.
Qed.

(** X3.  A version 3 container whose declared header length runs past its
    end, in an array that spans its buffer from the first byte, is not
    rejected for that: all that follows the 12-byte prefix is read as the
    header, and the archive is empty. *)
Theorem unpack_crx3_overrun (headerLength : Z) (body : Uint8Array) :
  0 <= headerLength < 2 ^ 32 -> len body <= headerLength ->
  unpack (whole (kSignature ++ kVersion ++ le_split 4 headerLength ++ body))
  = ('(decodedHeader, _) <- crx3.CrxFileHeader.read (Pbf.new_Reader body) None ;;
     Return (UnpackedCrx3 [] decodedHeader)).
Proof.
  intros Hsmall Hover. rewrite unpack_crx3_body by exact Hsmall.
  rewrite List.firstn_all2 by (unfold len in Hover; lia).
  rewrite List.skipn_all2 by (unfold len in Hover; lia).
  reflexivity.
Qed.

(** X4.  [unpack] checks no signature: what it returns for a version 3
    container, in an array that spans its buffer from the first byte, is the
    archive as it stands and a header decoded from the header bytes alone,
    so that any other archive behind the same header unpacks as well, with
    the same header. *)
Theorem unpack_crx3_archive_unchecked (header archive archive' : Uint8Array) (u : Unpacked) :
  len header < 2 ^ 32 ->
  unpack (whole (kSignature ++ kVersion ++ le_split 4 (len header) ++ header ++ archive))
  = Return u ->
  exists decodedHeader,
    u = UnpackedCrx3 archive decodedHeader /\
    unpack (whole (kSignature ++ kVersion ++ le_split 4 (len header) ++ header ++ archive'))
    = Return (UnpackedCrx3 archive' decodedHeader).
Proof.
  intros Hsmall. rewrite !unpack_crx3 by exact Hsmall.
  destruct (crx3.CrxFileHeader.read (Pbf.new_Reader header) None) as [[h p] |];
    cbn [bind]; [| discriminate].
  intros [= <-]. exists h. split; reflexivity.
Qed.

(** X5.  A version 3 container with an empty header, that is with no key and
    no signature at all, in an array that spans its buffer from the first
    byte, is unpacked. *)
Theorem unpack_crx3_empty_header (archive : Uint8Array) :
  unpack (whole (kSignature ++ kVersion ++ le_split 4 0 ++ archive))
  = Return (UnpackedCrx3 archive
              {| sha256_with_rsa := Some []; sha256_with_ecdsa := Some [];
                 signed_header_data := None |}).
Proof.
  rewrite unpack_crx3_body by lia. reflexivity.
Qed.

(** ** The layout of [packCrx3] *)

(** X6.  The writes of [packCrx3] fill the allocated array exactly and never
    throw: once the signature is made the result is the magic number, the
    version, the length of the header in four little-endian bytes, the
    header and the contents; when the signature cannot be made its error is
    the error of [packCrx3]. *)
Theorem packCrx3_layout (privateKey publicKey contents : Uint8Array) (rsa : option RSA) :
  let signedHeaderData :=
    Pbf.finish (crx3.SignedData.write {| crx_id := Some (generateBinaryCrxId publicKey) |}
                  Pbf.new_Writer) in
  packCrx3 privateKey publicKey contents rsa
  = (sg <- generateCrx3Signature privateKey signedHeaderData contents rsa ;;
     let header :=
       Pbf.finish
         (crx3.CrxFileHeader.write
            {| sha256_with_rsa := Some [ {| public_key := Some publicKey;
                                            signature := Some sg |} ];
               sha256_with_ecdsa := None;
               signed_header_data := Some signedHeaderData |} Pbf.new_Writer) in
     Return (kSignature ++ kVersion ++ le_split 4 (len header) ++ header ++ contents)).
Proof.
  cbv zeta. rewrite SignedData_write_bytes.
  destruct (generateCrx3Signature privateKey
              (signed_data_bytes (generateBinaryCrxId publicKey)) contents rsa)
    as [sg | e] eqn:Hsign; cbn [bind].
  - rewrite CrxFileHeader_write_bytes. apply packCrx3_bytes. exact Hsign.
  - unfold packCrx3. rewrite SignedData_write_bytes, Hsign. reflexivity.
Qed.

(** ** The two identifiers *)

Lemma generateCrxId_nibbles (publicKey : Uint8Array) :
  generateCrxId publicKey
  = string_of_list_ascii (List.map nibble_char (firstn 32 (nibbles (sha256 publicKey)))).
Proof.
  unfold generateCrxId. rewrite toString_hex_nibbles. unfold split_chars.
  rewrite list_ascii_of_string_of_list_ascii, !List.map_map.
  rewrite (List.map_ext_in _ (fun v => String (nibble_char v) EmptyString)).
  - rewrite join_single_chars, substring_of_list_ascii, List.firstn_map. reflexivity.
  - intros v Hin. apply remap_nibble.
    pose proof (nibbles_range (sha256 publicKey)) as Hr.
    rewrite List.Forall_forall in Hr. apply Hr. exact Hin.
Qed.

Lemma nibbles_firstn (n : nat) :
  forall d : Uint8Array, firstn (2 * n) (nibbles d) = nibbles (firstn n d).
Proof.
  induction n as [| n IH]; intros d; [reflexivity |].
  destruct d as [| x d]; [reflexivity |].
  replace (2 * S n)%nat with (S (S (2 * n))) by lia.
  cbn [nibbles flat_map firstn List.app]. fold (nibbles d). fold (nibbles (firstn n d)).
  rewrite IH. reflexivity.
Qed.

Lemma generateBinaryCrxId_firstn (publicKey : Uint8Array) :
  generateBinaryCrxId publicKey = firstn 16 (sha256 publicKey).
Proof.
  unfold generateBinaryCrxId, CRX_ID_SIZE. rewrite slice_nonneg by lia. reflexivity.
Qed.

Lemma generateCrxId_binary (publicKey : Uint8Array) :
  generateCrxId publicKey
  = string_of_list_ascii (List.map nibble_char (nibbles (generateBinaryCrxId publicKey))).
Proof.
  rewrite generateCrxId_nibbles, generateBinaryCrxId_firstn.
  rewrite <- (nibbles_firstn 16). reflexivity.
Qed.

(** X7.  The textual identifier spells the binary identifier that [packCrx3]
    puts into the signed header data: two letters per byte, ['a' + v] for a
    hexadecimal digit [v], high digit first. *)
Theorem generateCrxId_of_binary (publicKey : Uint8Array) :
  generateCrxId publicKey
  = string_of_list_ascii (List.map nibble_char (nibbles (generateBinaryCrxId publicKey))) /\
  String.length (generateCrxId publicKey)
  = (2 * List.length (generateBinaryCrxId publicKey))%nat.
Proof.
  split; [apply generateCrxId_binary |].
  rewrite generateCrxId_binary, length_of_list_ascii, List.length_map, length_nibbles.
  reflexivity.
Qed.

Lemma nibble_char_inj (v w : Z) :
  0 <= v < 16 -> 0 <= w < 16 -> nibble_char v = nibble_char w -> v = w.
Proof.
  intros Hv Hw H. unfold nibble_char in H.
  apply (f_equal nat_of_ascii) in H.
  rewrite !nat_ascii_embedding in H by lia. lia.
Qed.

Lemma map_nibble_char_inj (l : list Z) :
  forall l', Forall (fun v => 0 <= v < 16) l -> Forall (fun v => 0 <= v < 16) l' ->
             List.map nibble_char l = List.map nibble_char l' -> l = l'.
Proof.
  induction l as [| v l IH]; intros [| w l'] Hl Hl' H; try discriminate H; [reflexivity |].
  inversion Hl; subst. inversion Hl'; subst. cbn [List.map] in H.
  injection H as Hhead Htail. f_equal; [apply nibble_char_inj; assumption | auto].
Qed.

Lemma nibbles_inj (d : Uint8Array) : forall d', nibbles d = nibbles d' -> d = d'.
Proof.
  induction d as [| x d IH]; intros [| y d'] H; try discriminate H; [reflexivity |].
  cbn [nibbles flat_map List.app] in H. injection H as Hhi Hlo Hrest.
  f_equal; [| apply IH; exact Hrest].
  rewrite <- (byte.of_Z_unsigned x), <- (byte.of_Z_unsigned y). f_equal.
  rewrite (Z.div_mod (byte.unsigned x) 16), (Z.div_mod (byte.unsigned y) 16) by lia.
  congruence.
Qed.

(** X8.  Two keys have the same textual identifier exactly when they have the
    same binary identifier. *)
Theorem generateCrxId_same_iff (publicKey publicKey' : Uint8Array) :
  generateCrxId publicKey = generateCrxId publicKey'
  <-> generateBinaryCrxId publicKey = generateBinaryCrxId publicKey'.
Proof.
  rewrite !generateCrxId_binary. split; [| intros ->; reflexivity].
  intros H. apply (f_equal list_ascii_of_string) in H.
  rewrite !list_ascii_of_string_of_list_ascii in H.
  apply nibbles_inj. apply map_nibble_char_inj; [apply nibbles_range .. | exact H].
Qed.

(** ** The generated readers and writers, field by field *)

Lemma sees_unread (p : Pbf.Reader) (l : list byte) :
  sees p l -> unread p = List.length l /\ 0 <= Pbf.pos p.
Proof.
  intros [pre [Hbuf Hpos]]. unfold unread. rewrite Hbuf, Hpos, List.length_app.
  unfold len. split; lia.
Qed.

(** The key of a field of wire type bytes decodes to its tag. *)
Lemma field_key_decode (tag : Z) :
  0 < tag < 2 ^ 28 ->
  let val := Z.lor (Z.shiftl tag 3) Pbf.PBF_BYTES in
  0 <= val < 2 ^ 63 /\ Z.shiftr (Pbf.toInt32 val) 3 = tag
  /\ Z.land (Pbf.toInt32 val) 0x7 = Pbf.PBF_BYTES.
Proof.
  intros Htag. cbv zeta. unfold Pbf.PBF_BYTES.
  assert (Hdisjoint : Z.land (Z.shiftl tag 3) 2 = 0).
  { apply Z.bits_inj'. intros i Hi. rewrite Z.land_spec, Z.bits_0.
    destruct (Z.lt_ge_cases i 3).
    - rewrite Z.shiftl_spec_low by lia. reflexivity.
    - change 2 with (2 ^ 1). rewrite Z.pow2_bits_eqb by lia.
      destruct (Z.eqb_spec 1 i); [lia |]. apply Bool.andb_false_r. }
  assert (Hval : Z.lor (Z.shiftl tag 3) 2 = 8 * tag + 2).
  { rewrite <- Z.lxor_lor by exact Hdisjoint.
    rewrite <- Z.add_nocarry_lxor by exact Hdisjoint.
    rewrite Z.shiftl_mul_pow2 by lia. lia. }
  rewrite Hval. unfold Pbf.toInt32.
  rewrite Z.mod_small by lia.
  replace (8 * tag + 2 + 2 ^ 31 - 2 ^ 31) with (2 + tag * 8) by lia.
  split; [lia |]. split.
  - rewrite Z.shiftr_div_pow2 by lia. change (2 ^ 3) with 8.
    rewrite Z.div_add by lia. reflexivity.
  - change 0x7 with (Z.ones 3). rewrite Z.land_ones by lia. change (2 ^ 3) with 8.
    rewrite Z.mod_add by lia. reflexivity.
Qed.

Lemma field_key_nonempty (tag : Z) : 0 < len (field_key tag).
Proof. apply varint_bytes_nonempty. Qed.

Lemma len_bytes_field (tag : Z) (x : Uint8Array) :
  len (bytes_field tag x) = len (field_key tag) + (len (Pbf.varint_bytes 10 (len x)) + len x).
Proof. unfold bytes_field. rewrite !len_app. reflexivity. Qed.

(** A field is longer than its value. *)
Lemma bytes_field_longer (tag : Z) (x : Uint8Array) : len x < len (bytes_field tag x).
Proof.
  rewrite len_bytes_field. pose proof (field_key_nonempty tag).
  pose proof (varint_bytes_nonempty 9 (len x)). lia.
Qed.

(** One turn of the loop on a field that the callback reads. *)
Lemma readFields_loop_field {A : Type}
  (readField : Z -> A -> Pbf.Reader -> Completion (A * Pbf.Reader))
  (fuel : nat) (result result' : A) (end_ val : Z) (p p1 p2 : Pbf.Reader) :
  forward readField ->
  0 <= Pbf.pos p -> Pbf.pos p < end_ -> (unread p < fuel)%nat ->
  Pbf.readVarint p = Return (val, p1) ->
  readField (Z.shiftr (Pbf.toInt32 val) 3) result p1 = Return (result', p2) ->
  Pbf.pos p2 <> Pbf.pos p1 ->
  Pbf.readFields_loop fuel readField result end_ p
  = Pbf.readFields_loop fuel readField result' end_ p2.
Proof.
  intros Hforward Hpos Hlt Hfuel Hvar Hfield Hmoved.
  destruct fuel as [| fuel]; [lia |].
  rewrite (readFields_loop_step fuel _ _ result' _ val p p1 p2) by assumption.
  assert (Hskip : (if Pbf.pos p2 =? Pbf.pos p1 then Pbf.skip val p2 else Return p2)
                  = Return p2)
    by (destruct (Z.eqb_spec (Pbf.pos p2) (Pbf.pos p1)); [contradiction | reflexivity]).
  destruct (readFields_iteration readField result p Hforward Hpos _ _ _ _ _ Hvar Hfield Hskip)
    as [_ [Hle Hun]].
  apply (readFields_loop_fuel _ _ Hforward); lia.
Qed.

(** One turn of the loop on a field that the callback leaves alone: [skip]
    moves over it. *)
Lemma readFields_loop_skipped {A : Type}
  (readField : Z -> A -> Pbf.Reader -> Completion (A * Pbf.Reader))
  (fuel : nat) (result : A) (end_ val : Z) (p p1 p3 : Pbf.Reader) :
  forward readField ->
  0 <= Pbf.pos p -> Pbf.pos p < end_ -> (unread p < fuel)%nat ->
  Pbf.readVarint p = Return (val, p1) ->
  readField (Z.shiftr (Pbf.toInt32 val) 3) result p1 = Return (result, p1) ->
  Pbf.skip val p1 = Return p3 ->
  Pbf.readFields_loop fuel readField result end_ p
  = Pbf.readFields_loop fuel readField result end_ p3.
Proof.
  intros Hforward Hpos Hlt Hfuel Hvar Hfield Hskip.
  destruct fuel as [| fuel]; [lia |].
  assert (Hskip' : (if Pbf.pos p1 =? Pbf.pos p1 then Pbf.skip val p1 else Return p1)
                   = Return p3) by (rewrite Z.eqb_refl; exact Hskip).
  destruct (readFields_iteration readField result p Hforward Hpos _ _ _ _ _ Hvar Hfield Hskip')
    as [_ [Hle Hun]].
  transitivity (Pbf.readFields_loop fuel readField result end_ p3).
  - cbn [Pbf.readFields_loop]. destruct (Z.ltb_spec (Pbf.pos p) end_); [| lia].
    rewrite Hvar. cbn [bind]. rewrite Hfield. cbn [bind]. rewrite Hskip'. reflexivity.
  - apply (readFields_loop_fuel _ _ Hforward); lia.
Qed.

(** A bytes field in front of a callback that stores its value. *)
Lemma readFields_loop_bytes_field {A : Type}
  (readField : Z -> A -> Pbf.Reader -> Completion (A * Pbf.Reader))
  (tag : Z) (update : A -> Uint8Array -> A) :
  forward readField -> 0 < tag < 2 ^ 28 ->
  (forall result pbf,
      readField tag result pbf
      = ('(b, pbf') <- Pbf.readBytes pbf ;; Return (update result b, pbf'))) ->
  forall (fuel : nat) (result : A) (end_ : Z) (p : Pbf.Reader) (x : Uint8Array)
         (rest : list byte),
    sees p (bytes_field tag x ++ rest) -> len x < 2 ^ 63 ->
    Pbf.pos p < end_ -> (unread p < fuel)%nat ->
    Pbf.readFields_loop fuel readField result end_ p
    = Pbf.readFields_loop fuel readField (update result x) end_
        (advance p (len (bytes_field tag x))).
Proof.
  intros Hforward Htag Hstores fuel result end_ p x rest Hsees Hx Hlt Hfuel.
  destruct (field_key_decode tag Htag) as [Hval [Hdecode _]].
  destruct (sees_unread _ _ Hsees) as [_ Hpos].
  pose proof (field_key_nonempty tag) as Hkey.
  pose proof (varint_bytes_nonempty 9 (len x)) as Hvx.
  pose proof (len_nonneg x) as Hx0.
  unfold bytes_field in Hsees. rewrite <- !List.app_assoc in Hsees.
  pose proof (sees_advance p (field_key tag) _ Hsees) as Hsees1.
  apply (readFields_loop_field readField fuel result (update result x) end_
           (Z.lor (Z.shiftl tag 3) Pbf.PBF_BYTES) p (advance p (len (field_key tag))));
    try assumption.
  - apply (readVarint_sees p _ _ Hsees). exact Hval.
  - rewrite Hdecode, Hstores.
    rewrite (readBytes_sees _ x rest Hsees1) by exact Hx. cbn [bind].
    rewrite advance_advance. do 2 f_equal. apply advance_eq.
    rewrite len_bytes_field. reflexivity.
  - rewrite len_bytes_field. cbn [advance Pbf.buf Pbf.pos]. lia.
Qed.

(** A bytes field in front of a callback that does not know its tag. *)
Lemma readFields_loop_unknown_field {A : Type}
  (readField : Z -> A -> Pbf.Reader -> Completion (A * Pbf.Reader)) (tag : Z) :
  forward readField -> 0 < tag < 2 ^ 28 ->
  (forall result pbf, readField tag result pbf = Return (result, pbf)) ->
  forall (fuel : nat) (result : A) (end_ : Z) (p : Pbf.Reader) (x : Uint8Array)
         (rest : list byte),
    sees p (bytes_field tag x ++ rest) -> len x < 2 ^ 63 ->
    Pbf.pos p < end_ -> (unread p < fuel)%nat ->
    Pbf.readFields_loop fuel readField result end_ p
    = Pbf.readFields_loop fuel readField result end_ (advance p (len (bytes_field tag x))).
Proof.
  intros Hforward Htag Hunknown fuel result end_ p x rest Hsees Hx Hlt Hfuel.
  destruct (field_key_decode tag Htag) as [Hval [Hdecode Htype]].
  destruct (sees_unread _ _ Hsees) as [_ Hpos].
  pose proof (len_nonneg x) as Hx0.
  unfold bytes_field in Hsees. rewrite <- !List.app_assoc in Hsees.
  pose proof (sees_advance p (field_key tag) _ Hsees) as Hsees1.
  apply (readFields_loop_skipped readField fuel result end_
           (Z.lor (Z.shiftl tag 3) Pbf.PBF_BYTES) p (advance p (len (field_key tag))));
    try assumption.
  - apply (readVarint_sees p _ _ Hsees). exact Hval.
  - rewrite Hdecode. apply Hunknown.
  - unfold Pbf.skip. cbv zeta. rewrite Htype.
    change (Pbf.PBF_BYTES =? Pbf.PBF_VARINT) with false.
    change (Pbf.PBF_BYTES =? Pbf.PBF_BYTES) with true. cbv iota.
    rewrite (readVarint_sees _ (len x) (x ++ rest) Hsees1) by lia. cbn [bind].
    f_equal. unfold advance. cbn [Pbf.buf Pbf.pos]. f_equal.
    rewrite len_bytes_field. lia.
Qed.

(** *** What the writers emit *)

Lemma optional_field_write (tag : Z) (x : option Uint8Array) (w : Pbf.Writer) :
  match x with
  | Some x => Pbf.writeBytesField tag x w
  | None => w
  end = w ++ optional_field tag x.
Proof.
  destruct x as [x |]; cbn [optional_field].
  - apply writeBytesField_bytes.
  - symmetry. apply List.app_nil_r.
Qed.

Lemma AsymmetricKeyProof_write_wire (obj : AsymmetricKeyProof) (w : Pbf.Writer) :
  crx3.AsymmetricKeyProof.write obj w = w ++ proof_wire obj.
Proof.
  unfold crx3.AsymmetricKeyProof.write, proof_wire. cbv zeta.
  rewrite !optional_field_write, <- List.app_assoc. reflexivity.
Qed.

Lemma SignedData_write_wire (obj : SignedData) (w : Pbf.Writer) :
  crx3.SignedData.write obj w = w ++ optional_field 1 (crx_id obj).
Proof. unfold crx3.SignedData.write. apply optional_field_write. Qed.

Lemma write_proofs_wire (tag : Z) (l : option (list AsymmetricKeyProof)) (w : Pbf.Writer) :
  crx3.CrxFileHeader.write_proofs tag l w = w ++ proofs_wire tag (present l).
Proof.
  unfold crx3.CrxFileHeader.write_proofs.
  destruct l as [l |]; cbn [present proofs_wire flat_map];
    [| symmetry; apply List.app_nil_r].
  revert w. induction l as [| proof l IH]; intros w; cbn [fold_left flat_map].
  - symmetry. apply List.app_nil_r.
  - rewrite IH. unfold Pbf.writeMessage.
    rewrite (writeRawMessage_bytes _ _ (proof_wire proof))
      by (intros w'; apply AsymmetricKeyProof_write_wire).
    unfold Pbf.writeTag, Pbf.writeVarint, bytes_field, field_key.
    rewrite <- !List.app_assoc. reflexivity.
Qed.

Lemma CrxFileHeader_write_wire (obj : CrxFileHeader) (w : Pbf.Writer) :
  crx3.CrxFileHeader.write obj w = w ++ header_wire obj.
Proof.
  unfold crx3.CrxFileHeader.write, header_wire. cbv zeta.
  rewrite optional_field_write, !write_proofs_wire, <- !List.app_assoc. reflexivity.
Qed.

(** *** Reading written fields back *)

Lemma advance_0 (p : Pbf.Reader) : advance p 0 = p.
Proof. destruct p as [b n]. unfold advance. cbn [Pbf.buf Pbf.pos]. f_equal. lia. Qed.

Lemma readFields_loop_optional_field {A : Type}
  (readField : Z -> A -> Pbf.Reader -> Completion (A * Pbf.Reader))
  (tag : Z) (update : A -> Uint8Array -> A) :
  forward readField -> 0 < tag < 2 ^ 28 ->
  (forall result pbf,
      readField tag result pbf
      = ('(b, pbf') <- Pbf.readBytes pbf ;; Return (update result b, pbf'))) ->
  forall (fuel : nat) (result : A) (end_ : Z) (p : Pbf.Reader) (x : option Uint8Array)
         (rest : list byte),
    sees p (optional_field tag x ++ rest) -> len (optional_field tag x) < 2 ^ 63 ->
    Pbf.pos p + len (optional_field tag x) <= end_ -> (unread p < fuel)%nat ->
    Pbf.readFields_loop fuel readField result end_ p
    = Pbf.readFields_loop fuel readField
        (match x with
         | Some b => update result b
         | None => result
         end) end_ (advance p (len (optional_field tag x))).
Proof.
  intros Hforward Htag Hstores fuel result end_ p [x |] rest; cbn [optional_field].
  - intros Hsees Hsmall Hend Hfuel. pose proof (bytes_field_longer tag x) as Hlonger.
    pose proof (len_nonneg x).
    apply (readFields_loop_bytes_field readField tag update Hforward Htag Hstores
             fuel result end_ p x rest); try assumption; lia.
  - intros _ _ _ _. change (len []) with 0. rewrite advance_0. reflexivity.
Qed.

(** A proof is read back from its fields, wherever they stand. *)
Lemma AsymmetricKeyProof_read_wire (p : Pbf.Reader) (obj : AsymmetricKeyProof)
  (tail : list byte) :
  sees p (proof_wire obj ++ tail) -> len (proof_wire obj) < 2 ^ 63 ->
  crx3.AsymmetricKeyProof.read p (Some (len (proof_wire obj) + Pbf.pos p))
  = Return (obj, advance p (len (proof_wire obj))).
Proof.
  intros Hsees Hsmall. destruct obj as [pk sg]. unfold proof_wire in *.
  cbn [public_key signature] in *.
  pose proof (len_nonneg (optional_field 1 pk)) as H1.
  pose proof (len_nonneg (optional_field 2 sg)) as H2.
  rewrite len_app in *.
  destruct (sees_unread _ _ Hsees) as [Hunread Hpos].
  unfold crx3.AsymmetricKeyProof.read, Pbf.readFields.
  assert (Hfuel : (unread p < S (List.length (Pbf.buf p)))%nat) by (unfold unread; lia).
  rewrite <- List.app_assoc in Hsees.
  rewrite (readFields_loop_optional_field _ 1
             (fun o b => {| public_key := Some b; signature := signature o |})
             AsymmetricKeyProof_readField_forward ltac:(lia) ltac:(reflexivity)
             _ _ _ p pk _ Hsees) by lia.
  apply sees_advance in Hsees.
  destruct (sees_unread _ _ Hsees) as [Hunread' _].
  rewrite (readFields_loop_optional_field _ 2
             (fun o b => {| public_key := public_key o; signature := Some b |})
             AsymmetricKeyProof_readField_forward ltac:(lia) ltac:(reflexivity)
             _ _ _ _ sg _ Hsees).
  - rewrite advance_advance, readFields_loop_done
      by (cbn [advance Pbf.buf Pbf.pos]; lia).
    destruct pk, sg; reflexivity.
  - lia.
  - cbn [advance Pbf.buf Pbf.pos]. lia.
  - rewrite Hunread'. rewrite Hunread in Hfuel. rewrite !List.length_app in Hfuel.
    rewrite List.length_app. lia.
Qed.

Lemma len_proofs_wire_cons (tag : Z) (proof : AsymmetricKeyProof)
  (l : list AsymmetricKeyProof) :
  len (proofs_wire tag (proof :: l))
  = len (bytes_field tag (proof_wire proof)) + len (proofs_wire tag l).
Proof. unfold proofs_wire. cbn [flat_map]. apply len_app. Qed.

(** One proof of an array, read by the callback of the header. *)
Lemma CrxFileHeader_readField_proof (tag : Z) (obj : CrxFileHeader) (p : Pbf.Reader)
  (proof : AsymmetricKeyProof) (rest : list byte) :
  sees p (Pbf.varint_bytes 10 (len (proof_wire proof)) ++ proof_wire proof ++ rest) ->
  len (proof_wire proof) < 2 ^ 63 ->
  ('(n, pbf1) <- Pbf.readVarint p ;;
   crx3.AsymmetricKeyProof.read pbf1 (Some (n + Pbf.pos pbf1)))
  = Return (proof, advance p (len (Pbf.varint_bytes 10 (len (proof_wire proof)))
                             + len (proof_wire proof))).
Proof.
  intros Hsees Hsmall. pose proof (len_nonneg (proof_wire proof)).
  rewrite (readVarint_sees _ _ _ Hsees) by lia. cbn [bind].
  apply sees_advance in Hsees.
  rewrite (AsymmetricKeyProof_read_wire _ proof rest Hsees Hsmall).
  rewrite advance_advance. reflexivity.
Qed.

Lemma CrxFileHeader_loop_rsa (l : list AsymmetricKeyProof) :
  forall (fuel : nat) (rsa : list AsymmetricKeyProof)
         (ecdsa : option (list AsymmetricKeyProof)) (d : option Uint8Array)
         (end_ : Z) (p : Pbf.Reader) (rest : list byte),
    sees p (proofs_wire 2 l ++ rest) -> len (proofs_wire 2 l) < 2 ^ 63 ->
    Pbf.pos p + len (proofs_wire 2 l) <= end_ -> (unread p < fuel)%nat ->
    Pbf.readFields_loop fuel crx3.CrxFileHeader._readField
      {| sha256_with_rsa := Some rsa; sha256_with_ecdsa := ecdsa;
         signed_header_data := d |} end_ p
    = Pbf.readFields_loop fuel crx3.CrxFileHeader._readField
        {| sha256_with_rsa := Some (rsa ++ l); sha256_with_ecdsa := ecdsa;
           signed_header_data := d |} end_ (advance p (len (proofs_wire 2 l))).
Proof.
  induction l as [| proof l IH]; intros fuel rsa ecdsa d end_ p rest Hsees Hsmall Hend Hfuel.
  - change (len (proofs_wire 2 [])) with 0. rewrite advance_0, List.app_nil_r. reflexivity.
  - rewrite len_proofs_wire_cons in *. rewrite len_bytes_field in *.
    pose proof (len_nonneg (proofs_wire 2 l)) as Hl0.
    pose proof (len_nonneg (proof_wire proof)) as Hp0.
    pose proof (field_key_nonempty 2) as Hkey.
    pose proof (varint_bytes_nonempty 9 (len (proof_wire proof))) as Hv.
    unfold proofs_wire in Hsees. cbn [flat_map] in Hsees. fold (proofs_wire 2 l) in Hsees.
    unfold bytes_field in Hsees. rewrite <- !List.app_assoc in Hsees.
    destruct (sees_unread _ _ Hsees) as [Hunread Hpos].
    pose proof (sees_advance p (field_key 2) _ Hsees) as Hsees1.
    pose proof (sees_advance2 _ _ _ _ Hsees1) as Hsees2. rewrite advance_advance in Hsees2.
    rewrite (readFields_loop_field _ fuel _
               {| sha256_with_rsa := Some (rsa ++ [proof]); sha256_with_ecdsa := ecdsa;
                  signed_header_data := d |} end_ 18 p (advance p (len (field_key 2)))
               (advance p (len (field_key 2)
                           + (len (Pbf.varint_bytes 10 (len (proof_wire proof)))
                              + len (proof_wire proof))))
               CrxFileHeader_readField_forward); try assumption; try lia.
    + destruct (sees_unread _ _ Hsees2) as [Hunread2 _].
      rewrite (IH fuel (rsa ++ [proof]) ecdsa d end_ _ rest Hsees2).
      * rewrite advance_advance, <- List.app_assoc. reflexivity.
      * lia.
      * cbn [advance Pbf.buf Pbf.pos]. lia.
      * rewrite Hunread2. rewrite Hunread in Hfuel. rewrite !List.length_app in Hfuel.
        rewrite List.length_app. lia.
    + apply (readVarint_sees p 18 _ Hsees). lia.
    + change (Z.shiftr (Pbf.toInt32 18) 3) with 2.
      unfold crx3.CrxFileHeader._readField. cbn [Z.eqb Pos.eqb].
      pose proof (CrxFileHeader_readField_proof 2 {| sha256_with_rsa := Some rsa;
                                                    sha256_with_ecdsa := ecdsa;
                                                    signed_header_data := d |}
                    _ proof _ Hsees1 ltac:(lia)) as Hread.
      destruct (Pbf.readVarint (advance p (len (field_key 2)))) as [[n pbf1] |];
        [| discriminate Hread].
      cbn [bind] in *. rewrite Hread. cbn [bind crx3.CrxFileHeader.push sha256_with_rsa
                                            sha256_with_ecdsa signed_header_data].
      rewrite advance_advance. reflexivity.
    + cbn [advance Pbf.buf Pbf.pos]. lia.
Qed.

Lemma CrxFileHeader_loop_ecdsa (l : list AsymmetricKeyProof) :
  forall (fuel : nat) (rsa : option (list AsymmetricKeyProof))
         (ecdsa : list AsymmetricKeyProof) (d : option Uint8Array)
         (end_ : Z) (p : Pbf.Reader) (rest : list byte),
    sees p (proofs_wire 3 l ++ rest) -> len (proofs_wire 3 l) < 2 ^ 63 ->
    Pbf.pos p + len (proofs_wire 3 l) <= end_ -> (unread p < fuel)%nat ->
    Pbf.readFields_loop fuel crx3.CrxFileHeader._readField
      {| sha256_with_rsa := rsa; sha256_with_ecdsa := Some ecdsa;
         signed_header_data := d |} end_ p
    = Pbf.readFields_loop fuel crx3.CrxFileHeader._readField
        {| sha256_with_rsa := rsa; sha256_with_ecdsa := Some (ecdsa ++ l);
           signed_header_data := d |} end_ (advance p (len (proofs_wire 3 l))).
Proof.
  induction l as [| proof l IH]; intros fuel rsa ecdsa d end_ p rest Hsees Hsmall Hend Hfuel.
  - change (len (proofs_wire 3 [])) with 0. rewrite advance_0, List.app_nil_r. reflexivity.
  - rewrite len_proofs_wire_cons in *. rewrite len_bytes_field in *.
    pose proof (len_nonneg (proofs_wire 3 l)) as Hl0.
    pose proof (len_nonneg (proof_wire proof)) as Hp0.
    pose proof (field_key_nonempty 3) as Hkey.
    pose proof (varint_bytes_nonempty 9 (len (proof_wire proof))) as Hv.
    unfold proofs_wire in Hsees. cbn [flat_map] in Hsees. fold (proofs_wire 3 l) in Hsees.
    unfold bytes_field in Hsees. rewrite <- !List.app_assoc in Hsees.
    destruct (sees_unread _ _ Hsees) as [Hunread Hpos].
    pose proof (sees_advance p (field_key 3) _ Hsees) as Hsees1.
    pose proof (sees_advance2 _ _ _ _ Hsees1) as Hsees2. rewrite advance_advance in Hsees2.
    rewrite (readFields_loop_field _ fuel _
               {| sha256_with_rsa := rsa; sha256_with_ecdsa := Some (ecdsa ++ [proof]);
                  signed_header_data := d |} end_ 26 p (advance p (len (field_key 3)))
               (advance p (len (field_key 3)
                           + (len (Pbf.varint_bytes 10 (len (proof_wire proof)))
                              + len (proof_wire proof))))
               CrxFileHeader_readField_forward); try assumption; try lia.
    + destruct (sees_unread _ _ Hsees2) as [Hunread2 _].
      rewrite (IH fuel rsa (ecdsa ++ [proof]) d end_ _ rest Hsees2).
      * rewrite advance_advance, <- List.app_assoc. reflexivity.
      * lia.
      * cbn [advance Pbf.buf Pbf.pos]. lia.
      * rewrite Hunread2. rewrite Hunread in Hfuel. rewrite !List.length_app in Hfuel.
        rewrite List.length_app. lia.
    + apply (readVarint_sees p 26 _ Hsees). lia.
    + change (Z.shiftr (Pbf.toInt32 26) 3) with 3.
      unfold crx3.CrxFileHeader._readField. cbn [Z.eqb Pos.eqb].
      pose proof (CrxFileHeader_readField_proof 3 {| sha256_with_rsa := rsa;
                                                    sha256_with_ecdsa := Some ecdsa;
                                                    signed_header_data := d |}
                    _ proof _ Hsees1 ltac:(lia)) as Hread.
      destruct (Pbf.readVarint (advance p (len (field_key 3)))) as [[n pbf1] |];
        [| discriminate Hread].
      cbn [bind] in *. rewrite Hread. cbn [bind crx3.CrxFileHeader.push sha256_with_rsa
                                            sha256_with_ecdsa signed_header_data].
      rewrite advance_advance. reflexivity.
    + cbn [advance Pbf.buf Pbf.pos]. lia.
Qed.

Lemma CrxFileHeader_readField_unknown (tag : Z) (obj : CrxFileHeader) (pbf : Pbf.Reader) :
  tag <> 2 -> tag <> 3 -> tag <> 10000 ->
  crx3.CrxFileHeader._readField tag obj pbf = Return (obj, pbf).
Proof.
  intros H2 H3 H4. unfold crx3.CrxFileHeader._readField.
  destruct (Z.eqb_spec tag 2); [contradiction |].
  destruct (Z.eqb_spec tag 3); [contradiction |].
  destruct (Z.eqb_spec tag 10000); [contradiction |]. reflexivity.
Qed.

(** The header is read back from its fields; a bytes field with a tag that
    the header does not have, between the proofs and the signed header
    data, is passed over. *)
Lemma CrxFileHeader_read_segments (rsa ecdsa : list AsymmetricKeyProof)
  (middle : list byte) (d : option Uint8Array) :
  (middle = []
   \/ exists tag x, middle = bytes_field tag x /\ 0 < tag < 2 ^ 28
                    /\ tag <> 2 /\ tag <> 3 /\ tag <> 10000) ->
  let wire := proofs_wire 2 rsa ++ proofs_wire 3 ecdsa ++ middle
              ++ optional_field 10000 d in
  len wire < 2 ^ 63 ->
  crx3.CrxFileHeader.read (Pbf.new_Reader wire) None
  = Return ({| sha256_with_rsa := Some rsa; sha256_with_ecdsa := Some ecdsa;
               signed_header_data := d |},
            advance (Pbf.new_Reader wire) (len wire)).
Proof.
  intros Hmiddle wire Hsmall.
  pose proof (len_nonneg (proofs_wire 2 rsa)) as H1.
  pose proof (len_nonneg (proofs_wire 3 ecdsa)) as H2.
  pose proof (len_nonneg middle) as H3.
  pose proof (len_nonneg (optional_field 10000 d)) as H4.
  assert (Hlen : len wire = len (proofs_wire 2 rsa) + (len (proofs_wire 3 ecdsa)
                            + (len middle + len (optional_field 10000 d))))
    by (unfold wire; rewrite !len_app; reflexivity).
  set (p := Pbf.new_Reader wire).
  assert (Hsees : sees p (proofs_wire 2 rsa ++ proofs_wire 3 ecdsa ++ middle
                          ++ optional_field 10000 d ++ [])).
  { rewrite List.app_nil_r. apply sees_new. }
  unfold crx3.CrxFileHeader.read, Pbf.readFields, Pbf.length.
  change (Pbf.buf p) with wire. change (Pbf.pos p) with 0 in *.
  set (fuel := S (List.length wire)).
  assert (Hfuel0 : (unread p < fuel)%nat) by (unfold unread, fuel; cbn; lia).
  (* the RSA proofs *)
  rewrite (CrxFileHeader_loop_rsa rsa fuel [] _ _ _ p _ Hsees); try assumption;
    [| lia | change (Pbf.pos p) with 0; lia].
  cbn [app]. apply sees_advance in Hsees.
  (* the ECDSA proofs *)
  assert (Hfuel1 : (unread (advance p (len (proofs_wire 2 rsa))) < fuel)%nat).
  { destruct (sees_unread _ _ Hsees) as [-> _]. unfold fuel, wire.
    rewrite !List.length_app. cbn [List.length]. lia. }
  rewrite (CrxFileHeader_loop_ecdsa ecdsa fuel _ [] _ _ _ _ Hsees); try assumption;
    [| lia | cbn [advance Pbf.buf Pbf.pos]; change (Pbf.pos p) with 0; lia].
  cbn [app]. apply sees_advance in Hsees. rewrite advance_advance in *.
  assert (Hfuel2 : (unread (advance p (len (proofs_wire 2 rsa) + len (proofs_wire 3 ecdsa)))
                    < fuel)%nat).
  { destruct (sees_unread _ _ Hsees) as [-> _]. unfold fuel, wire.
    rewrite !List.length_app. cbn [List.length]. lia. }
  (* the field in the middle *)
  assert (Hmid : Pbf.readFields_loop fuel crx3.CrxFileHeader._readField
                   {| sha256_with_rsa := Some rsa; sha256_with_ecdsa := Some ecdsa;
                      signed_header_data := None |} (len wire)
                   (advance p (len (proofs_wire 2 rsa) + len (proofs_wire 3 ecdsa)))
                 = Pbf.readFields_loop fuel crx3.CrxFileHeader._readField
                     {| sha256_with_rsa := Some rsa; sha256_with_ecdsa := Some ecdsa;
                        signed_header_data := None |} (len wire)
                     (advance p (len (proofs_wire 2 rsa) + len (proofs_wire 3 ecdsa)
                                 + len middle))).
  { destruct Hmiddle as [-> | [tag [x [-> [Htag [Hn2 [Hn3 Hn4]]]]]]].
    - change (len []) with 0. rewrite Z.add_0_r. reflexivity.
    - pose proof (bytes_field_longer tag x) as Hlonger. pose proof (len_nonneg x).
      rewrite (readFields_loop_unknown_field _ tag CrxFileHeader_readField_forward Htag
                 (fun result pbf => CrxFileHeader_readField_unknown tag result pbf Hn2 Hn3 Hn4)
                 fuel _ (len wire) _ x _ Hsees); try assumption.
      + rewrite advance_advance. reflexivity.
      + lia.
      + cbn [advance Pbf.buf Pbf.pos]. change (Pbf.pos p) with 0. lia. }
  rewrite Hmid. clear Hmid. apply sees_advance in Hsees. rewrite advance_advance in *.
  assert (Hfuel3 : (unread (advance p (len (proofs_wire 2 rsa) + len (proofs_wire 3 ecdsa)
                                      + len middle)) < fuel)%nat).
  { destruct (sees_unread _ _ Hsees) as [-> _]. unfold fuel, wire.
    rewrite !List.length_app. cbn [List.length]. lia. }
  (* the signed header data *)
  rewrite (readFields_loop_optional_field _ 10000
             (fun o b => {| sha256_with_rsa := sha256_with_rsa o;
                            sha256_with_ecdsa := sha256_with_ecdsa o;
                            signed_header_data := Some b |})
             CrxFileHeader_readField_forward ltac:(lia) ltac:(reflexivity)
             fuel _ (len wire) _ d [] Hsees); try assumption;
    [| lia | cbn [advance Pbf.buf Pbf.pos]; change (Pbf.pos p) with 0; lia].
  rewrite advance_advance.
  rewrite readFields_loop_done
    by (cbn [advance Pbf.buf Pbf.pos]; change (Pbf.pos p) with 0; lia).
  f_equal. f_equal.
  - destruct d; reflexivity.
  - apply advance_eq. lia.
Qed.

(** ** Round trips through [crx3.pb.js] *)

(** X9.  What [AsymmetricKeyProof.write] writes, [AsymmetricKeyProof.read] reads
    back to the end: both fields, one of them or none, a field that is there
    but empty included. *)
Theorem AsymmetricKeyProof_round_trip (obj : AsymmetricKeyProof) :
  let written := Pbf.finish (crx3.AsymmetricKeyProof.write obj Pbf.new_Writer) in
  len written < 2 ^ 53 ->
  exists p,
    crx3.AsymmetricKeyProof.read (Pbf.new_Reader written) None = Return (obj, p)
    /\ Pbf.pos p = len written.
Proof.
  cbv zeta. unfold Pbf.finish, Pbf.new_Writer. rewrite AsymmetricKeyProof_write_wire.
  cbn [app]. intros Hsmall.
  exists (advance (Pbf.new_Reader (proof_wire obj)) (len (proof_wire obj))).
  split; [| reflexivity].
  pose proof (AsymmetricKeyProof_read_wire (Pbf.new_Reader (proof_wire obj)) obj []) as H.
  rewrite List.app_nil_r in H. specialize (H (sees_new _) ltac:(lia)).
  change (Pbf.pos (Pbf.new_Reader (proof_wire obj))) with 0 in H.
  rewrite Z.add_0_r in H. exact H.
Qed.

(** X10.  What [SignedData.write] writes, [SignedData.read] reads back to the
    end, with the identifier or without. *)
Theorem SignedData_round_trip (obj : SignedData) :
  let written := Pbf.finish (crx3.SignedData.write obj Pbf.new_Writer) in
  len written < 2 ^ 53 ->
  exists p,
    crx3.SignedData.read (Pbf.new_Reader written) None = Return (obj, p)
    /\ Pbf.pos p = len written.
Proof.
  cbv zeta. unfold Pbf.finish, Pbf.new_Writer. rewrite SignedData_write_wire.
  cbn [app]. intros Hsmall. destruct obj as [x]. cbn [crx_id] in *.
  set (wire := optional_field 1 x) in *.
  exists (advance (Pbf.new_Reader wire) (len wire)). split; [| reflexivity].
  assert (Hsees : sees (Pbf.new_Reader wire) (optional_field 1 x ++ []))
    by (rewrite List.app_nil_r; apply sees_new).
  pose proof (len_nonneg wire) as H0.
  unfold crx3.SignedData.read, Pbf.readFields, Pbf.length.
  change (Pbf.buf (Pbf.new_Reader wire)) with wire.
  rewrite (readFields_loop_optional_field _ 1 (fun _ b => {| crx_id := Some b |})
             SignedData_readField_forward ltac:(lia) ltac:(reflexivity)
             _ _ _ _ x [] Hsees).
  - fold wire.
    rewrite readFields_loop_done by (cbn [advance Pbf.new_Reader Pbf.buf Pbf.pos]; lia).
    destruct x; reflexivity.
  - fold wire. lia.
  - fold wire. cbn [Pbf.new_Reader Pbf.pos]. lia.
  - unfold unread. cbn [Pbf.new_Reader Pbf.buf Pbf.pos]. lia.
Qed.

(** X11.  What [CrxFileHeader.write] writes, [CrxFileHeader.read] reads back to
    the end: every proof of both arrays, in order, and the signed header
    data.  An array that was missing comes back empty. *)
Theorem CrxFileHeader_round_trip (obj : CrxFileHeader) :
  let written := Pbf.finish (crx3.CrxFileHeader.write obj Pbf.new_Writer) in
  len written < 2 ^ 53 ->
  exists p,
    crx3.CrxFileHeader.read (Pbf.new_Reader written) None = Return (as_read obj, p)
    /\ Pbf.pos p = len written.
Proof.
  cbv zeta. unfold Pbf.finish, Pbf.new_Writer. rewrite CrxFileHeader_write_wire.
  cbn [app]. unfold header_wire. intros Hsmall.
  pose proof (CrxFileHeader_read_segments (present (sha256_with_rsa obj))
                (present (sha256_with_ecdsa obj)) [] (signed_header_data obj)
                (or_introl eq_refl)) as H.
  cbv zeta in H. cbn [app] in H. specialize (H ltac:(lia)).
  eexists. split; [exact H | reflexivity].
Qed.

(** X12.  A bytes field with a tag that the header does not have, written between
    the proofs and the signed header data, changes nothing of what
    [CrxFileHeader.read] returns. *)
Theorem CrxFileHeader_read_skips_unknown (obj : CrxFileHeader) (tag : Z) (x : Uint8Array) :
  0 < tag < 2 ^ 28 -> tag <> 2 -> tag <> 3 -> tag <> 10000 ->
  let proofs :=
    Pbf.finish (crx3.CrxFileHeader.write
                  {| sha256_with_rsa := sha256_with_rsa obj;
                     sha256_with_ecdsa := sha256_with_ecdsa obj;
                     signed_header_data := None |} Pbf.new_Writer) in
  let unknown := Pbf.finish (Pbf.writeBytesField tag x Pbf.new_Writer) in
  let data :=
    Pbf.finish (crx3.CrxFileHeader.write
                  {| sha256_with_rsa := None; sha256_with_ecdsa := None;
                     signed_header_data := signed_header_data obj |} Pbf.new_Writer) in
  len (proofs ++ unknown ++ data) < 2 ^ 53 ->
  exists p,
    crx3.CrxFileHeader.read (Pbf.new_Reader (proofs ++ unknown ++ data)) None
    = Return (as_read obj, p)
    /\ Pbf.pos p = len (proofs ++ unknown ++ data).
Proof.
  intros Htag Hn2 Hn3 Hn4. cbv zeta. unfold Pbf.finish, Pbf.new_Writer.
  rewrite !CrxFileHeader_write_wire, writeBytesField_bytes. cbn [app].
  unfold header_wire. cbn [sha256_with_rsa sha256_with_ecdsa signed_header_data present
                            optional_field proofs_wire flat_map app].
  fold (proofs_wire 2 (present (sha256_with_rsa obj))).
  fold (proofs_wire 3 (present (sha256_with_ecdsa obj))).
  rewrite List.app_nil_r. fold (field_key tag). fold (bytes_field tag x).
  rewrite <- List.app_assoc. intros Hsmall.
  pose proof (CrxFileHeader_read_segments (present (sha256_with_rsa obj))
                (present (sha256_with_ecdsa obj)) (bytes_field tag x)
                (signed_header_data obj)) as H.
  cbv zeta in H.
  specialize (H (or_intror (ex_intro _ tag (ex_intro _ x
                   (conj eq_refl (conj Htag (conj Hn2 (conj Hn3 Hn4))))))) ltac:(lia)).
  eexists. split; [exact H | reflexivity].
Qed.

(** ** The update document *)

Lemma append_assoc (a b c : string) : ((a ++ b) ++ c = a ++ (b ++ c))%string.
Proof. induction a as [| x a IH]; cbn; [reflexivity | rewrite IH; reflexivity]. Qed.

Lemma prefix_append (a b : string) : String.prefix a (a ++ b) = true.
Proof.
  induction a as [| x a IH]; cbn; [destruct b; reflexivity |].
  destruct (Ascii.ascii_dec x x) as [_ | Hne]; [exact IH | contradiction].
Qed.

Lemma includes_prefix (s sub : string) : String.prefix sub s = true -> includes s sub = true.
Proof. intros H. destruct s; cbn [includes]; rewrite H; reflexivity. Qed.

(** A string includes what stands in its middle. *)
Lemma includes_append (before sub after : string) :
  includes (before ++ sub ++ after) sub = true.
Proof.
  induction before as [| x before IH]; cbn [String.append].
  - apply includes_prefix, prefix_append.
  - cbn [includes]. rewrite IH. apply Bool.orb_true_r.
Qed.

(** X13.  The document names the identifier, the address and the version in their
    attributes.  A minimum Chrome version that is a non-empty string is
    written as [prodversionmin]; without one, or with the empty string, the
    [updatecheck] element ends after the version. *)
Theorem generateUpdateXML_attributes (crxId url version : string)
  (minChromeVersion : Requestable string) :
  let doc := generateUpdateXML (Given crxId) (Given url) (Given version) minChromeVersion in
  includes doc ("<app appid='" ++ crxId ++ "'>") = true /\
  includes doc ("<updatecheck codebase='" ++ url ++ "' version='" ++ version ++ "'") = true /\
  (forall v, minChromeVersion = Given v -> v <> EmptyString ->
             includes doc ("' version='" ++ version ++ "' prodversionmin='" ++ v ++ "' />")
             = true) /\
  (minChromeVersion = Undefined \/ minChromeVersion = Given EmptyString ->
   doc = generateUpdateXML (Given crxId) (Given url) (Given version) Undefined /\
   includes doc ("' version='" ++ version ++ "' />") = true).
Proof.
  cbv zeta. unfold generateUpdateXML. cbn [template].
  repeat match goal with |- _ /\ _ => split end.
  - match goal with
    | |- includes ?doc _ = true =>
        replace doc with
        (("<?xml version='1.0' encoding='UTF-8'?>" ++ newline ++
          "<gupdate xmlns='http://www.google.com/update2/response' protocol='2.0'>"
          ++ newline ++ "  ")
         ++ ("<app appid='" ++ crxId ++ "'>")
         ++ (newline ++ "    <updatecheck codebase='" ++ url ++ "' version='" ++ version
             ++ "'" ++ (if truthy minChromeVersion
                        then " prodversionmin='" ++ template minChromeVersion ++ "'"
                        else "") ++ " />" ++ newline ++ "  </app>" ++ newline
             ++ "</gupdate>"))%string
    end.
    + apply includes_append.
    + rewrite !append_assoc. reflexivity.
  - match goal with
    | |- includes ?doc _ = true =>
        replace doc with
        (("<?xml version='1.0' encoding='UTF-8'?>" ++ newline ++
          "<gupdate xmlns='http://www.google.com/update2/response' protocol='2.0'>"
          ++ newline ++ "  <app appid='" ++ crxId ++ "'>" ++ newline ++ "    ")
         ++ ("<updatecheck codebase='" ++ url ++ "' version='" ++ version ++ "'")
         ++ ((if truthy minChromeVersion
              then " prodversionmin='" ++ template minChromeVersion ++ "'"
              else "") ++ " />" ++ newline ++ "  </app>" ++ newline ++ "</gupdate>"))%string
    end.
    + apply includes_append.
    + rewrite !append_assoc. reflexivity.
  - intros v -> Hv. cbn [truthy template].
    destruct (String.eqb_spec v EmptyString) as [-> | _]; [contradiction |].
    cbn [negb].
    match goal with
    | |- includes ?doc _ = true =>
        replace doc with
        (("<?xml version='1.0' encoding='UTF-8'?>" ++ newline ++
          "<gupdate xmlns='http://www.google.com/update2/response' protocol='2.0'>"
          ++ newline ++ "  <app appid='" ++ crxId ++ "'>" ++ newline
          ++ "    <updatecheck codebase='" ++ url)
         ++ ("' version='" ++ version ++ "' prodversionmin='" ++ v ++ "' />")
         ++ (newline ++ "  </app>" ++ newline ++ "</gupdate>"))%string
    end.
    + apply includes_append.
    + rewrite !append_assoc. reflexivity.
  - intros Hmin.
    assert (Hfalsy : truthy minChromeVersion = false) by (destruct Hmin as [-> | ->]; reflexivity).
    rewrite Hfalsy. split; [reflexivity |].
    match goal with
    | |- includes ?doc _ = true =>
        replace doc with
        (("<?xml version='1.0' encoding='UTF-8'?>" ++ newline ++
          "<gupdate xmlns='http://www.google.com/update2/response' protocol='2.0'>"
          ++ newline ++ "  <app appid='" ++ crxId ++ "'>" ++ newline
          ++ "    <updatecheck codebase='" ++ url)
         ++ ("' version='" ++ version ++ "' />")
         ++ (newline ++ "  </app>" ++ newline ++ "</gupdate>"))%string
    end.
    + apply includes_append.
    + rewrite !append_assoc. reflexivity.
Qed.

(** * Further properties of [pack] *)

(** ** Runs, cut at a step *)

Lemma pack_resolved_at (k : nat) (o : PackInput) (s' : State) :
  pack o = Resolved s' ->
  exists s, run (firstn k pack_steps) (start o) = Resolved s
            /\ run (skipn k pack_steps) s = Resolved s'.
Proof.
  unfold pack. fold (start o). rewrite <- (List.firstn_skipn k pack_steps) at 1.
  apply run_resolved_app.
Qed.

Lemma run_keeps_resolved (P : State -> Prop) (steps : list (State -> Outcome))
  (s s' : State) :
  Forall (keeps P) steps -> P s -> run steps s = Resolved s' -> P s'.
Proof.
  intros Hkeeps Hs Hrun. pose proof (run_keeps P steps Hkeeps s Hs) as H.
  rewrite Hrun in H. exact H.
Qed.

Lemma run_nil (s s' : State) : run [] s = Resolved s' -> s' = s.
Proof. unfold run. cbn. congruence. Qed.

(** The five last steps leave the keys, the contents, the manifest and the
    trace alone. *)
Lemma finish_keeps_inputs (x : State) :
  Forall (keeps (fun s => privateKey (options s) = privateKey (options x)
                          /\ publicKey (options s) = publicKey (options x)
                          /\ rsa (options s) = rsa (options x)
                          /\ contents (options s) = contents (options x)
                          /\ manifest (options s) = manifest (options x)
                          /\ trace s = trace x))
    [resolve_crx; resolve_id; resolve_extVersion; resolve_minChromeVersion;
     resolve_updateXML].
Proof. steps_keep. Qed.

(** ** The identifier *)

Lemma pack_keeps_requested_id :
  Forall (keeps (fun s => id (options s) = Null)) (firstn 12 pack_steps).
Proof. unfold pack_steps. cbn [firstn]. steps_keep. Qed.

Lemma resolve_crx_keeps_publicKey (s s' : State) :
  resolve_crx s = Resolved s' -> publicKey (options s') = publicKey (options s).
Proof.
  unfold resolve_crx, call. split_cases; intros H; try discriminate H;
    injection H as <-; reflexivity.
Qed.

(** X14.  When [pack] returns a requested identifier, it is the identifier of the
    public key that it returns. *)
Theorem pack_id_of_publicKey (o : PackInput) (s' : State) :
  pack o = Resolved s' -> id o = Null ->
  exists pub,
    publicKey (options s') = Given (Bytes pub) /\
    id (options s') = Given (generateCrxId pub).
Proof.
  intros Hpack Hid.
  destruct (pack_resolved_at 11 o s' Hpack) as [s11 [Hbefore Hafter]].
  destruct (pack_resolved_at 12 o s' Hpack) as [s12 [Hbefore12 Hafter12]].
  pose proof (run_keeps_resolved (fun s => id (options s) = Null) _ (start o) s12
                pack_keeps_requested_id Hid Hbefore12) as Hid12.
  cbn beta in Hid12.
  (* the public key at the twelfth step *)
  destruct (pack_prerequisites_resolved o s11 Hbefore) as [_ Hpub].
  assert (Hid11 : id (options s11) = Null).
  { refine (run_keeps_resolved (fun s => id (options s) = Null) _ (start o) s11 _ Hid Hbefore).
    pose proof pack_keeps_requested_id as H. unfold pack_steps in *. cbn [firstn] in *.
    apply (List.Forall_app _ (firstn 11 pack_steps) [resolve_crx]). exact H. }
  destruct (Hpub Hid11) as [pub Hpub11].
  assert (Hstep : resolve_crx s11 = Resolved s12).
  { unfold pack_steps in Hbefore12. cbn [firstn] in Hbefore12.
    change [load_privateKey; load_publicKey; cascade_updateXML; cascade_extVersion;
            cascade_minChromeVersion; cascade_crx; cascade_id; cascade_publicKey;
            resolve_privateKey; resolve_publicKey; resolve_contents; resolve_crx]
      with (firstn 11 pack_steps ++ [resolve_crx]) in Hbefore12.
    rewrite run_app, Hbefore in Hbefore12. rewrite run_cons in Hbefore12.
    destruct (resolve_crx s11) as [s |]; [| discriminate].
    apply run_nil in Hbefore12. congruence. }
  pose proof (resolve_crx_keeps_publicKey _ _ Hstep) as Hpub12. rewrite Hpub11 in Hpub12.
  (* the thirteenth step *)
  unfold pack_steps in Hafter12. cbn [skipn] in Hafter12.
  apply run_resolved_cons in Hafter12. destruct Hafter12 as [s13 [Hresolve Hrest]].
  unfold resolve_id in Hresolve. rewrite Hid12, Hpub12 in Hresolve. cbn in Hresolve.
  injection Hresolve as <-.
  exists pub.
  refine (run_keeps_resolved
            (fun s => publicKey (options s) = Given (Bytes pub)
                      /\ id (options s) = Given (generateCrxId pub)) _ _ _ _ _ Hrest).
  - steps_keep.
  - cbn. auto.
Qed.

(** ** The container *)

Lemma Forall_skipn_of {A : Type} (P : A -> Prop) (n : nat) (l : list A) :
  Forall P l -> Forall P (skipn n l).
Proof.
  revert l. induction n as [| n IH]; intros l H; [exact H |].
  destruct l as [| x l]; [exact H |]. cbn [skipn]. apply IH.
  inversion H; assumption.
Qed.

Lemma Forall_firstn_any {A : Type} (P : A -> Prop) (n : nat) (l : list A) :
  Forall P l -> Forall P (firstn n l).
Proof.
  revert l. induction n as [| n IH]; intros l H; [apply Forall_nil |].
  destruct l as [| x l]; [exact H |]. cbn [firstn].
  inversion H; subst. apply Forall_cons; auto.
Qed.

(** What a step of [pack] establishes whenever it returns, and the steps
    after it keep, holds when [pack] returns. *)
Lemma pack_establishes (k : nat) (step : State -> Outcome) (Q : State -> Prop) :
  nth_error pack_steps k = Some step ->
  (forall s s', step s = Resolved s' -> Q s') ->
  Forall (keeps Q) (skipn (S k) pack_steps) ->
  forall o s', pack o = Resolved s' -> Q s'.
Proof.
  intros Hnth Hstep Hkeeps o s' Hpack.
  destruct (pack_resolved_at k o s' Hpack) as [s [_ Hafter]].
  assert (Hcut : skipn k pack_steps = step :: skipn (S k) pack_steps).
  { clear - Hnth. revert Hnth. generalize pack_steps. induction k as [| k IH]; intros l H.
    - destruct l as [| x l]; [discriminate H |]. cbn in H. injection H as ->. reflexivity.
    - destruct l as [| x l]; [discriminate H |]. cbn [skipn]. apply IH. exact H. }
  rewrite Hcut in Hafter. apply run_resolved_cons in Hafter.
  destruct Hafter as [s1 [H1 Hrest]].
  exact (run_keeps_resolved Q _ s1 s' Hkeeps (Hstep s s1 H1) Hrest).
Qed.

(** The steps before [resolve_crx] leave a requested container requested. *)
Lemma pack_keeps_requested_crx :
  Forall (keeps (fun s => crx (options s) = Null)) (firstn 11 pack_steps).
Proof. unfold pack_steps. cbn [firstn]. steps_keep. Qed.

Lemma pack_settings_at (k : nat) (o : PackInput) (s : State) :
  run (firstn k pack_steps) (start o) = Resolved s ->
  keySize (options s) = keySize o /\ crxVersion (options s) = crxVersion o
  /\ crxUrl (options s) = crxUrl o.
Proof.
  intros Hrun.
  refine (run_keeps_resolved _ _ (start o) s
            (Forall_firstn_any _ k _ (pack_keeps_settings o)) _ Hrun).
  cbn. auto.
Qed.

(** [packCrx2] returns for empty contents only. *)
Lemma packCrx2_returns_empty (privateKey publicKey contents : Uint8Array)
  (rsa : option RSA) (packed : Uint8Array) :
  packCrx2 privateKey publicKey contents rsa = Return packed -> contents = [].
Proof.
  destruct contents as [| b contents]; [reflexivity |]. intros H. exfalso.
  destruct (rsa_or_import rsa privateKey) as [r | e] eqn:Hkey.
  - rewrite (packCrx2_with_key _ _ _ _ r Hkey) in H.
    destruct (RSA_sign r pkcs1_sha1 (b :: contents)) as [sg | e] eqn:Hsign.
    + rewrite (packCrx2_throws_RangeError _ _ _ _ sg r Hsign) in H. discriminate H.
    + unfold packCrx2 in H. cbn [rsa_or_import bind] in H. rewrite Hsign in H.
      discriminate H.
  - unfold packCrx2 in H. rewrite Hkey in H. discriminate H.
Qed.

(** The twelfth step on a requested container. *)
Lemma resolve_crx_requested (s s' : State) :
  crx (options s) = Null -> resolve_crx s = Resolved s' ->
  (is_crx3 (crxVersion (options s)) = true /\
   exists priv pub c packed,
     privateKey (options s) = Given (Bytes priv) /\
     publicKey (options s) = Given (Bytes pub) /\
     contents (options s) = Some (Bytes c) /\
     packCrx3 priv pub c (rsa (options s)) = Return packed /\
     s' = assign (set_crx (Given packed)) s)
  \/ (is_crx3 (crxVersion (options s)) = false /\
      is_crx2 (crxVersion (options s)) = true /\
      exists priv pub c packed,
        privateKey (options s) = Given (Bytes priv) /\
        publicKey (options s) = Given (Bytes pub) /\
        contents (options s) = Some (Bytes c) /\
        packCrx2 priv pub c (rsa (options s)) = Return packed /\
        s' = assign (set_crx (Given packed)) s)
  \/ (is_crx3 (crxVersion (options s)) = false /\
      is_crx2 (crxVersion (options s)) = false /\ s' = s).
Proof.
  intros Hcrx Hstep. unfold resolve_crx, call in Hstep. rewrite Hcrx in Hstep.
  cbv zeta in Hstep. revert Hstep.
  destruct (is_crx3 (crxVersion (options s))); [| destruct (is_crx2 (crxVersion (options s)))];
    intros Hstep; [left; split; [reflexivity |] | right; left; do 2 (split; [reflexivity |])
                   | right; right; injection Hstep as <-; auto];
    revert Hstep;
    (destruct (privateKey (options s)) as [| | [priv | ?]];
     cbn [asserted_bytes asserted_contents bind]; try discriminate);
    (destruct (publicKey (options s)) as [| | [pub | ?]];
     cbn [asserted_bytes asserted_contents bind]; try discriminate);
    (destruct (contents (options s)) as [[c | ?] |];
     cbn [asserted_bytes asserted_contents bind]; try discriminate).
  - destruct (packCrx3 priv pub c (rsa (options s))) as [packed |] eqn:Hpacked;
      intros Hres; try discriminate Hres; injection Hres as <-.
    exists priv, pub, c, packed. auto.
  - destruct (packCrx2 priv pub c (rsa (options s))) as [packed |] eqn:Hpacked;
      intros Hres; try discriminate Hres; injection Hres as <-.
    exists priv, pub, c, packed. auto.
Qed.

(** The state before and after the twelfth step of a run that returns with
    the container requested. *)
Lemma pack_at_resolve_crx (o : PackInput) (s' : State) :
  pack o = Resolved s' -> crx o = Null ->
  exists s11 s12,
    crx (options s11) = Null /\ crxVersion (options s11) = crxVersion o /\
    resolve_crx s11 = Resolved s12 /\
    run [resolve_id; resolve_extVersion; resolve_minChromeVersion; resolve_updateXML] s12
    = Resolved s'.
Proof.
  intros Hpack Hcrx.
  destruct (pack_resolved_at 11 o s' Hpack) as [s11 [Hbefore Hafter]].
  unfold pack_steps in Hafter. cbn [skipn] in Hafter.
  apply run_resolved_cons in Hafter. destruct Hafter as [s12 [Hstep Hrest]].
  exists s11, s12.
  pose proof (run_keeps_resolved (fun s => crx (options s) = Null) _ (start o) s11
                pack_keeps_requested_crx Hcrx Hbefore) as Hcrx11.
  destruct (pack_settings_at 11 o s11 Hbefore) as [_ [Hversion _]].
  auto.
Qed.

Lemma finish_keeps_container (packed : Uint8Array) (x : State) :
  Forall (keeps (fun s => crx (options s) = Given packed
                          /\ privateKey (options s) = privateKey (options x)
                          /\ publicKey (options s) = publicKey (options x)
                          /\ rsa (options s) = rsa (options x)
                          /\ contents (options s) = contents (options x)))
    [resolve_id; resolve_extVersion; resolve_minChromeVersion; resolve_updateXML].
Proof. steps_keep. Qed.

Lemma finish_after_container (packed : Uint8Array) (x s' : State) :
  run [resolve_id; resolve_extVersion; resolve_minChromeVersion; resolve_updateXML]
    (assign (set_crx (Given packed)) x) = Resolved s' ->
  crx (options s') = Given packed
  /\ privateKey (options s') = privateKey (options x)
  /\ publicKey (options s') = publicKey (options x)
  /\ rsa (options s') = rsa (options x)
  /\ contents (options s') = contents (options x).
Proof.
  intros Hrest.
  refine (run_keeps_resolved _ _ _ s' (finish_keeps_container packed x) _ Hrest).
  cbn. auto.
Qed.

(** X15.  A requested container of version 3: when [pack] returns, the container
    is what [packCrx3] makes of the keys and the contents that [pack]
    returns with it, and, its header being shorter than 2^32 bytes, [unpack]
    gives these contents and this public key back.  The container is the
    array that [packCrx3] allocates, which spans its buffer. *)
Theorem pack_crx3_container (o : PackInput) (s' : State) :
  pack o = Resolved s' -> crx o = Null -> is_crx3 (crxVersion o) = true ->
  exists priv pub c packed,
    privateKey (options s') = Given (Bytes priv) /\
    publicKey (options s') = Given (Bytes pub) /\
    contents (options s') = Some (Bytes c) /\
    crx (options s') = Given packed /\
    packCrx3 priv pub c (rsa (options s')) = Return packed /\
    (len packed < 2 ^ 32 ->
     exists sg signedHeaderData,
       unpack (whole packed)
       = Return (UnpackedCrx3 c
                   {| sha256_with_rsa := Some [ {| public_key := Some pub;
                                                   signature := Some sg |} ];
                      sha256_with_ecdsa := Some [];
                      signed_header_data := Some signedHeaderData |})).
Proof.
  intros Hpack Hcrx Hversion.
  destruct (pack_at_resolve_crx o s' Hpack Hcrx) as [s11 [s12 [Hcrx11 [Hv11 [Hstep Hrest]]]]].
  destruct (resolve_crx_requested s11 s12 Hcrx11 Hstep)
    as [[_ Hpacked] | [[Hno _] | [Hno _]]]; try congruence.
  destruct Hpacked as [priv [pub [c [packed [Hpriv [Hpub [Hc [Hpacked ->]]]]]]]].
  destruct (finish_after_container packed s11 s' Hrest)
    as [Hcrx' [Hpriv' [Hpub' [Hrsa' Hc']]]].
  exists priv, pub, c, packed.
  rewrite Hcrx', Hpriv', Hpub', Hrsa', Hc'. repeat split; try assumption.
  intros Hsmall.
  pose proof (packCrx3_signs priv pub c (rsa (options s11))) as Hlayout. cbv zeta in Hlayout.
  rewrite Hlayout in Hpacked.
  destruct (rsa_or_import (rsa (options s11)) priv) as [key |]; [| discriminate].
  cbn [bind] in Hpacked.
  destruct (RSA_sign key pkcs1_sha256 _) as [sg |]; [| discriminate].
  cbn [bind] in Hpacked.
  set (header := header_bytes pub sg (signed_data_bytes (generateBinaryCrxId pub))) in *.
  assert (Epacked : packed
                    = kSignature ++ kVersion ++ le_split 4 (len header) ++ header ++ c)
    by congruence.
  clear Hpacked. rewrite Epacked in *. clear Epacked.
  assert (Hheader : len header < 2 ^ 32).
  { rewrite !len_app in Hsmall. pose proof (len_nonneg kSignature).
    pose proof (len_nonneg kVersion). pose proof (len_nonneg (le_split 4 (len header))).
    pose proof (len_nonneg c). lia. }
  exists sg, (signed_data_bytes (generateBinaryCrxId pub)).
  rewrite (unpack_crx3 header c Hheader). unfold header.
  rewrite CrxFileHeader_read_header by exact Hheader. reflexivity.
Qed.

(** X16.  A requested container of version 2: [pack] returns only when the
    contents are empty. *)
Theorem pack_crx2_only_empty (o : PackInput) (s' : State) :
  pack o = Resolved s' -> crx o = Null -> crxVersion o = Some 2 ->
  contents (options s') = Some (Bytes []) /\
  exists packed, crx (options s') = Given packed.
Proof.
  intros Hpack Hcrx Hversion.
  destruct (pack_at_resolve_crx o s' Hpack Hcrx) as [s11 [s12 [Hcrx11 [Hv11 [Hstep Hrest]]]]].
  rewrite Hversion in Hv11.
  destruct (resolve_crx_requested s11 s12 Hcrx11 Hstep)
    as [[H3 _] | [[_ [_ Hpacked]] | [_ [H2 _]]]];
    try (rewrite Hv11 in *; discriminate).
  destruct Hpacked as [priv [pub [c [packed [Hpriv [Hpub [Hc [Hpacked ->]]]]]]]].
  apply packCrx2_returns_empty in Hpacked. subst c.
  destruct (finish_after_container packed s11 s' Hrest) as [Hcrx' [_ [_ [_ Hc']]]].
  split; [congruence | eauto].
Qed.

(** ** The keys *)

Lemma in_log (ev ev' : Event) (s : State) :
  In ev (trace s) \/ ev = ev' -> In ev (trace (log ev' s)).
Proof.
  intros H. unfold log. cbn [trace]. apply List.in_or_app.
  destruct H as [H | ->]; [left; exact H | right; left; reflexivity].
Qed.

(** The five first steps leave a private key that will be generated so. *)
Lemma pack_keeps_key_request :
  Forall (keeps (fun s => privateKey (options s) = Null
                          \/ (privateKey (options s) = Undefined
                              /\ crx (options s) = Null)))
    (firstn 5 pack_steps).
Proof.
  unfold pack_steps. cbn [firstn].
  repeat (apply Forall_cons; [| try apply Forall_nil]);
    intros s H; unfold_steps; split_cases; subst; cbn;
    destruct H as [H | [H1 H2]]; try (left; congruence); try (right; split; congruence);
    congruence.
Qed.

Lemma cascade_crx_requests_key (s s' : State) :
  privateKey (options s) = Null
  \/ (privateKey (options s) = Undefined /\ crx (options s) = Null) ->
  cascade_crx s = Resolved s' -> privateKey (options s') = Null.
Proof.
  unfold cascade_crx. intros H.
  destruct (crx (options s)) eqn:Hcrx; destruct H as [H | [H1 H2]]; try discriminate H2;
    try (intros [= <-]; assumption);
    destruct (contents (options s)); intros Hs; try discriminate Hs; injection Hs as <-;
    cbn; rewrite ?H, ?H1; reflexivity.
Qed.

Lemma cascade_keeps_key_request :
  Forall (keeps (fun s => privateKey (options s) = Null)) [cascade_id; cascade_publicKey].
Proof. steps_keep. Qed.

(** The seven last steps leave a generated key pair alone. *)
Lemma pack_keeps_generated (r : RSA) (priv pub : Uint8Array) (ev : Event) :
  Forall (keeps (fun s => rsa (options s) = Some r
                          /\ privateKey (options s) = Given (Bytes priv)
                          /\ publicKey (options s) = Given (Bytes pub)
                          /\ In ev (trace s)))
    (skipn 9 pack_steps).
Proof.
  unfold pack_steps. cbn [skipn].
  repeat (apply Forall_cons; [| try apply Forall_nil]);
    intros s [Hrsa [Hpriv [Hpub Hin]]]; unfold_steps; rewrite ?Hrsa, ?Hpriv, ?Hpub;
    split_cases; subst; cbn [final options assign log set_contents set_manifest set_crx
                               set_id set_extVersion set_minChromeVersion set_updateXML
                               rsa privateKey publicKey trace];
    repeat split; try assumption; try congruence;
    try (apply List.in_or_app; left; assumption).
Qed.

(** X17.  A private key that is requested, or that a requested container needs
    and the caller left out, is generated, of [keySize] bits or of 4096 when
    [keySize] is absent or zero; when [pack] returns, both keys are those
    of the generated pair, whatever public key or key object the caller
    gave. *)
Theorem pack_generates_key_pair (o : PackInput) (s' : State) :
  pack o = Resolved s' ->
  privateKey o = Null \/ (privateKey o = Undefined /\ crx o = Null) ->
  let bits := key_bits (keySize o) in
  let r := RSA_generate bits in
  rsa (options s') = Some r /\
  In (GenerateKey bits) (trace s') /\
  exists priv pub,
    RSA_exportKey r pkcs8_private_der = Return priv /\
    RSA_exportKey r pkcs8_public_der = Return pub /\
    privateKey (options s') = Given (Bytes priv) /\
    publicKey (options s') = Given (Bytes pub).
Proof.
  intros Hpack Hrequest. cbv zeta.
  destruct (pack_resolved_at 5 o s' Hpack) as [s5 [Hbefore Hafter]].
  pose proof (run_keeps_resolved _ _ (start o) s5 pack_keeps_key_request Hrequest Hbefore)
    as H5. cbn beta in H5.
  destruct (pack_settings_at 5 o s5 Hbefore) as [Hsize5 _].
  unfold pack_steps in Hafter. cbn [skipn] in Hafter.
  apply run_resolved_cons in Hafter. destruct Hafter as [s6 [Hstep6 Hafter]].
  pose proof (cascade_crx_requests_key s5 s6 H5 Hstep6) as H6.
  assert (Hsize6 : keySize (options s6) = keySize o).
  { revert Hstep6. unfold cascade_crx. split_cases; intros Hs; try discriminate Hs;
      injection Hs as <-; exact Hsize5. }
  change [cascade_id; cascade_publicKey; resolve_privateKey; resolve_publicKey;
          resolve_contents; resolve_crx; resolve_id; resolve_extVersion;
          resolve_minChromeVersion; resolve_updateXML]
    with ([cascade_id; cascade_publicKey]
          ++ resolve_privateKey :: skipn 9 pack_steps) in Hafter.
  apply run_resolved_app in Hafter. destruct Hafter as [s8 [Hcascade Hafter]].
  pose proof (run_keeps_resolved _ _ s6 s8 cascade_keeps_key_request H6 Hcascade) as H8.
  cbn beta in H8.
  assert (Hsize8 : keySize (options s8) = keySize o).
  { refine (run_keeps_resolved (fun s => keySize (options s) = keySize o) _ s6 s8 _
              Hsize6 Hcascade). steps_keep. }
  apply run_resolved_cons in Hafter. destruct Hafter as [s9 [Hstep9 Hafter]].
  unfold resolve_privateKey, call in Hstep9. rewrite H8, Hsize8 in Hstep9.
  cbv zeta in Hstep9.
  destruct (RSA_exportKey (RSA_generate (key_bits (keySize o))) pkcs8_private_der)
    as [priv |] eqn:Hpriv; [| discriminate Hstep9].
  destruct (RSA_exportKey (RSA_generate (key_bits (keySize o))) pkcs8_public_der)
    as [pub |] eqn:Hpub; [| discriminate Hstep9].
  injection Hstep9 as <-.
  assert (Hkept : rsa (options s') = Some (RSA_generate (key_bits (keySize o)))
                  /\ privateKey (options s') = Given (Bytes priv)
                  /\ publicKey (options s') = Given (Bytes pub)
                  /\ In (GenerateKey (key_bits (keySize o))) (trace s')).
  { refine (run_keeps_resolved _ _ _ s'
              (pack_keeps_generated (RSA_generate (key_bits (keySize o))) priv pub
                 (GenerateKey (key_bits (keySize o)))) _ Hafter).
    cbn. repeat split. apply List.in_or_app. right. left. reflexivity. }
  destruct Hkept as [Hrsa' [Hpriv' [Hpub' Hin']]].
  split; [exact Hrsa' |]. split; [exact Hin' |]. exists priv, pub. auto.
Qed.

(** The nine first steps leave a given private key, a requested public key
    and the key object alone. *)
Lemma pack_keeps_export_request (o : PackInput) (priv : Uint8Array) :
  Forall (keeps (fun s => privateKey (options s) = Given (Bytes priv)
                          /\ publicKey (options s) = Null
                          /\ rsa (options s) = rsa o
                          /\ trace s = []))
    (firstn 9 pack_steps).
Proof. unfold pack_steps. cbn [firstn]. steps_keep. Qed.

(** The six last steps leave both keys and the key object alone. *)
Lemma pack_keeps_exported (r : RSA) (priv pub : Uint8Array) :
  Forall (keeps (fun s => rsa (options s) = Some r
                          /\ privateKey (options s) = Given (Bytes priv)
                          /\ publicKey (options s) = Given (Bytes pub)
                          /\ no_key_generated s))
    (skipn 10 pack_steps).
Proof.
  unfold pack_steps. cbn [skipn].
  repeat (apply Forall_cons; [| try apply Forall_nil]);
    intros s [Hrsa [Hpriv [Hpub Hgen]]]; unfold_steps; rewrite ?Hrsa, ?Hpriv, ?Hpub;
    split_cases; subst; cbn [final options assign log set_contents set_manifest set_crx
                               set_id set_extVersion set_minChromeVersion set_updateXML
                               rsa privateKey publicKey];
    repeat split; try assumption; try congruence;
    try (apply no_key_generated_log; [reflexivity | assumption]).
Qed.

(** X18.  A requested public key, with a private key given as bytes: when [pack]
    returns, the public key is exported from the key object of the caller
    or, without one, from the import of the private key, as
    [generatePublicKey] does; no key is generated and the private key is
    kept. *)
Theorem pack_exports_publicKey (o : PackInput) (priv : Uint8Array) (s' : State) :
  pack o = Resolved s' -> privateKey o = Given (Bytes priv) -> publicKey o = Null ->
  exists r pub,
    rsa_or_import (rsa o) priv = Return r /\
    RSA_exportKey r pkcs8_public_der = Return pub /\
    (rsa o = None -> generatePublicKey priv = Return pub) /\
    rsa (options s') = Some r /\
    privateKey (options s') = Given (Bytes priv) /\
    publicKey (options s') = Given (Bytes pub) /\
    no_key_generated s'.
Proof.
  intros Hpack Hpriv Hpub.
  destruct (pack_resolved_at 9 o s' Hpack) as [s9 [Hbefore Hafter]].
  destruct (run_keeps_resolved _ _ (start o) s9 (pack_keeps_export_request o priv)
              (conj Hpriv (conj Hpub (conj eq_refl eq_refl))) Hbefore)
    as [Hpriv9 [Hpub9 [Hrsa9 Htrace9]]].
  unfold pack_steps in Hafter. cbn [skipn] in Hafter.
  apply run_resolved_cons in Hafter. destruct Hafter as [s10 [Hstep Hafter]].
  unfold resolve_publicKey, call in Hstep. rewrite Hpub9, Hpriv9, Hrsa9 in Hstep.
  cbn [asserted_bytes bind] in Hstep.
  assert (Himport : exists r, rsa_or_import (rsa o) priv = Return r
                              /\ match rsa o with
                                 | Some r0 => Return r0
                                 | None => RSA_import priv pkcs8_private_der
                                 end = Return r).
  { unfold rsa_or_import. destruct (rsa o) as [r0 |]; [eauto |].
    destruct (RSA_import priv pkcs8_private_der) as [r |]; [eauto | discriminate Hstep]. }
  destruct Himport as [r [Himport Hmatch]]. rewrite Hmatch in Hstep.
  destruct (RSA_exportKey r pkcs8_public_der) as [pub |] eqn:Hexport;
    [| discriminate Hstep].
  injection Hstep as <-.
  assert (Hkept : rsa (options s') = Some r
                  /\ privateKey (options s') = Given (Bytes priv)
                  /\ publicKey (options s') = Given (Bytes pub)
                  /\ no_key_generated s').
  { refine (run_keeps_resolved _ _ _ s' (pack_keeps_exported r priv pub) _ Hafter).
    cbn. repeat split; try assumption. unfold no_key_generated. cbn. rewrite Htrace9.
    reflexivity. }
  destruct Hkept as [Hrsa' [Hpriv' [Hpub' Hgen']]].
  exists r, pub. repeat split; try assumption.
  intros Hnone. unfold generatePublicKey. unfold rsa_or_import in Himport.
  rewrite Hnone in Himport. rewrite Himport. cbn [bind]. exact Hexport.
Qed.

(** ** The version and the manifest *)

Lemma pack_keeps_requested_extVersion :
  Forall (keeps (fun s => extVersion (options s) = Null)) (firstn 13 pack_steps).
Proof. unfold pack_steps. cbn [firstn]. steps_keep. Qed.

(** X19.  When [pack] returns a requested version, it is the version of the
    manifest that it returns, and there is one. *)
Theorem pack_extVersion_of_manifest (o : PackInput) (s' : State) :
  pack o = Resolved s' -> extVersion o = Null ->
  exists m,
    manifest (options s') = Given m /\ extVersion (options s') = Given (version m).
Proof.
  intros Hpack Hrequest.
  destruct (pack_resolved_at 13 o s' Hpack) as [s13 [Hbefore Hafter]].
  pose proof (run_keeps_resolved _ _ (start o) s13 pack_keeps_requested_extVersion
                Hrequest Hbefore) as H13. cbn beta in H13.
  unfold pack_steps in Hafter. cbn [skipn] in Hafter.
  apply run_resolved_cons in Hafter. destruct Hafter as [s14 [Hstep Hafter]].
  unfold resolve_extVersion in Hstep. rewrite H13 in Hstep.
  destruct (manifest (options s13)) as [| | m] eqn:Hm; try discriminate Hstep.
  injection Hstep as <-. exists m.
  refine (run_keeps_resolved
            (fun s => manifest (options s) = Given m
                      /\ extVersion (options s) = Given (version m)) _ _ s' _ _ Hafter).
  - steps_keep.
  - cbn. auto.
Qed.

(** Without a directory no step makes a manifest. *)
Lemma pack_keeps_no_manifest :
  Forall (keeps (fun s => not_directory (contents (options s))
                          /\ forall m, manifest (options s) <> Given m)) pack_steps.
Proof.
  unfold pack_steps.
  repeat (apply Forall_cons; [| try apply Forall_nil]);
    intros s [Hc Hm]; unfold_steps; split_cases; subst; cbn;
    repeat match goal with
           | H : ?x = _ |- context [?x] => rewrite H
           end;
    try (exfalso; eapply Hc; reflexivity);
    try (exfalso; eapply Hm; reflexivity);
    (split; [assumption |]); try assumption;
    destruct (manifest (options s)) eqn:E; cbn; intros; try discriminate;
    try (exfalso; eapply Hm; reflexivity).
Qed.

Lemma pack_keeps_requested_manifest :
  Forall (keeps (fun s => not_directory (contents (options s))
                          /\ manifest (options s) = Null)) pack_steps.
Proof.
  unfold pack_steps.
  repeat (apply Forall_cons; [| try apply Forall_nil]);
    intros s [Hc Hm]; unfold_steps; rewrite ?Hm; split_cases; subst; cbn;
    repeat match goal with
           | H : ?x = _ |- context [?x] => rewrite H
           end;
    try (exfalso; eapply Hc; reflexivity);
    (split; [assumption |]); try assumption; try reflexivity; try congruence.
Qed.

(** X20.  Only a directory gives a manifest: with contents that are bytes or
    absent, a manifest that the caller did not give is not given when
    [pack] ends, a requested one is still requested, and a requested
    version makes [pack] fail. *)
Theorem pack_manifest_needs_directory (o : PackInput) :
  not_directory (contents o) -> (forall m, manifest o <> Given m) ->
  (forall m, manifest (options (final (pack o))) <> Given m) /\
  (manifest o = Null -> manifest (options (final (pack o))) = Null) /\
  (extVersion o = Null -> forall s', pack o <> Resolved s').
Proof.
  intros Hc Hm.
  pose proof (run_keeps _ _ pack_keeps_no_manifest (start o) (conj Hc Hm)) as [_ Hnone].
  change (run pack_steps (start o)) with (pack o) in Hnone.
  split; [exact Hnone |]. split.
  - intros Hnull.
    pose proof (run_keeps _ _ pack_keeps_requested_manifest (start o) (conj Hc Hnull))
      as [_ H]. exact H.
  - intros Hrequest s' Hpack.
    rewrite Hpack in Hnone. cbn [final] in Hnone.
    destruct (pack_resolved_at 13 o s' Hpack) as [s13 [Hbefore Hafter]].
    pose proof (run_keeps_resolved _ _ (start o) s13 pack_keeps_requested_extVersion
                  Hrequest Hbefore) as H13. cbn beta in H13.
    unfold pack_steps in Hafter. cbn [skipn] in Hafter.
    apply run_resolved_cons in Hafter. destruct Hafter as [s14 [Hstep Hafter]].
    unfold resolve_extVersion in Hstep. rewrite H13 in Hstep.
    destruct (manifest (options s13)) as [| | m] eqn:E; try discriminate Hstep.
    injection Hstep as <-.
    assert (H : manifest (options s') = Given m).
    { refine (run_keeps_resolved (fun s => manifest (options s) = Given m) _ _ s' _ _ Hafter).
      - steps_keep.
      - cbn. exact E. }
    exact (Hnone m H).
Qed.

Lemma pack_keeps_directory (where_ : string) :
  Forall (keeps (fun s => contents (options s) = Some (Path where_))) (firstn 10 pack_steps).
Proof. unfold pack_steps. cbn [firstn]. steps_keep. Qed.

(** X21.  Contents given as a directory: when [pack] returns, the contents are
    the archive and the manifest is the manifest that [packContents] made
    of the directory, whatever manifest the caller gave. *)
Theorem pack_packs_directory (o : PackInput) (where_ : string) (s' : State) :
  pack o = Resolved s' -> contents o = Some (Path where_) ->
  exists archive m,
    packContents where_ = Return (archive, m) /\
    contents (options s') = Some (Bytes archive) /\
    manifest (options s') = Given m /\
    In (PackContents where_) (trace s').
Proof.
  intros Hpack Hdir.
  destruct (pack_resolved_at 10 o s' Hpack) as [s10 [Hbefore Hafter]].
  pose proof (run_keeps_resolved _ _ (start o) s10 (pack_keeps_directory where_)
                Hdir Hbefore) as H10. cbn beta in H10.
  unfold pack_steps in Hafter. cbn [skipn] in Hafter.
  apply run_resolved_cons in Hafter. destruct Hafter as [s11 [Hstep Hafter]].
  unfold resolve_contents, call in Hstep. rewrite H10 in Hstep.
  destruct (packContents where_) as [[archive m] |]; [| discriminate Hstep].
  injection Hstep as <-. exists archive, m. split; [reflexivity |].
  match type of Hafter with
  | run _ ?x = _ =>
      destruct (run_keeps_resolved _ _ x s' (finish_keeps_inputs x)
                  (conj eq_refl (conj eq_refl (conj eq_refl (conj eq_refl
                     (conj eq_refl eq_refl))))) Hafter)
        as [_ [_ [_ [Hc [Hm Ht]]]]]
  end.
  rewrite Hc, Hm, Ht. cbn. repeat split.
  apply List.in_or_app. right. left. reflexivity.
Qed.

(** ** The update document of [pack] *)

Lemma cascade_updateXML_asks (s s' : State) :
  updateXML (options s) = Null -> cascade_updateXML s = Resolved s' ->
  exists url,
    crxUrl (options s) = Some url /\ crxUrl (options s') = Some url /\
    updateXML (options s') = Null /\
    id (options s') <> Undefined /\ extVersion (options s') <> Undefined.
Proof.
  intros Hxml. unfold cascade_updateXML. rewrite Hxml.
  destruct (crxUrl (options s)) as [url |] eqn:Hurl; [| discriminate].
  intros [= <-]. exists url. cbn. rewrite Hurl, Hxml.
  repeat split; destruct (id (options s)), (extVersion (options s)); cbn; discriminate.
Qed.

Lemma minChromeVersion_or_default_not_null (o : PackInput) :
  minChromeVersion_or_default o <> Null.
Proof.
  unfold minChromeVersion_or_default.
  destruct (manifest_minimum_chrome_version (manifest o)) as [x |];
    [destruct (String.eqb x EmptyString) |]; destruct (is_crx3 (crxVersion o));
    discriminate.
Qed.

Lemma pack_keeps_document_request (url : string) :
  Forall (keeps (fun s => updateXML (options s) = Null /\ crxUrl (options s) = Some url
                          /\ id (options s) <> Undefined
                          /\ extVersion (options s) <> Undefined))
    (firstn 9 (skipn 3 pack_steps)).
Proof.
  unfold pack_steps. cbn [firstn skipn].
  repeat (apply Forall_cons; [| try apply Forall_nil]);
    intros s [H1 [H2 [H3 H4]]]; unfold_steps; split_cases; subst; cbn;
    repeat split; try assumption; try congruence.
Qed.

(** X22.  A requested update document: when [pack] returns, the document is what
    [generateUpdateXML] makes of the identifier, the version and the minimum
    Chrome version that [pack] returns with it, and of the address of the
    caller; identifier and version are strings. *)
Theorem pack_updateXML_document (o : PackInput) (s' : State) :
  pack o = Resolved s' -> updateXML o = Null ->
  exists url i v,
    crxUrl o = Some url /\
    id (options s') = Given i /\
    extVersion (options s') = Given v /\
    minChromeVersion (options s') <> Null /\
    updateXML (options s')
    = Given (generateUpdateXML (Given i) (Given url) (Given v)
               (minChromeVersion (options s'))).
Proof.
  intros Hpack Hrequest.
  destruct (pack_resolved_at 2 o s' Hpack) as [s2 [Hbefore Hafter]].
  destruct (run_keeps_resolved _ _ (start o) s2 (load_keeps_updateXML o)
              (conj eq_refl eq_refl) Hbefore) as [Hxml2 Hurl2].
  rewrite Hrequest in Hxml2.
  unfold pack_steps in Hafter. cbn [skipn] in Hafter.
  apply run_resolved_cons in Hafter. destruct Hafter as [s3 [Hstep3 Hafter]].
  destruct (cascade_updateXML_asks s2 s3 Hxml2 Hstep3)
    as [url [Hurl [Hurl3 [Hxml3 [Hid3 Hext3]]]]].
  change [cascade_extVersion; cascade_minChromeVersion; cascade_crx; cascade_id;
          cascade_publicKey; resolve_privateKey; resolve_publicKey; resolve_contents;
          resolve_crx; resolve_id; resolve_extVersion; resolve_minChromeVersion;
          resolve_updateXML]
    with (firstn 9 (skipn 3 pack_steps)
          ++ [resolve_id; resolve_extVersion; resolve_minChromeVersion; resolve_updateXML])
    in Hafter.
  apply run_resolved_app in Hafter. destruct Hafter as [s12 [Hmiddle Hafter]].
  destruct (run_keeps_resolved _ _ s3 s12 (pack_keeps_document_request url)
              (conj Hxml3 (conj Hurl3 (conj Hid3 Hext3))) Hmiddle)
    as [Hxml12 [Hurl12 [Hid12 Hext12]]].
  apply run_resolved_cons in Hafter. destruct Hafter as [s13 [Hstep13 Hafter]].
  apply run_resolved_cons in Hafter. destruct Hafter as [s14 [Hstep14 Hafter]].
  apply run_resolved_cons in Hafter. destruct Hafter as [s15 [Hstep15 Hafter]].
  apply run_resolved_cons in Hafter. destruct Hafter as [s16 [Hstep16 Hafter]].
  apply run_nil in Hafter. subst s16.
  (* the identifier *)
  assert (H13 : exists i, id (options s13) = Given i
                          /\ extVersion (options s13) = extVersion (options s12)
                          /\ manifest (options s13) = manifest (options s12)
                          /\ updateXML (options s13) = Null
                          /\ crxUrl (options s13) = Some url).
  { revert Hstep13. unfold resolve_id, call.
    destruct (id (options s12)) as [| | i] eqn:Hid; [contradiction | |].
    - destruct (asserted_bytes (publicKey (options s12))) as [pub |]; [| discriminate].
      intros [= <-]. cbn. eauto 6.
    - intros [= <-]. eauto 6. }
  destruct H13 as [i [Hid13 [Hext13 [_ [Hxml13 Hurl13]]]]].
  (* the version *)
  assert (H14 : exists v, extVersion (options s14) = Given v
                          /\ id (options s14) = Given i
                          /\ updateXML (options s14) = Null
                          /\ crxUrl (options s14) = Some url).
  { revert Hstep14. unfold resolve_extVersion. rewrite Hext13.
    destruct (extVersion (options s12)) as [| | v] eqn:Hext; [contradiction | |].
    - destruct (manifest (options s13)) as [| | m]; try discriminate.
      intros [= <-]. cbn. eauto 6.
    - intros [= <-]. rewrite Hext13. eauto 6. }
  destruct H14 as [v [Hext14 [Hid14 [Hxml14 Hurl14]]]].
  (* the minimum Chrome version *)
  assert (H15 : minChromeVersion (options s15) <> Null
                /\ extVersion (options s15) = Given v
                /\ id (options s15) = Given i
                /\ updateXML (options s15) = Null
                /\ crxUrl (options s15) = Some url).
  { revert Hstep15. unfold resolve_minChromeVersion.
    destruct (minChromeVersion (options s14)) eqn:Hmin; intros [= <-]; cbn;
      rewrite ?Hmin; repeat split; try assumption; try discriminate.
    apply minChromeVersion_or_default_not_null. }
  destruct H15 as [Hmin15 [Hext15 [Hid15 [Hxml15 Hurl15]]]].
  (* the document *)
  revert Hstep16. unfold resolve_updateXML. rewrite Hxml15. intros [= <-]. cbn.
  rewrite Hid15, Hext15, Hurl15. cbn [optional].
  exists url, i, v. repeat split; try assumption. congruence.
Qed.

Lemma load_keeps_reads (o : PackInput) :
  Forall (keeps (fun s => updateXML (options s) = updateXML o
                          /\ crxUrl (options s) = crxUrl o
                          /\ Forall (fun ev => is_ReadFile ev = true) (trace s)))
    load_steps.
Proof.
  unfold load_steps.
  repeat (apply Forall_cons; [| try apply Forall_nil]);
    intros s [H1 [H2 H3]]; unfold_steps; split_cases; subst; cbn;
    repeat split; try assumption;
    apply List.Forall_app; (split; [assumption |]);
    (apply Forall_cons; [reflexivity | apply Forall_nil]).
Qed.

Lemma load_steps_idle (s : State) :
  not_path (privateKey (options s)) -> not_path (publicKey (options s)) ->
  run load_steps s = Resolved s.
Proof.
  intros Hpriv Hpub. unfold load_steps. rewrite run_cons.
  assert (H1 : load_privateKey s = Resolved s).
  { unfold load_privateKey. destruct (privateKey (options s)) as [| | [b | p]];
      try reflexivity. exfalso. eapply Hpriv. reflexivity. }
  rewrite H1, run_cons.
  assert (H2 : load_publicKey s = Resolved s).
  { unfold load_publicKey. destruct (publicKey (options s)) as [| | [b | p]];
      try reflexivity. exfalso. eapply Hpub. reflexivity. }
  rewrite H2. reflexivity.
Qed.

(** X23.  A requested update document without an address: [pack] fails, having
    done no more than read key files; with no key given as a path it fails
    at once, with the error that asks for [crxUrl], and leaves its argument
    as it was. *)
Theorem pack_updateXML_needs_crxUrl (o : PackInput) :
  updateXML o = Null -> crxUrl o = None ->
  exists e s',
    pack o = Rejected e s' /\
    Forall (fun ev => is_ReadFile ev = true) (trace s') /\
    (not_path (privateKey o) -> not_path (publicKey o) ->
     e = crxUrl_required /\ s' = start o).
Proof.
  intros Hxml Hurl.
  assert (Hsplit : pack o
                   = match run load_steps (start o) with
                     | Resolved s2 => run (skipn 2 pack_steps) s2
                     | Rejected e s2 => Rejected e s2
                     end).
  { unfold pack. fold (start o).
    change pack_steps with (load_steps ++ skipn 2 pack_steps) at 1. apply run_app. }
  pose proof (run_keeps _ _ (load_keeps_reads o) (start o)
                (conj eq_refl (conj eq_refl (Forall_nil _)))) as Hkept.
  destruct (run load_steps (start o)) as [s2 | e s2] eqn:Hload; cbn [final] in Hkept;
    destruct Hkept as [Hxml2 [Hurl2 Hreads]].
  - exists crxUrl_required, s2.
    assert (Hreject : run (skipn 2 pack_steps) s2 = Rejected crxUrl_required s2).
    { unfold pack_steps. cbn [skipn]. rewrite run_cons. unfold cascade_updateXML.
      rewrite Hxml2, Hxml, Hurl2, Hurl. reflexivity. }
    rewrite Hsplit, Hreject. split; [reflexivity |]. split; [exact Hreads |].
    intros Hpriv Hpub. rewrite (load_steps_idle (start o) Hpriv Hpub) in Hload.
    split; [reflexivity | congruence].
  - exists e, s2. rewrite Hsplit. split; [reflexivity |]. split; [exact Hreads |].
    intros Hpriv Hpub. rewrite (load_steps_idle (start o) Hpriv Hpub) in Hload.
    discriminate Hload.
Qed.

(** ** Key files *)

(** A step does to a state with earlier calls what it does without them. *)
Lemma steps_after_calls :
  Forall (fun step => forall (evs : list Event) (o : PackInput) (t : list Event),
              step {| options := o; trace := evs ++ t |}
              = after_calls evs (step {| options := o; trace := t |})) pack_steps.
Proof.
  unfold pack_steps.
  repeat (apply Forall_cons; [| try apply Forall_nil]);
    intros evs o t; unfold_steps; cbn [options trace log assign];
    split_cases; unfold assign, log; cbn [after_calls options trace];
    rewrite <- ?List.app_assoc; reflexivity.
Qed.

Lemma run_after_calls (steps : list (State -> Outcome)) :
  Forall (fun step => forall (evs : list Event) (o : PackInput) (t : list Event),
              step {| options := o; trace := evs ++ t |}
              = after_calls evs (step {| options := o; trace := t |})) steps ->
  forall (evs : list Event) (o : PackInput) (t : list Event),
    run steps {| options := o; trace := evs ++ t |}
    = after_calls evs (run steps {| options := o; trace := t |}).
Proof.
  induction 1 as [| f steps Hf Hsteps IH]; intros evs o t; [reflexivity |].
  rewrite !run_cons, Hf.
  destruct (f {| options := o; trace := t |}) as [[o1 t1] | e [o1 t1]];
    cbn [after_calls options trace]; [apply IH | reflexivity].
Qed.

(** X24.  A private key given as a path to a file that cannot be read.  If the
    text of the error includes [ENOENT], [pack] goes on as it does for a
    private key that is absent; any other error is the error of [pack],
    with nothing else done. *)
Theorem pack_unreadable_privateKey (o : PackInput) (path : string) (e : JsError) :
  privateKey o = Given (Path path) -> readFile path = Throw e ->
  (includes (JsError_toString e) "ENOENT" = true ->
   pack o = after_calls [ReadFile path] (pack (set_privateKey Undefined o))) /\
  (includes (JsError_toString e) "ENOENT" = false ->
   pack o = Rejected e {| options := o; trace := [ReadFile path] |}).
Proof.
  intros Hpriv Hread.
  assert (Hfirst : load_privateKey (start o)
                   = if includes (JsError_toString e) "ENOENT"
                     then Resolved {| options := set_privateKey Undefined o;
                                      trace := [ReadFile path] |}
                     else Rejected e {| options := o; trace := [ReadFile path] |}).
  { unfold load_privateKey, call, catch_not_found. cbn [start options].
    rewrite Hpriv. cbv zeta. cbn [log options trace]. rewrite Hread.
    destruct (includes (JsError_toString e) "ENOENT"); reflexivity. }
  assert (Hpack : pack o
                  = match load_privateKey (start o) with
                    | Resolved s1 => run (skipn 1 pack_steps) s1
                    | Rejected e1 s1 => Rejected e1 s1
                    end)
    by (unfold pack, pack_steps; apply run_cons).
  rewrite Hpack, Hfirst.
  split; intros Htext; rewrite Htext; [| reflexivity].
  unfold pack.
  assert (Hidle : load_privateKey {| options := set_privateKey Undefined o; trace := [] |}
                  = Resolved {| options := set_privateKey Undefined o; trace := [] |})
    by reflexivity.
  unfold pack_steps. rewrite run_cons, Hidle.
  apply (run_after_calls _ (Forall_skipn_of _ 1 _ steps_after_calls)
           [ReadFile path] (set_privateKey Undefined o) []).
Qed.

(** The steps after the first leave a key that was read, and its key
    object, alone. *)
Lemma pack_keeps_loaded_key (r : option RSA) (k : Uint8Array) (ev : Event) :
  Forall (keeps (fun s => privateKey (options s) = Given (Bytes k)
                          /\ (forall r0, r = Some r0 -> rsa (options s) = Some r0)
                          /\ In ev (trace s)))
    (skipn 1 pack_steps).
Proof.
  unfold pack_steps. cbn [skipn].
  repeat (apply Forall_cons; [| try apply Forall_nil]);
    intros s [Hpriv [Hrsa Hin]]; unfold_steps; rewrite ?Hpriv;
    split_cases; subst; cbn [final options assign log set_contents set_manifest set_crx
                               set_id set_extVersion set_minChromeVersion set_updateXML
                               set_publicKey set_privateKey set_rsa
                               rsa privateKey publicKey trace promote];
    rewrite ?Hpriv; cbn [promote];
    (split; [try assumption; try congruence |]);
    (split; [try assumption; intros r0 Hr0; specialize (Hrsa r0 Hr0); congruence |]);
    try assumption; try (apply List.in_or_app; left; assumption).
Qed.

Lemma pack_keeps_call (ev : Event) :
  Forall (keeps (fun s => In ev (trace s))) pack_steps.
Proof.
  unfold pack_steps.
  repeat (apply Forall_cons; [| try apply Forall_nil]);
    intros s Hin; unfold_steps; split_cases; subst; unfold assign, log;
    cbn [final options trace]; try assumption;
    apply List.in_or_app; left; assumption.
Qed.

(** X25.  A private key given as a path to a file that is read.  When [pack]
    returns, the private key is the bytes of the file as they are, unless
    the path ends in [.pem]: then it is the export of the key object, which
    is the one of the caller when there is one and the import of the file
    otherwise. *)
Theorem pack_loads_privateKey (o : PackInput) (path : string) (file : Uint8Array)
  (s' : State) :
  pack o = Resolved s' -> privateKey o = Given (Path path) -> readFile path = Return file ->
  In (ReadFile path) (trace s') /\
  (endsWith path ".pem" = false -> privateKey (options s') = Given (Bytes file)) /\
  (endsWith path ".pem" = true ->
   forall r der,
     match rsa o with
     | Some r0 => Return r0
     | None => RSA_import file pkcs8_private_pem
     end = Return r ->
     RSA_exportKey r pkcs8_private_der = Return der ->
     privateKey (options s') = Given (Bytes der) /\ rsa (options s') = Some r).
Proof.
  intros Hpack Hpriv Hread.
  unfold pack in Hpack. fold (start o) in Hpack. unfold pack_steps in Hpack.
  apply run_resolved_cons in Hpack. destruct Hpack as [s1 [Hstep Hafter]].
  unfold load_privateKey, call, catch_not_found in Hstep. cbn [start options] in Hstep.
  rewrite Hpriv in Hstep. cbv zeta in Hstep. rewrite Hread in Hstep.
  unfold assign, log, start in Hstep. cbn [options trace app] in Hstep.
  split; [| split].
  - refine (run_keeps_resolved _ _ s1 s'
              (Forall_skipn_of _ 1 _ (pack_keeps_call (ReadFile path))) _ Hafter).
    revert Hstep. split_cases; intros Hs; try discriminate Hs; injection Hs as <-;
      unfold assign, log; cbn [options trace app]; left; reflexivity.
  - intros Hpem. rewrite Hpem in Hstep. injection Hstep as <-.
    assert (Hkept : privateKey (options s') = Given (Bytes file)
                    /\ (forall r0, None = Some r0 -> rsa (options s') = Some r0)
                    /\ In (ReadFile path) (trace s')).
    { refine (run_keeps_resolved _ _ _ s'
                (pack_keeps_loaded_key None file (ReadFile path)) _ Hafter).
      unfold assign, log. cbn. repeat split; auto. discriminate. }
    apply Hkept.
  - intros Hpem r der Hkey Hexport. rewrite Hpem, Hkey, Hexport in Hstep.
    injection Hstep as <-.
    assert (Hkept : privateKey (options s') = Given (Bytes der)
                    /\ (forall r0, Some r = Some r0 -> rsa (options s') = Some r0)
                    /\ In (ReadFile path) (trace s')).
    { refine (run_keeps_resolved _ _ _ s'
                (pack_keeps_loaded_key (Some r) der (ReadFile path)) _ Hafter).
      cbn. repeat split; auto. }
    destruct Hkept as [Hpriv' [Hrsa' _]]. auto.
Qed.

(** ** Calls *)

Lemma pack_keeps_no_paths (o : PackInput) :
  Forall (keeps (fun s => not_path (privateKey (options s))
                          /\ not_path (publicKey (options s))
                          /\ not_directory (contents (options s))
                          /\ keySize (options s) = keySize o
                          /\ Forall (fun ev => ev = GenerateKey (key_bits (keySize o)))
                               (trace s))) pack_steps.
Proof.
  unfold pack_steps.
  repeat (apply Forall_cons; [| try apply Forall_nil]);
    intros s [Hpriv [Hpub [Hc [Hsize Hcalls]]]]; unfold_steps; split_cases; subst;
    cbn [final options assign log set_contents set_manifest set_crx
           set_id set_extVersion set_minChromeVersion set_updateXML
           set_publicKey set_privateKey set_rsa
           rsa privateKey publicKey contents keySize trace];
    repeat match goal with
           | H : ?x = _ |- context [?x] => rewrite H
           end;
    try (exfalso; eapply Hpriv; reflexivity);
    try (exfalso; eapply Hpub; reflexivity);
    try (exfalso; eapply Hc; reflexivity);
    repeat split; try assumption;
    try (apply not_path_promote; assumption);
    try (intros p Hp; discriminate Hp);
    try (apply List.Forall_app; split; [assumption |];
         apply Forall_cons; [rewrite <- Hsize; reflexivity | apply Forall_nil]).
Qed.

(** X26.  Without a path among the keys and the contents, [pack] reads no file
    and packs no directory: whether it returns or throws, the one call that
    it can have made is the generation of a key, of [keySize] bits or of
    4096. *)
Theorem pack_without_paths (o : PackInput) :
  not_path (privateKey o) -> not_path (publicKey o) -> not_directory (contents o) ->
  Forall (fun ev => ev = GenerateKey (key_bits (keySize o))) (trace (final (pack o))).
Proof.
  intros Hpriv Hpub Hc.
  pose proof (run_keeps _ _ (pack_keeps_no_paths o) (start o)
                (conj Hpriv (conj Hpub (conj Hc (conj eq_refl (Forall_nil _)))))) as H.
  change (run pack_steps (start o)) with (pack o) in H. apply H.
Qed.

(** ** What [pack] leaves to do *)

Ltac settle :=
  let s := fresh "s" in
  let s' := fresh "s'" in
  let H := fresh "H" in
  intros s s' H; revert H; unfold_steps; split_cases; subst;
  intros H; try discriminate H; injection H as <-.

(** The field that a step resolves is resolved once the step has
    returned. *)
Lemma load_privateKey_settles (s s' : State) :
  load_privateKey s = Resolved s' -> not_path (privateKey (options s')).
Proof.
  revert s s'. settle; unfold not_path; cbn; intros q Hq;
    try discriminate Hq; congruence.
Qed.

Lemma load_publicKey_settles (s s' : State) :
  load_publicKey s = Resolved s' -> not_path (publicKey (options s')).
Proof.
  revert s s'. settle; unfold not_path; cbn; intros q Hq;
    try discriminate Hq; congruence.
Qed.

Lemma resolve_contents_settles (s s' : State) :
  resolve_contents s = Resolved s' -> not_directory (contents (options s')).
Proof.
  revert s s'. settle; unfold not_directory; cbn; intros q Hq;
    try discriminate Hq; congruence.
Qed.

Lemma resolve_privateKey_settles (s s' : State) :
  resolve_privateKey s = Resolved s' -> privateKey (options s') <> Null.
Proof. revert s s'. settle; cbn; congruence. Qed.

Lemma resolve_publicKey_settles (s s' : State) :
  resolve_publicKey s = Resolved s' -> publicKey (options s') <> Null.
Proof. revert s s'. settle; cbn; congruence. Qed.

Lemma resolve_crx_settles (s s' : State) :
  resolve_crx s = Resolved s' ->
  crx (options s') = Null ->
  is_crx3 (crxVersion (options s')) = false /\ is_crx2 (crxVersion (options s')) = false.
Proof. revert s s'. settle; cbn; intros Hnull; try discriminate Hnull; auto; congruence. Qed.

Lemma resolve_id_settles (s s' : State) :
  resolve_id s = Resolved s' -> id (options s') <> Null.
Proof. revert s s'. settle; cbn; congruence. Qed.

Lemma resolve_extVersion_settles (s s' : State) :
  resolve_extVersion s = Resolved s' -> extVersion (options s') <> Null.
Proof. revert s s'. settle; cbn; congruence. Qed.

Lemma resolve_minChromeVersion_settles (s s' : State) :
  resolve_minChromeVersion s = Resolved s' -> minChromeVersion (options s') <> Null.
Proof.
  revert s s'. settle; cbn; try congruence. apply minChromeVersion_or_default_not_null.
Qed.

Lemma resolve_updateXML_settles (s s' : State) :
  resolve_updateXML s = Resolved s' -> updateXML (options s') <> Null.
Proof. revert s s'. settle; cbn; congruence. Qed.

Lemma finish_keeps_crx_undefined :
  Forall (keeps (fun s => crx (options s) = Undefined)) (skipn 11 pack_steps).
Proof. unfold pack_steps. cbn [skipn]. steps_keep. Qed.

(** A container that is still requested when [pack] returns is of a version
    that [pack] does not know; its contents and keys are bytes. *)
Lemma pack_leaves_container (o : PackInput) (s' : State) :
  pack o = Resolved s' -> crx (options s') = Null ->
  is_crx3 (crxVersion (options s')) = false /\ is_crx2 (crxVersion (options s')) = false /\
  contents (options s') <> None /\ privateKey (options s') <> Undefined
  /\ publicKey (options s') <> Undefined.
Proof.
  intros Hpack Hnull.
  destruct (pack_resolved_at 11 o s' Hpack) as [s11 [Hbefore Hafter]].
  assert (Hnull11 : crx (options s11) = Null).
  { destruct (crx (options s11)) as [| | v] eqn:E; [| reflexivity |].
    - pose proof (run_keeps_resolved _ _ s11 s' finish_keeps_crx_undefined E Hafter) as H.
      cbn beta in H. congruence.
    - pose proof (run_keeps_resolved _ _ s11 s'
                    (Forall_skipn_of _ 11 _ (pack_keeps_crx v)) E Hafter) as H.
      cbn beta in H. congruence. }
  destruct (pack_prerequisites_resolved o s11 Hbefore) as [Hbytes _].
  destruct (Hbytes Hnull11) as [[priv Hpriv] [[pub Hpub] [c Hc]]].
  unfold pack_steps in Hafter. cbn [skipn] in Hafter.
  destruct (run_keeps_resolved _ _ s11 s' (finish_keeps_inputs s11)
              (conj eq_refl (conj eq_refl (conj eq_refl (conj eq_refl
                 (conj eq_refl eq_refl))))) Hafter)
    as [Hpriv' [Hpub' [_ [Hc' _]]]].
  rewrite Hpriv', Hpub', Hc', Hpriv, Hpub, Hc.
  assert (Hversion : is_crx3 (crxVersion (options s')) = false
                     /\ is_crx2 (crxVersion (options s')) = false).
  { refine (pack_establishes 11 _
              (fun s => crx (options s) = Null ->
                        is_crx3 (crxVersion (options s)) = false
                        /\ is_crx2 (crxVersion (options s)) = false)
              eq_refl resolve_crx_settles _ o s' Hpack Hnull).
    unfold pack_steps. cbn [skipn].
    repeat (apply Forall_cons; [| try apply Forall_nil]);
      intros s H; unfold_steps; split_cases; subst; cbn; try exact H;
      intros Hn; apply H; exact Hn. }
  destruct Hversion as [H3 H2]. repeat split; try assumption; discriminate.
Qed.

(** When [pack] returns, nothing is left for it to do. *)
Lemma pack_settled (o : PackInput) (s' : State) :
  pack o = Resolved s' -> settled (options s').
Proof.
  intros Hpack. unfold settled. repeat match goal with |- _ /\ _ => split end.
  - refine (pack_establishes 0 _ _ eq_refl load_privateKey_settles _ o s' Hpack).
    unfold pack_steps. cbn [skipn].
    repeat (apply Forall_cons; [| try apply Forall_nil]);
      intros s H; unfold_steps; split_cases; subst; cbn;
      repeat match goal with
             | E : ?x = _ |- context [?x] => rewrite E
             end;
      auto using not_path_promote; try (intros q Hq; discriminate Hq).
  - refine (pack_establishes 1 _ _ eq_refl load_publicKey_settles _ o s' Hpack).
    unfold pack_steps. cbn [skipn].
    repeat (apply Forall_cons; [| try apply Forall_nil]);
      intros s H; unfold_steps; split_cases; subst; cbn;
      repeat match goal with
             | E : ?x = _ |- context [?x] => rewrite E
             end;
      auto using not_path_promote; try (intros q Hq; discriminate Hq).
  - refine (pack_establishes 10 _ _ eq_refl resolve_contents_settles _ o s' Hpack).
    unfold pack_steps. cbn [skipn]. steps_keep.
  - refine (pack_establishes 8 _ _ eq_refl resolve_privateKey_settles _ o s' Hpack).
    unfold pack_steps. cbn [skipn]. steps_keep.
  - refine (pack_establishes 9 _ _ eq_refl resolve_publicKey_settles _ o s' Hpack).
    unfold pack_steps. cbn [skipn]. steps_keep.
  - refine (pack_establishes 12 _ _ eq_refl resolve_id_settles _ o s' Hpack).
    unfold pack_steps. cbn [skipn]. steps_keep.
  - refine (pack_establishes 13 _ _ eq_refl resolve_extVersion_settles _ o s' Hpack).
    unfold pack_steps. cbn [skipn]. steps_keep.
  - refine (pack_establishes 14 _ _ eq_refl resolve_minChromeVersion_settles _ o s' Hpack).
    unfold pack_steps. cbn [skipn]. steps_keep.
  - refine (pack_establishes 15 _ _ eq_refl resolve_updateXML_settles _ o s' Hpack).
    unfold pack_steps. cbn [skipn]. steps_keep.
  - intros Hnull. exact (pack_leaves_container o s' Hpack Hnull).
Qed.

(** On a state that is settled every step returns the state as it is. *)
Lemma settled_idle (s : State) : settled (options s) -> run pack_steps s = Resolved s.
Proof.
  intros [Hpriv [Hpub [Hc [Hpriv' [Hpub' [Hid [Hext [Hmin [Hxml Hcrx]]]]]]]]].
  assert (H1 : load_privateKey s = Resolved s).
  { unfold load_privateKey. destruct (privateKey (options s)) as [| | [b | p]];
      try reflexivity. exfalso. eapply Hpriv. reflexivity. }
  assert (H2 : load_publicKey s = Resolved s).
  { unfold load_publicKey. destruct (publicKey (options s)) as [| | [b | p]];
      try reflexivity. exfalso. eapply Hpub. reflexivity. }
  assert (H3 : cascade_updateXML s = Resolved s)
    by (unfold cascade_updateXML; destruct (updateXML (options s)); congruence).
  assert (H4 : cascade_extVersion s = Resolved s)
    by (unfold cascade_extVersion; destruct (extVersion (options s)); congruence).
  assert (H5 : cascade_minChromeVersion s = Resolved s)
    by (unfold cascade_minChromeVersion; destruct (minChromeVersion (options s));
        congruence).
  assert (H6 : cascade_crx s = Resolved s).
  { unfold cascade_crx. destruct (crx (options s)) eqn:E; try reflexivity.
    destruct (Hcrx eq_refl) as [_ [_ [Hcontents [Hpriv0 Hpub0]]]].
    destruct (contents (options s)) as [c |]; [| contradiction].
    destruct s as [o t]. unfold assign. cbn [options trace] in *. f_equal. f_equal.
    destruct o. cbn in *.
    destruct privateKey0; try contradiction; destruct publicKey0; try contradiction;
      reflexivity. }
  assert (H7 : cascade_id s = Resolved s)
    by (unfold cascade_id; destruct (id (options s)); congruence).
  assert (H8 : cascade_publicKey s = Resolved s)
    by (unfold cascade_publicKey; destruct (publicKey (options s)); congruence).
  assert (H9 : resolve_privateKey s = Resolved s)
    by (unfold resolve_privateKey; destruct (privateKey (options s)); congruence).
  assert (H10 : resolve_publicKey s = Resolved s)
    by (unfold resolve_publicKey; destruct (publicKey (options s)); congruence).
  assert (H11 : resolve_contents s = Resolved s).
  { unfold resolve_contents. destruct (contents (options s)) as [[b | p] |];
      try reflexivity. exfalso. eapply Hc. reflexivity. }
  assert (H12 : resolve_crx s = Resolved s).
  { unfold resolve_crx. destruct (crx (options s)) eqn:E; try reflexivity.
    destruct (Hcrx eq_refl) as [-> [-> _]]. reflexivity. }
  assert (H13 : resolve_id s = Resolved s)
    by (unfold resolve_id; destruct (id (options s)); congruence).
  assert (H14 : resolve_extVersion s = Resolved s)
    by (unfold resolve_extVersion; destruct (extVersion (options s)); congruence).
  assert (H15 : resolve_minChromeVersion s = Resolved s)
    by (unfold resolve_minChromeVersion; destruct (minChromeVersion (options s));
        congruence).
  assert (H16 : resolve_updateXML s = Resolved s)
    by (unfold resolve_updateXML; destruct (updateXML (options s)); congruence).
  unfold pack_steps.
  rewrite run_cons, H1, run_cons, H2, run_cons, H3, run_cons, H4, run_cons, H5, run_cons, H6,
    run_cons, H7, run_cons, H8, run_cons, H9, run_cons, H10, run_cons, H11, run_cons, H12,
    run_cons, H13, run_cons, H14, run_cons, H15, run_cons, H16.
  reflexivity.
Qed.

(** X27.  [pack] is idempotent: a record that [pack] has returned is settled, and
    [pack] returns it again as it is, having called nothing. *)
Theorem pack_idempotent (o : PackInput) (s' : State) :
  pack o = Resolved s' ->
  settled (options s') /\ pack (options s') = Resolved (start (options s')).
Proof.
  intros Hpack. pose proof (pack_settled o s' Hpack) as Hsettled.
  split; [exact Hsettled |]. apply (settled_idle (start (options s'))). exact Hsettled.
Qed.

(** X28.  With nothing requested that [pack] can make and nothing given as a
    path, [pack] returns its argument as it is and calls nothing. *)
Theorem pack_nothing_to_do (o : PackInput) :
  settled o -> pack o = Resolved (start o).
Proof. intros Hsettled. apply (settled_idle (start o)). exact Hsettled. Qed.

End PackCrx.

Arguments contents {RSA} _.
Arguments privateKey {RSA} _.
Arguments keySize {RSA} _.
Arguments publicKey {RSA} _.
Arguments rsa {RSA} _.
Arguments id {RSA} _.
Arguments crx {RSA} _.
Arguments crxVersion {RSA} _.
Arguments crxUrl {RSA} _.
Arguments updateXML {RSA} _.
Arguments extVersion {RSA} _.
Arguments minChromeVersion {RSA} _.
Arguments manifest {RSA} _.
Arguments options {RSA} _.
Arguments trace {RSA} _.
Arguments Build_State {RSA} _ _.
Arguments Resolved {RSA} _.
Arguments Rejected {RSA} _ _.
Arguments no_options {RSA}.
Arguments final {RSA} _.
Arguments no_key_generated {RSA} _.
Arguments set_contents {RSA} _ _.
Arguments set_privateKey {RSA} _ _.
Arguments set_publicKey {RSA} _ _.
Arguments set_crx {RSA} _ _.
Arguments set_crxVersion {RSA} _ _.
Arguments set_updateXML {RSA} _ _.
Arguments set_minChromeVersion {RSA} _ _.
Arguments set_manifest {RSA} _ _.

(** * Examples

    The theorems at concrete inputs, with the stand-ins of [Toy] for the
    primitives, and the inputs at which a statement of the specification
    fails. *)

Lemma Toy_sha256_length (m : Uint8Array) : List.length (Toy.sha256 m) = 32%nat.
Proof.
  unfold Toy.sha256. rewrite List.length_firstn, List.length_app, List.repeat_length. lia.
Qed.

(** [pack] with the stand-ins. *)
Notation "'toy_pack'" :=
  (pack Toy.sha256 Toy.RSA Toy.RSA_import Toy.RSA_sign Toy.RSA_exportKey Toy.RSA_generate
     Toy.readFile Toy.packContents).

(** ** Version 2 *)

(** A version 2 container that declares a key of 5 bytes and a signature of
    5 bytes and holds 2 bytes after its header. *)
Lemma unpack_crx2_overrun_witness :
  unpack (whole (kSignature ++ le_split 4 2 ++ le_split 4 5 ++ le_split 4 5
                 ++ [Byte.x07; Byte.x08]))
  = Return (UnpackedCrx2 [] [Byte.x07; Byte.x08] []).
Proof.
  apply (unpack_crx2_overrun 5 5 [Byte.x07; Byte.x08]); [lia | lia | vm_compute; reflexivity].
Defined.

(** ** Version 3 *)

Lemma unpack_packCrx3_witness :
  exists crx,
    packCrx3 Toy.sha256 Toy.RSA Toy.RSA_import Toy.RSA_sign
      [Byte.x01] [Byte.x02; Byte.x03] [Byte.x50; Byte.x4b] None = Return crx /\
    unpack (whole crx)
    = Return (UnpackedCrx3 [Byte.x50; Byte.x4b]
                {| sha256_with_rsa :=
                     Some [ {| public_key := Some [Byte.x02; Byte.x03];
                               signature := Some [Byte.x43; Byte.x52; Byte.x58; Byte.x33] |} ];
                   sha256_with_ecdsa := Some [];
                   signed_header_data :=
                     Some (Pbf.finish
                             (crx3.SignedData.write
                                {| crx_id := Some (generateBinaryCrxId Toy.sha256
                                                     [Byte.x02; Byte.x03]) |}
                                Pbf.new_Writer)) |}) /\
    (exists p, crx3.SignedData.read
                 (Pbf.new_Reader
                    (Pbf.finish
                       (crx3.SignedData.write
                          {| crx_id := Some (generateBinaryCrxId Toy.sha256
                                               [Byte.x02; Byte.x03]) |}
                          Pbf.new_Writer))) None
               = Return ({| crx_id := Some (firstn 16 (Toy.sha256 [Byte.x02; Byte.x03])) |}, p))
    /\ List.length (firstn 16 (Toy.sha256 [Byte.x02; Byte.x03])) = 16%nat.
Proof.
  apply (unpack_packCrx3 Toy.sha256 Toy_sha256_length Toy.RSA Toy.RSA_import Toy.RSA_sign
           [Byte.x01] [Byte.x02; Byte.x03] [Byte.x50; Byte.x4b]
           [Byte.x43; Byte.x52; Byte.x58; Byte.x33] None);
    [reflexivity | vm_compute; reflexivity].
Defined.

(** The context string has 16 bytes: with nothing else to sign, 20 bytes are
    signed, and no context of 17 bytes fits. *)
Lemma toSign_context_not_17_bytes :
  ~ (exists context,
        List.length context = 17%nat /\
        toSign [] [] = Return (context ++ le_split 4 0 ++ [] ++ [])).
Proof.
  intros [context [Hlen Hsign]].
  assert (H : toSign [] [] = Return (kSignatureContext ++ le_split 4 0)) by reflexivity.
  rewrite H in Hsign. injection Hsign as Hsign.
  apply (f_equal (@List.length byte)) in Hsign.
  rewrite !List.length_app, Hlen in Hsign. discriminate Hsign.
Qed.

(** ** Buffers that are not containers *)

Lemma unpack_rejects_witness :
  (truncated [Byte.x58] -> unpack (whole [Byte.x58]) = Throw DataView_RangeError) /\
  (~ truncated [Byte.x58] -> unpack (whole [Byte.x58]) = Throw invalid_crx).
Proof.
  apply (unpack_rejects [Byte.x58]).
  intros [version [rest [H _]]]. discriminate H.
Defined.

(** Two arrays that do not start with the magic number, and on which
    [unpack] does not throw the format error.  On the empty array the read of
    the first byte throws the RangeError of the DataView.  The single byte
    [0x58], as the view [full.subarray(16)] of a buffer that holds the header
    of a version 2 container in front of it, is unpacked: the magic number
    and the version are read from the buffer. *)
Lemma unpack_not_format_error :
  unpack (whole []) = Throw DataView_RangeError /\
  let full := kSignature ++ le_split 4 2 ++ le_split 4 0 ++ le_split 4 0 ++ [Byte.x58] in
  let crx := subarray (whole full) 16 None in
  elements crx = [Byte.x58] /\ unpack crx = Return (UnpackedCrx2 [] [] []).
Proof. cbv zeta. split; [| split]; vm_compute; reflexivity. Qed.

(** ** The identifier *)

Lemma generateCrxId_letters_witness :
  generateCrxId Toy.sha256 [Byte.x01; Byte.xfe]
  = string_of_list_ascii
      (List.map nibble_char (firstn 32 (nibbles (Toy.sha256 [Byte.x01; Byte.xfe])))) /\
  String.length (generateCrxId Toy.sha256 [Byte.x01; Byte.xfe]) = 32%nat /\
  Forall (fun c => (nat_of_ascii "a" <= nat_of_ascii c <= nat_of_ascii "p")%nat)
    (list_ascii_of_string (generateCrxId Toy.sha256 [Byte.x01; Byte.xfe])) /\
  (forall publicKey', publicKey' = [Byte.x01; Byte.xfe] ->
                      generateCrxId Toy.sha256 publicKey'
                      = generateCrxId Toy.sha256 [Byte.x01; Byte.xfe]).
Proof.
  apply (generateCrxId_letters Toy.sha256 Toy_sha256_length [Byte.x01; Byte.xfe]).
Defined.

Example generateCrxId_example :
  generateCrxId Toy.sha256 [Byte.x01; Byte.xfe] = "abpoaaaaaaaaaaaaaaaaaaaaaaaaaaaa"%string.
Proof. reflexivity. Qed.

(** ** [pack] *)

(** Container version 4: [pack] returns, and [crx] is still [null]. *)
Lemma pack_unsupported_crxVersion_witness :
  let request : PackInput Toy.RSA :=
    set_crxVersion (Some 4)
      (set_crx Null (set_contents (Some (Bytes [Byte.x50; Byte.x4b]))
         (set_privateKey (Given (Bytes [Byte.x01]))
            (set_publicKey (Given (Bytes [Byte.x02])) no_options)))) in
  toy_pack request = Resolved {| options := request; trace := [] |} /\
  crx (options {| options := request; trace := [] |}) = Null.
Proof.
  intros request. split; [reflexivity |].
  apply (pack_unsupported_crxVersion Toy.sha256 Toy.RSA Toy.RSA_import Toy.RSA_sign
           Toy.RSA_exportKey Toy.RSA_generate Toy.readFile Toy.packContents request 4);
    [reflexivity | reflexivity | lia | lia | reflexivity].
Defined.

(** A container and an identifier requested, everything else given. *)
Lemma pack_keeps_given_witness :
  let request : PackInput Toy.RSA :=
    set_crx Null (set_id Toy.RSA Null
      (set_manifest (Given Toy.given_manifest)
         (set_contents (Some (Bytes [Byte.x50; Byte.x4b]))
            (set_privateKey (Given (Bytes [Byte.x01]))
               (set_publicKey (Given (Bytes [Byte.x02])) no_options))))) in
  exists s',
    toy_pack request = Resolved s' /\
    manifest (options s') = Given Toy.given_manifest /\
    contents (options s') = Some (Bytes [Byte.x50; Byte.x4b]) /\
    privateKey (options s') = Given (Bytes [Byte.x01]) /\
    publicKey (options s') = Given (Bytes [Byte.x02]).
Proof.
  intros request.
  assert (Hrun : toy_pack request = Resolved (final (toy_pack request)))
    by (vm_compute; reflexivity).
  exists (final (toy_pack request)). split; [exact Hrun |].
  pose proof (pack_keeps_given Toy.sha256 Toy.RSA Toy.RSA_import Toy.RSA_sign
                Toy.RSA_exportKey Toy.RSA_generate Toy.readFile Toy.packContents
                request _ Hrun) as H.
  cbv zeta in H.
  destruct H as [_ [_ [_ [_ [_ [_ [_ [_ [Hcontents [Hmanifest [Hprivate Hkept]]]]]]]]]]].
  destruct (Hprivate [Byte.x01] eq_refl) as [Hkey Htrace].
  destruct (Hkept Htrace) as [_ Hpublic].
  split; [apply Hmanifest; [reflexivity | intros p; discriminate] |].
  split; [apply Hcontents; reflexivity |].
  split; [exact Hkey | apply Hpublic; reflexivity].
Defined.

(** A manifest given together with a directory to pack is replaced by the
    manifest of the directory. *)
Lemma pack_overwrites_given_manifest :
  ~ (forall (o : PackInput Toy.RSA) s',
        toy_pack o = Resolved s' ->
        forall m, manifest o = Given m -> manifest (options s') = Given m).
Proof.
  intros H.
  specialize (H (set_manifest (Given Toy.given_manifest)
                   (set_contents (Some (Path "extension")) no_options))
                _ eq_refl Toy.given_manifest eq_refl).
  discriminate H.
Qed.

(** A container requested with a private key file that does not exist and
    the bytes of a public key. *)
Lemma pack_crx_without_contents_witness :
  let request : PackInput Toy.RSA :=
    set_privateKey (Given (Path "key.pem"))
      (set_publicKey (Given (Bytes [Byte.x02; Byte.x03])) (set_crx Null no_options)) in
  exists e s',
    toy_pack request = Rejected e s' /\
    no_key_generated s' /\
    (e = contents_required
     \/ (e = crxUrl_required /\ updateXML request = Null /\ crxUrl request = None)
     \/ run Toy.RSA (load_steps Toy.RSA Toy.RSA_import Toy.RSA_exportKey Toy.readFile)
          {| options := request; trace := [] |} = Rejected e s') /\
    ((forall p, privateKey request <> Given (Path p)) ->
     privateKey (options s') = privateKey request) /\
    ((forall p, publicKey request <> Given (Path p)) ->
     publicKey (options s') = publicKey request) /\
    ((forall p, privateKey request <> Given (Path p)) ->
     (forall p, publicKey request <> Given (Path p)) ->
     privateKey (options s') = privateKey request /\
     publicKey (options s') = publicKey request /\
     rsa (options s') = rsa request /\ trace s' = [] /\
     (e = contents_required \/ e = crxUrl_required)).
Proof.
  intros request.
  apply (pack_crx_without_contents Toy.sha256 Toy.RSA Toy.RSA_import Toy.RSA_sign
           Toy.RSA_exportKey Toy.RSA_generate Toy.readFile Toy.packContents request);
    reflexivity.
Defined.

(** With the update document requested as well and no [crxUrl], the error
    is the one about [crxUrl]. *)
Lemma pack_without_contents_other_error :
  ~ (forall o : PackInput Toy.RSA,
        crx o = Null -> contents o = None ->
        exists s', toy_pack o = Rejected contents_required s').
Proof.
  intros H.
  destruct (H (set_updateXML Null (set_crx Null no_options)) eq_refl eq_refl) as [s' Hs'].
  discriminate Hs'.
Qed.

(** The example of the specification: the manifest declares ["90.0"]. *)
Lemma pack_minChromeVersion_witness :
  let request : PackInput Toy.RSA :=
    set_minChromeVersion Null
      (set_manifest (Given Toy.given_manifest) (set_crxVersion (Some 3) no_options)) in
  exists s',
    toy_pack request = Resolved s' /\
    minChromeVersion (options s') = Given "90.0"%string.
Proof.
  intros request. eexists. split; [reflexivity |].
  pose proof (pack_minChromeVersion Toy.sha256 Toy.RSA Toy.RSA_import Toy.RSA_sign
                Toy.RSA_exportKey Toy.RSA_generate Toy.readFile Toy.packContents
                request _ eq_refl eq_refl) as H.
  cbv zeta in H. destruct H as [H _].
  apply (H Toy.given_manifest); [reflexivity | reflexivity | discriminate].
Defined.

(** A manifest that declares the empty string gets the default. *)
Lemma pack_minChromeVersion_empty_string :
  ~ (forall (o : PackInput Toy.RSA) s',
        toy_pack o = Resolved s' -> minChromeVersion o = Null ->
        forall m v, manifest (options s') = Given m -> minimum_chrome_version m = Some v ->
                    minChromeVersion (options s') = Given v).
Proof.
  intros H.
  specialize (H (set_minChromeVersion Null
                   (set_manifest (Given Toy.empty_minimum_manifest) no_options))
                _ eq_refl eq_refl Toy.empty_minimum_manifest EmptyString eq_refl eq_refl).
  discriminate H.
Qed.

Arguments start {RSA} _.
Arguments settled {RSA} _.
Arguments after_calls {RSA} _ _.
Arguments set_id {RSA} _ _.
Arguments set_extVersion {RSA} _ _.
Arguments set_rsa {RSA} _ _.

(** ** Further examples, of the codec *)

Lemma unpack_crx2_container_witness :
  unpack (whole (kSignature ++ le_split 4 2 ++ le_split 4 2 ++ le_split 4 1
                 ++ [Byte.x0a; Byte.x0b] ++ [Byte.x0c] ++ [Byte.x50; Byte.x4b]))
  = Return (UnpackedCrx2 [Byte.x50; Byte.x4b] [Byte.x0a; Byte.x0b] [Byte.x0c]).
Proof.
  apply (unpack_crx2_container [Byte.x0a; Byte.x0b] [Byte.x0c] [Byte.x50; Byte.x4b]);
    vm_compute; reflexivity.
Defined.

Lemma packCrx2_empty_round_trip_witness :
  exists crx,
    packCrx2 Toy.RSA Toy.RSA_import Toy.RSA_sign [Byte.x01] [Byte.x02; Byte.x03] [] None
    = Return crx /\
    len crx = 16 + len [Byte.x02; Byte.x03] + len [Byte.x00; Byte.x00; Byte.x00; Byte.x00] /\
    unpack (whole crx)
    = Return (UnpackedCrx2 [] [Byte.x02; Byte.x03] [Byte.x00; Byte.x00; Byte.x00; Byte.x00]).
Proof.
  apply (packCrx2_empty_round_trip Toy.RSA Toy.RSA_import Toy.RSA_sign
           [Byte.x01] [Byte.x02; Byte.x03] [Byte.x00; Byte.x00; Byte.x00; Byte.x00]
           None [Byte.x01]);
    vm_compute; reflexivity.
Defined.

(** A header length of 9 before one byte that is no header field. *)
Lemma unpack_crx3_overrun_witness :
  unpack (whole (kSignature ++ kVersion ++ le_split 4 9 ++ [Byte.x00]))
  = ('(decodedHeader, _) <- crx3.CrxFileHeader.read (Pbf.new_Reader [Byte.x00]) None ;;
     Return (UnpackedCrx3 [] decodedHeader)).
Proof.
  apply (unpack_crx3_overrun 9 [Byte.x00]); [lia | vm_compute; discriminate].
Defined.

(** A header that holds signed header data only, before two archives. *)
Lemma unpack_crx3_archive_unchecked_witness :
  exists decodedHeader,
    UnpackedCrx3 [Byte.x50] {| sha256_with_rsa := Some []; sha256_with_ecdsa := Some [];
                              signed_header_data := Some [Byte.x07] |}
    = UnpackedCrx3 [Byte.x50] decodedHeader /\
    unpack (whole (kSignature ++ kVersion
                   ++ le_split 4 (len [Byte.x82; Byte.xf1; Byte.x04; Byte.x01; Byte.x07])
                   ++ [Byte.x82; Byte.xf1; Byte.x04; Byte.x01; Byte.x07]
                   ++ [Byte.x51; Byte.x52]))
    = Return (UnpackedCrx3 [Byte.x51; Byte.x52] decodedHeader).
Proof.
  apply (unpack_crx3_archive_unchecked [Byte.x82; Byte.xf1; Byte.x04; Byte.x01; Byte.x07]
           [Byte.x50] [Byte.x51; Byte.x52]);
    vm_compute; reflexivity.
Defined.

Lemma unpack_crx3_empty_header_witness :
  unpack (whole (kSignature ++ kVersion ++ le_split 4 0 ++ [Byte.x50; Byte.x4b]))
  = Return (UnpackedCrx3 [Byte.x50; Byte.x4b]
              {| sha256_with_rsa := Some []; sha256_with_ecdsa := Some [];
                 signed_header_data := None |}).
Proof. apply (unpack_crx3_empty_header [Byte.x50; Byte.x4b]). Defined.

Lemma packCrx3_layout_witness :
  let signedHeaderData :=
    Pbf.finish (crx3.SignedData.write
                  {| crx_id := Some (generateBinaryCrxId Toy.sha256 [Byte.x02]) |}
                  Pbf.new_Writer) in
  packCrx3 Toy.sha256 Toy.RSA Toy.RSA_import Toy.RSA_sign [Byte.x01] [Byte.x02] [Byte.x50] None
  = (sg <- generateCrx3Signature Toy.RSA Toy.RSA_import Toy.RSA_sign [Byte.x01]
             signedHeaderData [Byte.x50] None ;;
     let header :=
       Pbf.finish
         (crx3.CrxFileHeader.write
            {| sha256_with_rsa := Some [ {| public_key := Some [Byte.x02];
                                            signature := Some sg |} ];
               sha256_with_ecdsa := None;
               signed_header_data := Some signedHeaderData |} Pbf.new_Writer) in
     Return (kSignature ++ kVersion ++ le_split 4 (len header) ++ header ++ [Byte.x50])).
Proof.
  apply (packCrx3_layout Toy.sha256 Toy.RSA Toy.RSA_import Toy.RSA_sign
           [Byte.x01] [Byte.x02] [Byte.x50] None).
Defined.

Lemma generateCrxId_of_binary_witness :
  generateCrxId Toy.sha256 [Byte.x01; Byte.xfe]
  = string_of_list_ascii
      (List.map nibble_char (nibbles (generateBinaryCrxId Toy.sha256 [Byte.x01; Byte.xfe]))) /\
  String.length (generateCrxId Toy.sha256 [Byte.x01; Byte.xfe])
  = (2 * List.length (generateBinaryCrxId Toy.sha256 [Byte.x01; Byte.xfe]))%nat.
Proof. apply (generateCrxId_of_binary Toy.sha256 [Byte.x01; Byte.xfe]). Defined.

(** Two keys that differ after their 32nd byte have the same digest with the
    stand-in for SHA-256, hence both identifiers in common. *)
Lemma generateCrxId_same_iff_witness :
  generateCrxId Toy.sha256 (repeat Byte.x01 32 ++ [Byte.x02])
  = generateCrxId Toy.sha256 (repeat Byte.x01 32 ++ [Byte.x03])
  <-> generateBinaryCrxId Toy.sha256 (repeat Byte.x01 32 ++ [Byte.x02])
      = generateBinaryCrxId Toy.sha256 (repeat Byte.x01 32 ++ [Byte.x03]).
Proof.
  apply (generateCrxId_same_iff Toy.sha256 (repeat Byte.x01 32 ++ [Byte.x02])
           (repeat Byte.x01 32 ++ [Byte.x03])).
Defined.

(** A proof with an empty key and no signature. *)
Lemma AsymmetricKeyProof_round_trip_witness :
  exists p,
    crx3.AsymmetricKeyProof.read
      (Pbf.new_Reader
         (Pbf.finish (crx3.AsymmetricKeyProof.write
                        {| public_key := Some []; signature := None |} Pbf.new_Writer)))
      None
    = Return ({| public_key := Some []; signature := None |}, p)
    /\ Pbf.pos p
       = len (Pbf.finish (crx3.AsymmetricKeyProof.write
                            {| public_key := Some []; signature := None |} Pbf.new_Writer)).
Proof.
  apply (AsymmetricKeyProof_round_trip {| public_key := Some []; signature := None |}).
  vm_compute. reflexivity.
Defined.

Lemma SignedData_round_trip_witness :
  exists p,
    crx3.SignedData.read
      (Pbf.new_Reader
         (Pbf.finish (crx3.SignedData.write {| crx_id := Some [Byte.x07; Byte.x08] |}
                        Pbf.new_Writer))) None
    = Return ({| crx_id := Some [Byte.x07; Byte.x08] |}, p)
    /\ Pbf.pos p
       = len (Pbf.finish (crx3.SignedData.write {| crx_id := Some [Byte.x07; Byte.x08] |}
                            Pbf.new_Writer)).
Proof.
  apply (SignedData_round_trip {| crx_id := Some [Byte.x07; Byte.x08] |}).
  vm_compute. reflexivity.
Defined.

(** A header with two RSA proofs, no array of ECDSA proofs and no signed
    header data. *)
Lemma CrxFileHeader_round_trip_witness :
  let header :=
    {| sha256_with_rsa := Some [ {| public_key := Some [Byte.x01]; signature := None |};
                                 {| public_key := None; signature := Some [Byte.x02] |} ];
       sha256_with_ecdsa := None;
       signed_header_data := None |} in
  exists p,
    crx3.CrxFileHeader.read
      (Pbf.new_Reader (Pbf.finish (crx3.CrxFileHeader.write header Pbf.new_Writer))) None
    = Return (as_read header, p)
    /\ Pbf.pos p = len (Pbf.finish (crx3.CrxFileHeader.write header Pbf.new_Writer)).
Proof.
  intros header. apply (CrxFileHeader_round_trip header). vm_compute. reflexivity.
Defined.

(** Field 4 between an ECDSA proof and the signed header data. *)
Lemma CrxFileHeader_read_skips_unknown_witness :
  let header :=
    {| sha256_with_rsa := None;
       sha256_with_ecdsa := Some [ {| public_key := Some [Byte.x01]; signature := None |} ];
       signed_header_data := Some [Byte.x09] |} in
  let proofs :=
    Pbf.finish (crx3.CrxFileHeader.write
                  {| sha256_with_rsa := sha256_with_rsa header;
                     sha256_with_ecdsa := sha256_with_ecdsa header;
                     signed_header_data := None |} Pbf.new_Writer) in
  let unknown := Pbf.finish (Pbf.writeBytesField 4 [Byte.x55; Byte.x66] Pbf.new_Writer) in
  let data :=
    Pbf.finish (crx3.CrxFileHeader.write
                  {| sha256_with_rsa := None; sha256_with_ecdsa := None;
                     signed_header_data := signed_header_data header |} Pbf.new_Writer) in
  exists p,
    crx3.CrxFileHeader.read (Pbf.new_Reader (proofs ++ unknown ++ data)) None
    = Return (as_read header, p)
    /\ Pbf.pos p = len (proofs ++ unknown ++ data).
Proof.
  intros header.
  apply (CrxFileHeader_read_skips_unknown header 4 [Byte.x55; Byte.x66]);
    try lia; vm_compute; reflexivity.
Defined.

Lemma generateUpdateXML_attributes_witness :
  let doc := generateUpdateXML (Given "abcdefghijklmnop"%string)
               (Given "https://example.org/e.crx"%string) (Given "1.0"%string)
               (Given "90.0"%string) in
  includes doc ("<app appid='" ++ "abcdefghijklmnop" ++ "'>") = true /\
  includes doc ("<updatecheck codebase='" ++ "https://example.org/e.crx" ++ "' version='"
                ++ "1.0" ++ "'") = true /\
  (forall v, Given "90.0"%string = Given v -> v <> EmptyString ->
             includes doc ("' version='" ++ "1.0" ++ "' prodversionmin='" ++ v ++ "' />")
             = true) /\
  (Given "90.0"%string = Undefined \/ Given "90.0"%string = Given EmptyString ->
   doc = generateUpdateXML (Given "abcdefghijklmnop"%string)
           (Given "https://example.org/e.crx"%string) (Given "1.0"%string) Undefined /\
   includes doc ("' version='" ++ "1.0" ++ "' />") = true).
Proof.
  apply (generateUpdateXML_attributes "abcdefghijklmnop" "https://example.org/e.crx" "1.0"
           (Given "90.0"%string)).
Defined.

(** ** Further examples, of [pack] *)

(** The pattern of the examples: the run is computed, and the theorem is
    applied to it. *)
Ltac computed_run request :=
  assert (Hrun : toy_pack request = Resolved (final (toy_pack request)))
    by (vm_compute; reflexivity).

Lemma pack_id_of_publicKey_witness :
  let request : PackInput Toy.RSA :=
    set_id Null (set_publicKey (Given (Bytes [Byte.x02])) no_options) in
  exists s' pub,
    toy_pack request = Resolved s' /\
    publicKey (options s') = Given (Bytes pub) /\
    id (options s') = Given (generateCrxId Toy.sha256 pub).
Proof.
  intros request. computed_run request.
  destruct (pack_id_of_publicKey Toy.sha256 Toy.RSA Toy.RSA_import Toy.RSA_sign
              Toy.RSA_exportKey Toy.RSA_generate Toy.readFile Toy.packContents
              request _ Hrun eq_refl) as [pub H].
  exists (final (toy_pack request)), pub. split; [exact Hrun | exact H].
Defined.

(** A container requested for contents of two bytes: the keys are
    generated. *)
Lemma pack_crx3_container_witness :
  let request : PackInput Toy.RSA :=
    set_crx Null (set_contents (Some (Bytes [Byte.x50; Byte.x4b])) no_options) in
  exists s' priv pub c packed,
    toy_pack request = Resolved s' /\
    privateKey (options s') = Given (Bytes priv) /\
    publicKey (options s') = Given (Bytes pub) /\
    contents (options s') = Some (Bytes c) /\
    crx (options s') = Given packed /\
    packCrx3 Toy.sha256 Toy.RSA Toy.RSA_import Toy.RSA_sign priv pub c (rsa (options s'))
    = Return packed.
Proof.
  intros request. computed_run request.
  destruct (pack_crx3_container Toy.sha256 Toy_sha256_length Toy.RSA Toy.RSA_import
              Toy.RSA_sign Toy.RSA_exportKey Toy.RSA_generate Toy.readFile Toy.packContents
              request _ Hrun eq_refl eq_refl)
    as [priv [pub [c [packed [H1 [H2 [H3 [H4 [H5 _]]]]]]]]].
  exists (final (toy_pack request)), priv, pub, c, packed. auto 10.
Defined.

Lemma pack_crx2_only_empty_witness :
  let request : PackInput Toy.RSA :=
    set_crxVersion (Some 2)
      (set_crx Null (set_contents (Some (Bytes []))
         (set_privateKey (Given (Bytes [Byte.x01]))
            (set_publicKey (Given (Bytes [Byte.x02])) no_options)))) in
  exists s',
    toy_pack request = Resolved s' /\
    contents (options s') = Some (Bytes []) /\
    exists packed, crx (options s') = Given packed.
Proof.
  intros request. computed_run request.
  exists (final (toy_pack request)). split; [exact Hrun |].
  apply (pack_crx2_only_empty Toy.sha256 Toy.RSA Toy.RSA_import Toy.RSA_sign
           Toy.RSA_exportKey Toy.RSA_generate Toy.readFile Toy.packContents
           request _ Hrun eq_refl eq_refl).
Defined.

(** A requested private key and a key size of zero. *)
Lemma pack_generates_key_pair_witness :
  let request : PackInput Toy.RSA :=
    {| contents := None; privateKey := Null; keySize := Some 0;
       publicKey := Given (Bytes [Byte.x02]); rsa := None; id := Undefined;
       crx := Undefined; crxVersion := None; crxUrl := None; updateXML := Undefined;
       extVersion := Undefined; minChromeVersion := Undefined; manifest := Undefined |} in
  exists s',
    toy_pack request = Resolved s' /\
    rsa (options s') = Some (Toy.RSA_generate 4096) /\
    In (GenerateKey 4096) (trace s') /\
    exists priv pub,
      Toy.RSA_exportKey (Toy.RSA_generate 4096) pkcs8_private_der = Return priv /\
      Toy.RSA_exportKey (Toy.RSA_generate 4096) pkcs8_public_der = Return pub /\
      privateKey (options s') = Given (Bytes priv) /\
      publicKey (options s') = Given (Bytes pub).
Proof.
  intros request. computed_run request.
  exists (final (toy_pack request)). split; [exact Hrun |].
  apply (pack_generates_key_pair Toy.sha256 Toy.RSA Toy.RSA_import Toy.RSA_sign
           Toy.RSA_exportKey Toy.RSA_generate Toy.readFile Toy.packContents
           request _ Hrun).
  left. reflexivity.
Defined.

Lemma pack_exports_publicKey_witness :
  let request : PackInput Toy.RSA :=
    set_publicKey Null (set_privateKey (Given (Bytes [Byte.x01])) no_options) in
  exists s' r pub,
    toy_pack request = Resolved s' /\
    rsa_or_import Toy.RSA Toy.RSA_import (rsa request) [Byte.x01] = Return r /\
    Toy.RSA_exportKey r pkcs8_public_der = Return pub /\
    (rsa request = None ->
     generatePublicKey Toy.RSA Toy.RSA_import Toy.RSA_exportKey [Byte.x01] = Return pub) /\
    rsa (options s') = Some r /\
    privateKey (options s') = Given (Bytes [Byte.x01]) /\
    publicKey (options s') = Given (Bytes pub) /\
    no_key_generated s'.
Proof.
  intros request. computed_run request.
  destruct (pack_exports_publicKey Toy.sha256 Toy.RSA Toy.RSA_import Toy.RSA_sign
              Toy.RSA_exportKey Toy.RSA_generate Toy.readFile Toy.packContents
              request [Byte.x01] _ Hrun eq_refl eq_refl) as [r [pub H]].
  exists (final (toy_pack request)), r, pub. split; [exact Hrun | exact H].
Defined.

Lemma pack_extVersion_of_manifest_witness :
  let request : PackInput Toy.RSA :=
    set_extVersion Null (set_manifest (Given Toy.given_manifest) no_options) in
  exists s' m,
    toy_pack request = Resolved s' /\
    manifest (options s') = Given m /\ extVersion (options s') = Given (version m).
Proof.
  intros request. computed_run request.
  destruct (pack_extVersion_of_manifest Toy.sha256 Toy.RSA Toy.RSA_import Toy.RSA_sign
              Toy.RSA_exportKey Toy.RSA_generate Toy.readFile Toy.packContents
              request _ Hrun eq_refl) as [m H].
  exists (final (toy_pack request)), m. split; [exact Hrun | exact H].
Defined.

(** A manifest and a version requested for contents that are bytes. *)
Lemma pack_manifest_needs_directory_witness :
  let request : PackInput Toy.RSA :=
    set_extVersion Null
      (set_manifest Null (set_contents (Some (Bytes [Byte.x50; Byte.x4b])) no_options)) in
  (forall m, manifest (options (final (toy_pack request))) <> Given m) /\
  (manifest request = Null -> manifest (options (final (toy_pack request))) = Null) /\
  (extVersion request = Null -> forall s', toy_pack request <> Resolved s').
Proof.
  intros request.
  apply (pack_manifest_needs_directory Toy.sha256 Toy.RSA Toy.RSA_import Toy.RSA_sign
           Toy.RSA_exportKey Toy.RSA_generate Toy.readFile Toy.packContents request).
  - intros p. discriminate.
  - intros m. discriminate.
Defined.

Lemma pack_packs_directory_witness :
  let request : PackInput Toy.RSA :=
    set_manifest (Given Toy.given_manifest)
      (set_contents (Some (Path "extension")) no_options) in
  exists s' archive m,
    toy_pack request = Resolved s' /\
    Toy.packContents "extension" = Return (archive, m) /\
    contents (options s') = Some (Bytes archive) /\
    manifest (options s') = Given m /\
    In (PackContents "extension") (trace s').
Proof.
  intros request. computed_run request.
  destruct (pack_packs_directory Toy.sha256 Toy.RSA Toy.RSA_import Toy.RSA_sign
              Toy.RSA_exportKey Toy.RSA_generate Toy.readFile Toy.packContents
              request "extension" _ Hrun eq_refl) as [archive [m H]].
  exists (final (toy_pack request)), archive, m. split; [exact Hrun | exact H].
Defined.

(** An update document requested with an address, a manifest and a public
    key. *)
Lemma pack_updateXML_document_witness :
  let request : PackInput Toy.RSA :=
    {| contents := None; privateKey := Undefined; keySize := None;
       publicKey := Given (Bytes [Byte.x02]); rsa := None; id := Undefined;
       crx := Undefined; crxVersion := None;
       crxUrl := Some "https://example.org/e.crx"%string; updateXML := Null;
       extVersion := Undefined; minChromeVersion := Undefined;
       manifest := Given Toy.given_manifest |} in
  exists s' url i v,
    toy_pack request = Resolved s' /\
    crxUrl request = Some url /\
    id (options s') = Given i /\
    extVersion (options s') = Given v /\
    minChromeVersion (options s') <> Null /\
    updateXML (options s')
    = Given (generateUpdateXML (Given i) (Given url) (Given v)
               (minChromeVersion (options s'))).
Proof.
  intros request. computed_run request.
  destruct (pack_updateXML_document Toy.sha256 Toy.RSA Toy.RSA_import Toy.RSA_sign
              Toy.RSA_exportKey Toy.RSA_generate Toy.readFile Toy.packContents
              request _ Hrun eq_refl) as [url [i [v H]]].
  exists (final (toy_pack request)), url, i, v. split; [exact Hrun | exact H].
Defined.

Lemma pack_updateXML_needs_crxUrl_witness :
  let request : PackInput Toy.RSA := set_updateXML Null no_options in
  exists e s',
    toy_pack request = Rejected e s' /\
    Forall (fun ev => is_ReadFile ev = true) (trace s') /\
    (not_path (privateKey request) -> not_path (publicKey request) ->
     e = crxUrl_required /\ s' = start request).
Proof.
  intros request.
  apply (pack_updateXML_needs_crxUrl Toy.sha256 Toy.RSA Toy.RSA_import Toy.RSA_sign
           Toy.RSA_exportKey Toy.RSA_generate Toy.readFile Toy.packContents request);
    reflexivity.
Defined.

(** The example of the README: a key file that does not exist yet. *)
Lemma pack_unreadable_privateKey_witness :
  let request : PackInput Toy.RSA :=
    set_id Null (set_crx Null
      (set_privateKey (Given (Path "./key.pem"))
         (set_contents (Some (Path "./extension")) no_options))) in
  let e := Error "ENOENT: no such file or directory" in
  (includes (JsError_toString e) "ENOENT" = true ->
   toy_pack request
   = after_calls [ReadFile "./key.pem"] (toy_pack (set_privateKey Undefined request))) /\
  (includes (JsError_toString e) "ENOENT" = false ->
   toy_pack request = Rejected e {| options := request; trace := [ReadFile "./key.pem"] |}).
Proof.
  intros request e.
  apply (pack_unreadable_privateKey Toy.sha256 Toy.RSA Toy.RSA_import Toy.RSA_sign
           Toy.RSA_exportKey Toy.RSA_generate Toy.readFile Toy.packContents
           request "./key.pem" e); reflexivity.
Defined.

(** The key file of [Disk], in its text form. *)
Lemma pack_loads_privateKey_witness :
  let disk_pack :=
    pack Toy.sha256 Toy.RSA Disk.RSA_import Toy.RSA_sign Toy.RSA_exportKey Toy.RSA_generate
      Disk.readFile Toy.packContents in
  let request : PackInput Toy.RSA :=
    set_privateKey (Given (Path "key.pem")) no_options in
  exists s',
    disk_pack request = Resolved s' /\
    In (ReadFile "key.pem") (trace s') /\
    privateKey (options s') = Given (Bytes Disk.key_file) /\
    rsa (options s') = Some Disk.key_file.
Proof.
  intros disk_pack request.
  assert (Hrun : disk_pack request = Resolved (final (disk_pack request)))
    by (vm_compute; reflexivity).
  destruct (pack_loads_privateKey Toy.sha256 Toy.RSA Disk.RSA_import Toy.RSA_sign
              Toy.RSA_exportKey Toy.RSA_generate Disk.readFile Toy.packContents
              request "key.pem" (Byte.x2d :: Disk.key_file) _ Hrun eq_refl eq_refl)
    as [Hread [_ Hpem]].
  exists (final (disk_pack request)). split; [exact Hrun |]. split; [exact Hread |].
  apply (Hpem eq_refl Disk.key_file Disk.key_file); reflexivity.
Defined.

Lemma pack_without_paths_witness :
  let request : PackInput Toy.RSA :=
    set_crx Null (set_contents (Some (Bytes [Byte.x50; Byte.x4b])) no_options) in
  Forall (fun ev => ev = GenerateKey (key_bits (keySize request)))
    (trace (final (toy_pack request))).
Proof.
  intros request.
  apply (pack_without_paths Toy.sha256 Toy.RSA Toy.RSA_import Toy.RSA_sign
           Toy.RSA_exportKey Toy.RSA_generate Toy.readFile Toy.packContents request);
    intros p; discriminate.
Defined.

Lemma pack_idempotent_witness :
  let request : PackInput Toy.RSA :=
    set_id Null (set_crx Null
      (set_contents (Some (Path "extension")) no_options)) in
  exists s',
    toy_pack request = Resolved s' /\
    settled (options s') /\
    toy_pack (options s') = Resolved (start (options s')).
Proof.
  intros request. computed_run request.
  exists (final (toy_pack request)). split; [exact Hrun |].
  apply (pack_idempotent Toy.sha256 Toy.RSA Toy.RSA_import Toy.RSA_sign
           Toy.RSA_exportKey Toy.RSA_generate Toy.readFile Toy.packContents
           request _ Hrun).
Defined.

(** Keys and contents given, nothing requested. *)
Lemma pack_nothing_to_do_witness :
  let request : PackInput Toy.RSA :=
    set_contents (Some (Bytes [Byte.x50; Byte.x4b]))
      (set_privateKey (Given (Bytes [Byte.x01]))
         (set_publicKey (Given (Bytes [Byte.x02])) no_options)) in
  toy_pack request = Resolved (start request).
Proof.
  intros request.
  apply (pack_nothing_to_do Toy.sha256 Toy.RSA Toy.RSA_import Toy.RSA_sign
           Toy.RSA_exportKey Toy.RSA_generate Toy.readFile Toy.packContents request).
  unfold settled, not_path, not_directory. cbn.
  repeat split; intros; discriminate.
Defined.
